(** * sacred-parser: a shallow embedding of [sacredParser/core.py] and
      [sacredParser/parser.py], and the properties of its specification.

    Conventions of the embedding.
    - A Python [dict] is an association list in insertion order whose keys
      are pairwise distinct; [dict_set] and [dict_del] are [d[k] = v] and
      [del d[k]].
    - Python objects that the code inspects only through [type(v) is dict]
      and [type(v) is list] are the type [pyobj].
    - A [while True] loop takes fuel; running dry is the outcome
      [OutOfFuel], which the termination theorem excludes.
    - Exceptions are the outcome [Raise e]; the methods of the parser run
      in a monad [M] that also records the files opened and the warnings
      issued.
    - The directory tree is a value; a regular file carries what its
      decoder returns.  pandas is modelled as of the versions before 2.0,
      to which the code is written.
    - Strings are sequences of ASCII characters.

    The file has the embedding first (core.py, parser.py, then the
    predicates the statements use), and the lemmas and theorems after. *)

From Stdlib Require Import List String Ascii ZArith Lia Bool Arith PeanoNat.
From Stdlib Require Import DecimalString DecimalPos DecimalZ.
From Stdlib Require Import Permutation Sorted.
Import ListNotations.
Local Open Scope string_scope.
Local Open Scope list_scope.

Set Warnings "-register-all,-notation-for-abbreviation".

(* ================================================================== *)
(** * Python values, exceptions and outcomes *)
(* ================================================================== *)

(** What [json.load] returns, plus [PSeries] for the pandas series that
    a lookup by a repeated index label returns and [PObject] for every
    other object (a pandas table, an unpickled object).  [PFloat]
    carries the bit pattern of the double: no function of the repository
    computes with floats. *)
Inductive pyobj : Type :=
| PNone
| PBool (b : bool)
| PInt (z : Z)
| PFloat (bits : Z)
| PStr (s : string)
| PList (items : list pyobj)
| PDict (items : list (string * pyobj))
| PSeries (cells : list pyobj)
| PObject (id : nat).

(** The exceptions the two modules can raise, one constructor per raise
    site (or per built-in that raises). *)
Inductive exn : Type :=
| KeyError (key : string)
| ValueError (literal : string)          (* int(f) on a non-literal *)
| AssertNoOutputs                        (* "No experiment outputs found" *)
| AssertEidInConfig                      (* "eid" should not be a config field *)
| FileNotFoundError (path : list string)
| IsADirectoryError (path : list string)
| NotImplementedError (ext : string)
| ExcCannotUseEid                        (* Exception('Cannot use name "eid"') *)
| ExcAlreadyConfigName (name : string)   (* "Name ... already a config hyperparameter name" *)
| ExcAlreadyArtifactName (name : string) (* "Name ... already an artifact name" *)
| AttributeError (attr : string)         (* a method the object lacks *)
| TypeError (msg : string)               (* a keyword bound twice, a value that is not iterable *)
| LengthsMustMatch                       (* ValueError("Lengths must match to compare") *)
| CallbackError (msg : string).          (* raised by a user function *)

Inductive outcome (A : Type) : Type :=
| Ok (a : A)
| Raise (e : exn)
| OutOfFuel.
Arguments Ok {A} a.
Arguments Raise {A} e.
Arguments OutOfFuel {A}.

(* ================================================================== *)
(** * Python dictionaries *)
(* ================================================================== *)

Section PyDict.
Context {K V : Type} (K_eq_dec : forall a b : K, {a = b} + {a <> b}).

Definition dict := list (K * V).

Definition keys (d : dict) : list K := map fst d.

(** [d.get(k)] *)
Fixpoint dict_get (k : K) (d : dict) : option V :=
  match d with
  | [] => None
  | (k', v') :: d' => if K_eq_dec k k' then Some v' else dict_get k d'
  end.

(** [k in d] *)
Definition dict_mem (k : K) (d : dict) : bool :=
  match dict_get k d with Some _ => true | None => false end.

(** [d[k] = v]: an existing key keeps its place, a new key goes last. *)
Fixpoint dict_set (k : K) (v : V) (d : dict) : dict :=
  match d with
  | [] => [(k, v)]
  | (k', v') :: d' =>
      if K_eq_dec k k' then (k, v) :: d' else (k', v') :: dict_set k v d'
  end.

(** [del d[k]]: [None] is Python's [KeyError]. *)
Fixpoint dict_del (k : K) (d : dict) : option dict :=
  match d with
  | [] => None
  | (k', v') :: d' =>
      if K_eq_dec k k' then Some d'
      else match dict_del k d' with
           | Some r => Some ((k', v') :: r)
           | None => None
           end
  end.
End PyDict.

Arguments dict : clear implicits.

Notation sdict := (dict string pyobj).
Notation sget := (dict_get string_dec).
Notation smem := (dict_mem string_dec).
Notation sset := (dict_set string_dec).
Notation sdel := (dict_del string_dec).

(* ================================================================== *)
(** * core.py: flatten_json *)
(* ================================================================== *)

(** [str(i)] for a list index. *)
Definition str_of_nat (n : nat) : string :=
  NilZero.string_of_uint (Nat.to_uint n).

(** ["{}{}{}".format(k, sep, k_inner)] *)
Definition fmt (k sep k_inner : string) : string := k ++ sep ++ k_inner.

(** [enumerate(v)] *)
Fixpoint enumerate_from {A : Type} (i : nat) (l : list A) : list (nat * A) :=
  match l with
  | [] => []
  | a :: l' => (i, a) :: enumerate_from (S i) l'
  end.
Definition enumerate {A : Type} (l : list A) := enumerate_from 0 l.

(** [type(v) is dict or type(v) is list] *)
Definition is_nested (v : pyobj) : bool :=
  match v with
  | PDict _ | PList _ => true
  | _ => false
  end.

(** The inner loop of the [dict] branch (lines 18-19). *)
Definition expand_dict (sep k : string) (v : sdict) (x_out : sdict) : sdict :=
  fold_left (fun acc kv => sset (fmt k sep (fst kv)) (snd kv) acc) v x_out.

(** The inner loop of the [list] branch (lines 25-26). *)
Definition expand_list (sep k : string) (v : list pyobj) (x_out : sdict) : sdict :=
  fold_left (fun acc iv => sset (fmt k sep (str_of_nat (fst iv))) (snd iv) acc)
            (enumerate v) x_out.

(** The [for k, v in x.items()] loop (lines 12-26), from the position
    where [items] remain; its state is [done] and [x_out]. *)
Fixpoint pass_items (sep : string) (items : sdict) (done : bool) (x_out : sdict)
  : outcome (bool * sdict) :=
  match items with
  | [] => Ok (done, x_out)
  | (k, v) :: rest =>
      match v with
      | PDict d =>
          match sdel k x_out with
          | None => Raise (KeyError k)
          | Some x1 => pass_items sep rest false (expand_dict sep k d x1)
          end
      | PList l =>
          match sdel k x_out with
          | None => Raise (KeyError k)
          | Some x1 => pass_items sep rest false (expand_list sep k l x1)
          end
      | _ => pass_items sep rest done x_out
      end
  end.

(** The [while True] loop (lines 9-31). *)
Fixpoint flatten_loop (fuel : nat) (sep : string) (x x_out : sdict) : outcome sdict :=
  match fuel with
  | O => OutOfFuel
  | S fuel' =>
      match pass_items sep x true x_out with
      | Ok (true, x_out') => Ok x_out'
      | Ok (false, x_out') => flatten_loop fuel' sep x_out' x_out'
      | Raise e => Raise e
      | OutOfFuel => OutOfFuel
      end
  end.

(** [flatten_json(x, sep)]; [x_out = x.copy()] on entry. *)
Definition flatten_json (fuel : nat) (x : sdict) (sep : string) : outcome sdict :=
  flatten_loop fuel sep x x.

Definition default_sep : string := "__".

(** Nesting depth: 0 for a value that is neither a dict nor a list. *)
Fixpoint depth (v : pyobj) : nat :=
  match v with
  | PList l => S (list_max (map depth l))
  | PDict d => S (list_max (map (fun kv => match kv with (_, c) => depth c end) d))
  | _ => 0
  end.

Definition dict_depth (x : sdict) : nat := list_max (map (fun kv => depth (snd kv)) x).

(** No value of [x] is a dict or a list. *)
Definition is_flat (x : sdict) : bool := forallb (fun kv => negb (is_nested (snd kv))) x.

(* ================================================================== *)
(** * flatten_json: one pass as a sequence of steps *)
(* ================================================================== *)

(** The entries one level below [v], keyed the way the two inner loops
    key them: a dict's own keys, a list's indices through [str]. *)
Definition children (v : pyobj) : sdict :=
  match v with
  | PDict d => d
  | PList l => map (fun iv => (str_of_nat (fst iv), snd iv)) (enumerate l)
  | _ => []
  end.

(** What the loop body does to [x_out] for one item. *)
Definition step (sep : string) (kv : string * pyobj) (x_out : sdict) : outcome sdict :=
  if is_nested (snd kv) then
    match sdel (fst kv) x_out with
    | None => Raise (KeyError (fst kv))
    | Some x1 => Ok (expand_dict sep (fst kv) (children (snd kv)) x1)
    end
  else Ok x_out.

(* ================================================================== *)
(** * flatten_json: paths and composite keys *)
(* ================================================================== *)

(** A path is the sequence of dict keys and list indices (as [str]
    prints them) from the top-level mapping down to a value. *)
Fixpoint lookup_path (v : pyobj) (p : list string) : option pyobj :=
  match p with
  | [] => Some v
  | c :: p' =>
      match sget c (children v) with
      | Some w => lookup_path w p'
      | None => None
      end
  end.

(** The composite key [k1<sep>k2<sep>...<sep>kn] of a path. *)
Definition path_key (sep : string) (p : list string) : string := String.concat sep p.

(** Every node at or below the value [v] reached under composite key
    [k], with its composite key. *)
Fixpoint nodes_from (sep : string) (k : string) (v : pyobj) : list (string * pyobj) :=
  (k, v) ::
  match v with
  | PDict d =>
      (fix go (d : list (string * pyobj)) : list (string * pyobj) :=
         match d with
         | [] => []
         | (kc, c) :: d' => nodes_from sep (fmt k sep kc) c ++ go d'
         end) d
  | PList l =>
      (fix go (i : nat) (l : list pyobj) : list (string * pyobj) :=
         match l with
         | [] => []
         | c :: l' => nodes_from sep (fmt k sep (str_of_nat i)) c ++ go (S i) l'
         end) 0 l
  | _ => []
  end.

Definition all_nodes (sep : string) (x : sdict) : list (string * pyobj) :=
  flat_map (fun kv => nodes_from sep (fst kv) (snd kv)) x.

(** The leaves: the nodes that are neither a dict nor a list. *)
Definition leaves (sep : string) (x : sdict) : list (string * pyobj) :=
  filter (fun kv => negb (is_nested (snd kv))) (all_nodes sep x).

(** No dict or list sits under a composite key that another node of
    the mapping also has. *)
Definition collision_free (sep : string) (x : sdict) : bool :=
  let ns := all_nodes sep x in
  forallb (fun kv => negb (is_nested (snd kv))
                     || Nat.eqb (count_occ string_dec (map fst ns) (fst kv)) 1) ns.

(** The node relation used in the proofs: [node sep x k v] when [v] sits
    in [x] under composite key [k]. *)
Inductive node (sep : string) (x : sdict) : string -> pyobj -> Prop :=
| node_top k v : In (k, v) x -> node sep x k v
| node_child k v kc c :
    node sep x k v -> In (kc, c) (children v) -> node sep x (fmt k sep kc) c.

(** [below sep k v K]: a leaf with composite key [K] sits at or below the
    value [v] of composite key [k]. *)
Inductive below (sep : string) : string -> pyobj -> string -> Prop :=
| below_here k v : is_nested v = false -> below sep k v k
| below_child k v kc c K :
    In (kc, c) (children v) -> below sep (fmt k sep kc) c K -> below sep k v K.

(** [K] is the composite key of a leaf of [x]. *)
Definition leaf_key (sep : string) (x : sdict) (K : string) : Prop :=
  exists k v, In (k, v) x /\ below sep k v K.

(** No collision at a nested node, as a relation. *)
Definition no_nested_collision (sep : string) (x : sdict) : Prop :=
  forall K v v', node sep x K v -> node sep x K v' -> is_nested v = true -> v' = v.

(* ================================================================== *)
(** * flatten_json: loop invariants *)
(* ================================================================== *)

(** The loop invariant of one pass that started from a dict of depth at
    most [D]: an entry of [x_out] is either already one level shallower
    or still waits among the items to come. *)
Definition pass_inv (D : nat) (rest x_out : sdict) : Prop :=
  NoDup (keys rest) /\ NoDup (keys x_out) /\
  incl (keys rest) (keys x_out) /\
  (forall e, In e rest -> depth (snd e) <= D) /\
  (forall e, In e x_out -> depth (snd e) <= D - 1 \/ In e rest).

(** During a pass that started from [x]: the leaf key [K] is still
    reachable from an entry of [x_out] that is a node of [x]. *)
Definition cover (sep : string) (x x_out : sdict) (K : string) : Prop :=
  exists k v, In (k, v) x_out /\ node sep x k v /\ below sep k v K.

(** The invariant of a pass that started from [x]. *)
Definition path_inv (sep : string) (x rest x_out : sdict) : Prop :=
  incl rest x /\
  (forall e, In e x_out -> node sep x (fst e) (snd e)) /\
  (forall K, leaf_key sep x K -> cover sep x x_out K).


(* ================================================================== *)
(** * Effects: opened files, warnings, exceptions *)
(* ================================================================== *)

(** What a method does to the world besides returning: the files it
    opens for reading (by path below [basedir]) and the warnings it
    issues through [warnings.warn]. *)
Record effects : Type := {
  opened : list (list string);
  warned : list string
}.

Definition no_effects : effects := {| opened := []; warned := [] |}.

(** A computation that may raise and that records its effects. *)
Definition M (A : Type) : Type := effects -> outcome A * effects.

Definition ret {A : Type} (a : A) : M A := fun w => (Ok a, w).

Definition bind {A B : Type} (c : M A) (k : A -> M B) : M B :=
  fun w =>
    match c w with
    | (Ok a, w') => k a w'
    | (Raise e, w') => (Raise e, w')
    | (OutOfFuel, w') => (OutOfFuel, w')
    end.

Definition raise {A : Type} (e : exn) : M A := fun w => (Raise e, w).

(** A pure computation that may raise, run inside [M]. *)
Definition lift {A : Type} (o : outcome A) : M A := fun w => (o, w).

Definition log_open (path : list string) : M unit :=
  fun w => (Ok tt, {| opened := opened w ++ [path]; warned := warned w |}).

Definition warn (msg : string) : M unit :=
  fun w => (Ok tt, {| opened := opened w; warned := warned w ++ [msg] |}).

Notation "x <- c ;; k" := (bind c (fun x => k))
  (at level 61, c at next level, right associativity).
Notation "c ;;; k" := (bind c (fun _ => k))
  (at level 61, right associativity).

(** [[body(a) for a in l]], left to right; the first exception ends it. *)
Fixpoint mapM {A B : Type} (body : A -> M B) (l : list A) : M (list B) :=
  match l with
  | [] => ret []
  | a :: l' => b <- body a ;; bs <- mapM body l' ;; ret (b :: bs)
  end.

(** Sequencing of pure computations that may raise. *)
Definition obind {A B : Type} (o : outcome A) (k : A -> outcome B) : outcome B :=
  match o with
  | Ok a => k a
  | Raise e => Raise e
  | OutOfFuel => OutOfFuel
  end.

Fixpoint omap {A B : Type} (body : A -> outcome B) (l : list A) : outcome (list B) :=
  match l with
  | [] => Ok []
  | a :: l' => obind (body a) (fun b => obind (omap body l') (fun bs => Ok (b :: bs)))
  end.

(* ================================================================== *)
(** * The directory tree *)
(* ================================================================== *)

(** A regular file carries what its decoder returns ([json.load],
    [pd.read_feather], [pickle.load]); the decoders themselves are not
    code of the repository. *)
Inductive fsnode : Type :=
| RegFile (content : pyobj)
| Directory (entries : list (string * fsnode)).

Definition direntries : Type := list (string * fsnode).

Fixpoint fs_find (name : string) (es : direntries) : option fsnode :=
  match es with
  | [] => None
  | (n, nd) :: es' => if string_dec name n then Some nd else fs_find name es'
  end.

(** The node at a path below the directory whose entries are [es]. *)
Fixpoint fs_walk (es : direntries) (path : list string) : option fsnode :=
  match path with
  | [] => Some (Directory es)
  | name :: path' =>
      match fs_find name es with
      | Some (Directory es') => fs_walk es' path'
      | Some (RegFile c) => match path' with [] => Some (RegFile c) | _ => None end
      | None => None
      end
  end.

(** [os.path.isdir], [os.path.isfile], [os.listdir] *)
Definition isdir (es : direntries) (path : list string) : bool :=
  match fs_walk es path with Some (Directory _) => true | _ => false end.

Definition isfile (es : direntries) (path : list string) : bool :=
  match fs_walk es path with Some (RegFile _) => true | _ => false end.

Definition listdir (es : direntries) (path : list string) : outcome (list string) :=
  match fs_walk es path with
  | Some (Directory es') => Ok (map fst es')
  | _ => Raise (FileNotFoundError path)
  end.

(* ================================================================== *)
(** * Built-ins on strings and integers *)
(* ================================================================== *)

Definition is_digit (c : ascii) : bool :=
  let n := nat_of_ascii c in Nat.leb 48 n && Nat.leb n 57.

Definition is_lower (c : ascii) : bool :=
  let n := nat_of_ascii c in Nat.leb 97 n && Nat.leb n 122.

Definition is_upper (c : ascii) : bool :=
  let n := nat_of_ascii c in Nat.leb 65 n && Nat.leb n 90.

(** The ASCII characters [str.strip] removes. *)
Definition is_space (c : ascii) : bool :=
  let n := nat_of_ascii c in
  (Nat.leb 9 n && Nat.leb n 13) || (Nat.leb 28 n && Nat.leb n 32).

(** [re.search("[0-9]+", f) is not None] *)
Fixpoint has_digit (s : string) : bool :=
  match s with
  | EmptyString => false
  | String c s' => is_digit c || has_digit s'
  end.

Fixpoint lstrip (l : list ascii) : list ascii :=
  match l with
  | c :: l' => if is_space c then lstrip l' else l
  | [] => []
  end.

Definition strip (l : list ascii) : list ascii := rev (lstrip (rev (lstrip l))).

(** Digits with single underscores between them. *)
Fixpoint parse_digits (acc : Z) (after_digit : bool) (l : list ascii) : option Z :=
  match l with
  | [] => if after_digit then Some acc else None
  | c :: l' =>
      if is_digit c
      then parse_digits (10 * acc + (Z.of_nat (nat_of_ascii c) - 48)) true l'
      else if Ascii.eqb c "_"%char
           then (if after_digit then parse_digits acc false l' else None)
           else None
  end.

(** [int(s)] on an ASCII string: [None] is [ValueError]. *)
Definition py_int (s : string) : option Z :=
  match strip (list_ascii_of_string s) with
  | "+"%char :: l => parse_digits 0 false l
  | "-"%char :: l => option_map Z.opp (parse_digits 0 false l)
  | l => parse_digits 0 false l
  end.

(** [str(eid)] *)
Definition str_of_Z (z : Z) : string := NilZero.string_of_int (Z.to_int z).

(** [list.sort()] on integers. *)
Fixpoint insert_sorted (z : Z) (l : list Z) : list Z :=
  match l with
  | [] => [z]
  | y :: l' => if (z <=? y)%Z then z :: l else y :: insert_sorted z l'
  end.

Fixpoint sort (l : list Z) : list Z :=
  match l with
  | [] => []
  | z :: l' => insert_sorted z (sort l')
  end.

(** [os.path.splitext] on a file name without separators: the extension
    starts at the last dot, unless only dots come before it. *)
Fixpoint split_last_dot (l : list ascii) : option (list ascii * list ascii) :=
  match l with
  | [] => None
  | c :: l' =>
      match split_last_dot l' with
      | Some (stem, ext) => Some (c :: stem, ext)
      | None => if Ascii.eqb c "."%char then Some ([], l) else None
      end
  end.

Definition splitext (f : string) : string * string :=
  match split_last_dot (list_ascii_of_string f) with
  | Some (stem, ext) =>
      if forallb (fun c => Ascii.eqb c "."%char) stem
      then (f, EmptyString)
      else (string_of_list_ascii stem, string_of_list_ascii ext)
  | None => (f, EmptyString)
  end.

(** [s.lower()] followed by [re.sub("[^a-z0-9]", "_", s)], as
    [cfg_df.columns.str.lower().str.replace("[^a-z0-9]", "_")] does to
    each column name (pandas before 2.0, where [str.replace] takes a
    regular expression by default). *)
Definition lower_char (c : ascii) : ascii :=
  if is_upper c then ascii_of_nat (nat_of_ascii c + 32) else c.

Definition normalize_char (c : ascii) : ascii :=
  let c' := lower_char c in
  if is_lower c' || is_digit c' then c' else "_"%char.

Fixpoint normalize_name (s : string) : string :=
  match s with
  | EmptyString => EmptyString
  | String c s' => String (normalize_char c) (normalize_name s')
  end.

(** First occurrences, in order: the column order of [pd.DataFrame] on a
    list of records, and the elements of a [set]. *)
Fixpoint dedup (seen : list string) (l : list string) : list string :=
  match l with
  | [] => []
  | a :: l' =>
      if in_dec string_dec a seen then dedup seen l'
      else a :: dedup (a :: seen) l'
  end.

(* ================================================================== *)
(** * The pandas table of configurations *)
(* ================================================================== *)

(** A frame indexed by run id, column by column; every column is as long
    as the index.  pandas keeps columns that share a label and rows that
    share an index label, and so does the frame.  Cells hold the Python
    object as it was assigned: pandas converts the values of a column to
    one dtype (the integers of a column with a missing cell become
    floats), which the model leaves out; the two agree on the columns of
    [stored_as_assigned]. *)
Record DataFrame : Type := {
  df_index : list Z;
  df_columns : list (string * list pyobj)
}.

(** [float("nan")], the cell of a record that lacks the column. *)
Definition NaN : pyobj := PFloat 9221120237041090560.

(** [df.columns] *)
Definition columns (df : DataFrame) : list string := map fst (df_columns df).

(** [name in df.columns] *)
Definition in_columns (name : string) (df : DataFrame) : bool :=
  if in_dec string_dec name (columns df) then true else false.

(** The series of the column labelled [name]: what [df[name]] is when
    one column has the label (the first of them when several have). *)
Definition df_getcol (name : string) (df : DataFrame) : outcome (list pyobj) :=
  match dict_get string_dec name (df_columns df) with
  | Some col => Ok col
  | None => Raise (KeyError name)
  end.

(** What [df[name]] returns: the series of the column that has the
    label, or the frame of the columns that share it. *)
Inductive getitem : Type :=
| GetSeries (col : list pyobj)
| GetFrame (cols : list (string * list pyobj)).

(** [df[name]] *)
Definition df_getitem (name : string) (df : DataFrame) : outcome getitem :=
  match filter (fun c => String.eqb (fst c) name) (df_columns df) with
  | [] => Raise (KeyError name)
  | [c] => Ok (GetSeries (snd c))
  | cs => Ok (GetFrame cs)
  end.

(** [series[eid]] for the series [col] of a frame with index [index]:
    the cell of the row labelled [eid], or the series of the cells of
    the rows that share the label. *)
Definition series_loc (index : list Z) (col : list pyobj) (eid : Z) : outcome pyobj :=
  match map snd (filter (fun r => Z.eqb (fst r) eid) (combine index col)) with
  | [] => Raise (KeyError (str_of_Z eid))
  | [v] => Ok v
  | vs => Ok (PSeries vs)
  end.

(** The lists of values that pandas stores in a column as they are
    assigned: integers of 64 bits only (dtype int64), floats only
    (float64), booleans only (bool), lists and dicts only (object).
    Other lists it may convert: 1 and None become 1.0 and nan. *)
Definition is_int64 (z : Z) : bool := (- 2 ^ 63 <=? z)%Z && (z <? 2 ^ 63)%Z.

Definition stored_as_assigned (values : list pyobj) : bool :=
  forallb (fun v => match v with PInt z => is_int64 z | _ => false end) values
  || forallb (fun v => match v with PFloat _ => true | _ => false end) values
  || forallb (fun v => match v with PBool _ => true | _ => false end) values
  || forallb (fun v => match v with PList _ | PDict _ => true | _ => false end) values.

(** [df[name] = values], without the conversion to one dtype: the cells
    are the values assigned, which is what pandas stores for the lists
    of [stored_as_assigned]. *)
Definition df_setcol (name : string) (values : list pyobj) (df : DataFrame) : DataFrame :=
  {| df_index := df_index df;
     df_columns := dict_set string_dec name values (df_columns df) |}.

(** [pd.DataFrame(cfgs).set_index("eid")] for records that all carry
    ["eid"]: one column per key met, [NaN] where a record lacks it.
    Labels, order and shape are those of pandas; the cells are the
    values of the records, without the conversion of each column to one
    dtype. *)
Definition frame_of_records (eids : list Z) (cfgs : list sdict) : DataFrame :=
  let names := filter (fun c => negb (String.eqb c "eid"))
                      (dedup [] (List.concat (map (@keys string pyobj) cfgs))) in
  {| df_index := eids;
     df_columns :=
       map (fun c => (c, map (fun cfg => match sget c cfg with
                                         | Some v => v
                                         | None => NaN
                                         end) cfgs)) names |}.

(** [df.columns = df.columns.str.lower().str.replace("[^a-z0-9]", "_")] *)
Definition normalize_columns (df : DataFrame) : DataFrame :=
  {| df_index := df_index df;
     df_columns := map (fun c => (normalize_name (fst c), snd c)) (df_columns df) |}.

(** The left operand of [ix & mask] in [eid_match]: the Python [True]
    it starts from, or a boolean series. *)
Inductive indexer : Type :=
| IxTrue
| IxMask (mask : list bool).

(** [ix & mask] *)
Definition and_ix (ix : indexer) (mask : list bool) : indexer :=
  match ix with
  | IxTrue => IxMask mask
  | IxMask m => IxMask (map (fun p => andb (fst p) (snd p)) (combine m mask))
  end.

(** What [index[ix]] returns: an index of labels, or, for a scalar
    boolean, the two-dimensional array that numpy builds by adding an
    axis. *)
Inductive selection : Type :=
| Index1D (labels : list Z)
| Array2D (rows : list (list Z)).

Fixpoint select (index : list Z) (mask : list bool) : list Z :=
  match index, mask with
  | e :: index', b :: mask' => if b then e :: select index' mask' else select index' mask'
  | _, _ => []
  end.

(** [index[ix]] (pandas before 2.0). *)
Definition index_getitem (index : list Z) (ix : indexer) : selection :=
  match ix with
  | IxTrue => Array2D [index]
  | IxMask mask => Index1D (select index mask)
  end.

(* ================================================================== *)
(** * parser.py: FileStorageParser *)
(* ================================================================== *)

Record FileStorageParser : Type := {
  basedir : direntries;
  processed_dirname : option string;
  eids : list Z;
  cfg_df : DataFrame;
  artifacts : dict string (dict Z pyobj)
}.

(** A user function: the argument names [inspect.getfullargspec(f)[0]]
    returns, and what a call of [f] with keyword arguments does. *)
Record callback : Type := {
  argnames : list string;
  call : sdict -> outcome pyobj
}.

Definition reserved_filenames : list string :=
  ["config.json"; "metrics.json"; "run.json"; "cout.txt"].

(** Lines 19-27 of [__init__], for a base directory that exists and can
    be listed: [bd] is what it holds, in the order of [os.listdir]. *)
Definition discover (bd : direntries) : outcome (list Z) :=
  let accepted := filter (fun f => isdir bd [f] && has_digit f) (map fst bd) in
  obind (omap (fun f => match py_int f with
                        | Some z => Ok z
                        | None => Raise (ValueError f)
                        end) accepted)
        (fun ids => match ids with
                    | [] => Raise AssertNoOutputs
                    | _ => Ok (sort ids)
                    end).

(** [_eid_dir(eid)] with [dirname=None], as a path below [basedir]. *)
Definition _eid_dir (pd : option string) (eid : Z) : list string :=
  match pd with
  | Some d => [str_of_Z eid; d]
  | None => [str_of_Z eid]
  end.

(** [flatten_json(cfg)] with the default separator, given one pass more
    than the nesting depth: the termination theorem shows that no fuel
    above that changes the result. *)
Definition flatten (cfg : sdict) : outcome sdict :=
  flatten_json (S (dict_depth cfg)) cfg default_sep.

(** [p in s] on strings. *)
Fixpoint is_substring (p s : string) : bool :=
  String.prefix p s
  || match s with
     | EmptyString => false
     | String _ s' => is_substring p s'
     end.

(** ["eid" in cfg] for what [json.load] returned: a key of an object, an
    element of an array, a part of a string; a number, a boolean and
    [None] are not iterable.  ([json.load] returns no other value.) *)
Definition contains_eid (cfg : pyobj) : outcome bool :=
  match cfg with
  | PDict d => Ok (smem "eid" d)
  | PList l => Ok (existsb (fun x => match x with
                                     | PStr s => String.eqb s "eid"
                                     | _ => false
                                     end) l)
  | PStr s => Ok (is_substring "eid" s)
  | _ => Raise (TypeError "argument is not iterable")
  end.

(** The body of the loop of [_config_df] (lines 37-46).  On a value that
    is not an object [flatten_json] fails at its first attribute
    access: [x.items] for an array, which has [copy], and [x.copy] for
    the scalars.  [open] fails on a directory and on a path that leads
    nowhere. *)
Definition load_config (bd : direntries) (pd : option string) (eid : Z) : M sdict :=
  let path := _eid_dir pd eid ++ ["config.json"] in
  match fs_walk bd path with
  | Some (RegFile content) =>
      log_open path ;;;
      has_eid <- match pd with
                 | None => lift (contains_eid content)
                 | Some _ => ret false
                 end ;;
      if has_eid then raise AssertEidInConfig
      else match content with
           | PDict cfg => cfg' <- lift (flatten cfg) ;; ret (sset "eid" (PInt eid) cfg')
           | PList _ => raise (AttributeError "items")
           | _ => raise (AttributeError "copy")
           end
  | Some (Directory _) => raise (IsADirectoryError path)
  | None => raise (FileNotFoundError path)
  end.

(** [_config_df] *)
Definition _config_df (bd : direntries) (pd : option string) (ids : list Z) : M DataFrame :=
  cfgs <- mapM (load_config bd pd) ids ;;
  ret (normalize_columns (frame_of_records ids cfgs)).

(** [_load_file(eid, filename)] *)
Definition _load_file (bd : direntries) (pd : option string) (eid : Z) (filename : string)
  : M pyobj :=
  let ext := snd (splitext filename) in
  let path := _eid_dir pd eid ++ [filename] in
  match fs_walk bd path with
  | Some (RegFile content) =>
      if existsb (String.eqb ext) [".feather"; ".json"; ".pickle"; ".pkl"]
      then log_open path ;;; ret content
      else raise (NotImplementedError ext)
  | _ => ret PNone
  end.

(** The generator under [set(...)] in [_artifacts] (lines 55-59) for one
    run directory. *)
Definition run_filenames (bd : direntries) (pd : option string) (eid : Z)
  : outcome (list string) :=
  obind (listdir bd (_eid_dir pd eid))
        (fun fs => Ok (filter (fun f => isfile bd (_eid_dir pd eid ++ [f])
                                        && negb (existsb (String.eqb f) reserved_filenames))
                              fs)).

(** [artifact_filenames]; the iteration order of a Python [set] is not
    specified, the model takes first occurrences. *)
Definition artifact_filenames (bd : direntries) (pd : option string) (ids : list Z)
  : outcome (list string) :=
  obind (omap (run_filenames bd pd) ids) (fun fss => Ok (dedup [] (List.concat fss))).

(** [{eid: body(eid) for eid in ids}] *)
Fixpoint dict_of_runs (body : Z -> M pyobj) (ids : list Z) (acc : dict Z pyobj)
  : M (dict Z pyobj) :=
  match ids with
  | [] => ret acc
  | eid :: ids' => v <- body eid ;; dict_of_runs body ids' (dict_set Z.eq_dec eid v acc)
  end.

(** The dict comprehension of [_artifacts] (lines 61-64). *)
Fixpoint load_artifacts (bd : direntries) (pd : option string) (ids : list Z)
  (fs : list string) (acc : dict string (dict Z pyobj)) : M (dict string (dict Z pyobj)) :=
  match fs with
  | [] => ret acc
  | f :: fs' =>
      per_run <- dict_of_runs (fun eid => _load_file bd pd eid f) ids [] ;;
      load_artifacts bd pd ids fs' (dict_set string_dec (fst (splitext f)) per_run acc)
  end.

(** [_artifacts] *)
Definition _artifacts (bd : direntries) (pd : option string) (ids : list Z)
  : M (dict string (dict Z pyobj)) :=
  fs <- lift (artifact_filenames bd pd ids) ;;
  load_artifacts bd pd ids fs [].

(** [FileStorageParser(basedir, processed_dirname)] *)
Definition init (bd : direntries) (pd : option string) : M FileStorageParser :=
  ids <- lift (discover bd) ;;
  df <- _config_df bd pd ids ;;
  arts <- _artifacts bd pd ids ;;
  ret {| basedir := bd; processed_dirname := pd; eids := ids;
         cfg_df := df; artifacts := arts |}.

(** [_argnames] *)
Definition _argnames (self : FileStorageParser) : list string :=
  "eid" :: columns (cfg_df self) ++ keys (artifacts self).

(** The value expression of the comprehension of [_kwargs]
    (lines 101-107).  In [self.cfg_df[arg][eid]] the second lookup is by
    row label on a series and by column label on a frame, which has no
    column labelled by a run id. *)
Definition kwargs_value (self : FileStorageParser) (arg : string) (eid : Z) : outcome pyobj :=
  if String.eqb arg "eid" then Ok (PInt eid)
  else if in_columns arg (cfg_df self)
  then obind (df_getitem arg (cfg_df self))
             (fun r => match r with
                       | GetSeries col => series_loc (df_index (cfg_df self)) col eid
                       | GetFrame _ => Raise (KeyError (str_of_Z eid))
                       end)
  else match dict_get string_dec arg (artifacts self) with
       | Some per_run =>
           match dict_get Z.eq_dec eid per_run with
           | Some v => Ok v
           | None => Raise (KeyError (str_of_Z eid))
           end
       | None => Ok PNone
       end.

(** [_kwargs(argnames, eid)] *)
Fixpoint kwargs_loop (self : FileStorageParser) (names : list string) (eid : Z) (acc : sdict)
  : outcome sdict :=
  match names with
  | [] => Ok acc
  | arg :: names' =>
      if in_dec string_dec arg (_argnames self)
      then obind (kwargs_value self arg eid)
                 (fun v => kwargs_loop self names' eid (sset arg v acc))
      else kwargs_loop self names' eid acc
  end.

Definition _kwargs (self : FileStorageParser) (names : list string) (eid : Z) : M sdict :=
  lift (kwargs_loop self names eid []).

(** The values pandas compares with each cell of a series. *)
Definition is_scalar (v : pyobj) : bool :=
  match v with
  | PNone | PBool _ | PInt _ | PFloat _ | PStr _ => true
  | _ => false
  end.

(** [series == v], where [cell_eq c v] is what [==] of pandas gives for
    the cell [c] and the scalar [v].  A list is compared position by
    position and must be as long as the series.  (How pandas compares a
    series with the remaining values depends on labels and dtypes that
    the model does not hold; the statements about [eid_match] are about
    scalars.) *)
Definition series_eq (cell_eq : pyobj -> pyobj -> bool) (col : list pyobj) (v : pyobj)
  : outcome (list bool) :=
  match v with
  | PList vs =>
      if Nat.eqb (List.length vs) (List.length col)
      then Ok (map (fun cv => cell_eq (fst cv) (snd cv)) (combine col vs))
      else Raise LengthsMustMatch
  | _ => Ok (map (fun c => cell_eq c v) col)
  end.

(** The loop of [eid_match] over the keyword arguments [criteria], on a
    frame whose labels are distinct: [self.cfg_df[k]] is a series.  (For
    a label that several columns share pandas compares the frame of
    them; the statements about [eid_match] take distinct labels.) *)
Fixpoint match_loop (cell_eq : pyobj -> pyobj -> bool) (df : DataFrame)
  (criteria : sdict) (ix : indexer) : outcome indexer :=
  match criteria with
  | [] => Ok ix
  | (k, v) :: criteria' =>
      obind (df_getcol k df)
            (fun col => obind (series_eq cell_eq col v)
                              (fun mask => match_loop cell_eq df criteria' (and_ix ix mask)))
  end.

(** [eid_match] called with the keyword arguments [criteria]; the
    keyword "self" cannot be bound a second time. *)
Definition eid_match (cell_eq : pyobj -> pyobj -> bool) (self : FileStorageParser)
  (criteria : sdict) : M selection :=
  if smem "self" criteria
  then raise (TypeError "eid_match() got multiple values for argument 'self'")
  else
    ix <- lift (match_loop cell_eq (cfg_df self) criteria IxTrue) ;;
    ret (index_getitem (df_index (cfg_df self)) ix).

(** The call of [f] on [self._kwargs(argnames, eid)]. *)
Definition apply_callback (self : FileStorageParser) (f : callback) (eid : Z) : M pyobj :=
  kw <- _kwargs self (argnames f) eid ;; lift (call f kw).

(** [add_artifact(name, f)]: the parser after the call. *)
Definition add_artifact (self : FileStorageParser) (name : string) (f : callback)
  : M FileStorageParser :=
  if String.eqb name "eid" then raise ExcCannotUseEid
  else if in_columns name (cfg_df self) then raise (ExcAlreadyConfigName name)
  else
    per_run <- dict_of_runs (apply_callback self f) (eids self) [] ;;
    ret {| basedir := basedir self; processed_dirname := processed_dirname self;
           eids := eids self; cfg_df := cfg_df self;
           artifacts := dict_set string_dec name per_run (artifacts self) |}.

Definition overwrite_warning : string := "You are overwriting a config column".

(** [add_cfg_col(name, f)]: the parser after the call. *)
Definition add_cfg_col (self : FileStorageParser) (name : string) (f : callback)
  : M FileStorageParser :=
  if String.eqb name "eid" then raise ExcCannotUseEid
  else if dict_mem string_dec name (artifacts self) then raise (ExcAlreadyArtifactName name)
  else
    (if in_columns name (cfg_df self) then warn overwrite_warning else ret tt) ;;;
    values <- mapM (apply_callback self f) (eids self) ;;
    ret {| basedir := basedir self; processed_dirname := processed_dirname self;
           eids := eids self; cfg_df := df_setcol name values (cfg_df self);
           artifacts := artifacts self |}.

(* ================================================================== *)
(** * Statements of the specification, as predicates *)
(* ================================================================== *)

(** Section 4.1, read for every mapping: each path that ends at a leaf
    has its composite key among the keys of the result. *)
Definition keeps_every_path (sep : string) (x : sdict) : Prop :=
  forall fuel r,
    flatten_json fuel x sep = Ok r ->
    forall p s,
      p <> [] -> lookup_path (PDict x) p = Some s -> is_nested s = false ->
      smem (path_key sep p) r = true.

(** Inputs used as examples. *)
Definition nested_example : sdict :=
  [("a", PDict [("b", PInt 1); ("c", PList [PInt 2; PInt 3])]); ("d", PInt 4)].

Definition shadowed_example : sdict :=
  [("a", PDict [("b", PInt 1)]); ("a__b", PDict [("c", PInt 2)])].

(* ================================================================== *)
(** * Pure readings of the parser's loops *)
(* ================================================================== *)

(** [apply_callback] without the effect state, which it leaves alone. *)
Definition run_callback (self : FileStorageParser) (f : callback) (eid : Z) : outcome pyobj :=
  obind (kwargs_loop self (argnames f) eid []) (call f).

(** [dict_of_runs] for a body without effects. *)
Fixpoint odict_of_runs (body : Z -> outcome pyobj) (ids : list Z) (acc : dict Z pyobj)
  : outcome (dict Z pyobj) :=
  match ids with
  | [] => Ok acc
  | eid :: ids' =>
      obind (body eid) (fun v => odict_of_runs body ids' (dict_set Z.eq_dec eid v acc))
  end.

(* ================================================================== *)
(** * Well-formed parsers and the words of section 4.6 *)
(* ================================================================== *)

Fixpoint distinct {A : Type} (A_eq_dec : forall a b : A, {a = b} + {a <> b})
  (l : list A) : bool :=
  match l with
  | [] => true
  | a :: l' => (if in_dec A_eq_dec a l' then false else true) && distinct A_eq_dec l'
  end.

(** The frames the model covers: distinct labels on both axes, columns
    as long as the index. *)
Definition df_wf (df : DataFrame) : bool :=
  distinct string_dec (columns df)
  && distinct Z.eq_dec (df_index df)
  && forallb (fun c => Nat.eqb (List.length (snd c)) (List.length (df_index df)))
             (df_columns df).

(** What [__init__], [add_artifact] and [add_cfg_col] maintain: the
    frame is indexed by the run ids and every artifact has an entry for
    every run. *)
Definition parser_wf (self : FileStorageParser) : bool :=
  df_wf (cfg_df self)
  && (if list_eq_dec Z.eq_dec (df_index (cfg_df self)) (eids self) then true else false)
  && forallb (fun a => forallb (fun eid => dict_mem Z.eq_dec eid (snd a)) (eids self))
             (artifacts self).

(** The position of a label in an index. *)
Fixpoint index_pos (eid : Z) (index : list Z) : option nat :=
  match index with
  | [] => None
  | e :: index' =>
      if Z.eq_dec eid e then Some 0
      else option_map S (index_pos eid index')
  end.

(** "That run's value in that column": the cell of the column at the
    position the run id has in the index. *)
Definition cell (self : FileStorageParser) (column : string) (eid : Z) : option pyobj :=
  match dict_get string_dec column (df_columns (cfg_df self)),
        index_pos eid (df_index (cfg_df self)) with
  | Some col, Some i => nth_error col i
  | _, _ => None
  end.

(** "That run's artifact value". *)
Definition artifact_value (self : FileStorageParser) (name : string) (eid : Z)
  : option pyobj :=
  match dict_get string_dec name (artifacts self) with
  | Some per_run => dict_get Z.eq_dec eid per_run
  | None => None
  end.

(** The resolution precedence of section 4.6, in the specification's
    words: (1) the run id, (2) a config column, (3) an artifact,
    (4) omitted. *)
Definition resolve_spec (self : FileStorageParser) (arg : string) (eid : Z) : option pyobj :=
  if string_dec arg "eid" then Some (PInt eid)
  else if in_dec string_dec arg (columns (cfg_df self)) then cell self arg eid
  else if in_dec string_dec arg (keys (artifacts self)) then artifact_value self arg eid
  else None.

(** The namespace invariant of section 3. *)
Definition names_ok (self : FileStorageParser) : Prop :=
  (forall n, In n (columns (cfg_df self)) -> ~ In n (keys (artifacts self))) /\
  ~ In "eid" (columns (cfg_df self)) /\
  ~ In "eid" (keys (artifacts self)).

(** The collections the code builds: by the constructor, and from there
    by [add_artifact] and [add_cfg_col]. *)
Inductive built : FileStorageParser -> Prop :=
| built_init bd pd w0 self w :
    init bd pd w0 = (Ok self, w) -> built self
| built_add_artifact self name f w self' w' :
    built self -> add_artifact self name f w = (Ok self', w') -> built self'
| built_add_cfg_col self name f w self' w' :
    built self -> add_cfg_col self name f w = (Ok self', w') -> built self'.

(** Section 4.6 read for every collection the constructor returns: for
    a run of the collection [_kwargs] returns a mapping, the precedence
    restricted to the names asked for. *)
Definition resolves_every_name : Prop :=
  forall bd pd self w,
    init bd pd no_effects = (Ok self, w) ->
    forall names eid,
      In eid (eids self) ->
      exists kw,
        _kwargs self names eid w = (Ok kw, w) /\
        forall arg, sget arg kw
                    = if in_dec string_dec arg names
                      then resolve_spec self arg eid else None.

(** One run whose configuration has two keys that differ in case only,
    and two directories whose names are literals of the same integer. *)
Definition shared_label_basedir : direntries :=
  [("1", Directory [("config.json", RegFile (PDict [("A", PInt 1); ("a", PInt 2)]))])].

Definition shared_id_basedir : direntries :=
  [("1", Directory [("config.json", RegFile (PDict [("lr", PInt 1)]))]);
   ("01", Directory [("config.json", RegFile (PDict [("lr", PInt 2)]))])].

(** A parser with two runs, two columns and one artifact, and a user
    function of the run id and the column [lr]. *)
Definition example_parser : FileStorageParser :=
  {| basedir := [];
     processed_dirname := None;
     eids := [1%Z; 2%Z];
     cfg_df := {| df_index := [1%Z; 2%Z];
                  df_columns := [("lr", [PInt 1; PInt 3]); ("seed", [PInt 7; PInt 7])] |};
     artifacts := [("hist", [(1%Z, PList [PInt 5]); (2%Z, PNone)])] |}.

Definition example_callback : callback :=
  {| argnames := ["eid"; "lr"; "unknown"];
     call := fun kw => match sget "lr" kw with
                       | Some v => Ok (PList [v])
                       | None => Raise (CallbackError "lr")
                       end |}.

(* ================================================================== *)
(** * Statements about loading and discovery *)
(* ================================================================== *)

(** A path whose last component is not one of the reserved file names:
    the path of an artifact file. *)
Definition is_artifact_path (path : list string) : bool :=
  negb (existsb (String.eqb (last path EmptyString)) reserved_filenames).

(** Section 5, "lazily on first access": constructing a collection
    opens no artifact file. *)
Definition loads_lazily : Prop :=
  forall bd pd self w,
    init bd pd no_effects = (Ok self, w) ->
    forallb (fun path => negb (is_artifact_path path)) (opened w) = true.

(** What the file named [f] of the run holds, [None] when the run has no
    such file. *)
Definition load_value (bd : direntries) (pd : option string) (eid : Z) (f : string) : pyobj :=
  match fs_walk bd (_eid_dir pd eid ++ [f]) with
  | Some (RegFile content) => content
  | _ => PNone
  end.

(** One run with a configuration and one artifact file. *)
Definition one_run_basedir : direntries :=
  [("1", Directory [("config.json", RegFile (PDict [("lr", PInt 1)]));
                    ("hist.json", RegFile (PList [PInt 5; PInt 6]))])].

(** A base directory in which a run has files whose stems are the name
    of a config column and the reserved name. *)
Definition colliding_basedir : direntries :=
  [("1", Directory [("config.json", RegFile (PDict [("lr", PInt 1)]));
                    ("lr.json", RegFile (PList [PInt 5]));
                    ("eid.json", RegFile (PList [PInt 6]))])].

(** A base directory in which a run's configuration has the key "EID",
    which the assertion on "eid" lets through. *)
Definition uppercase_basedir : direntries :=
  [("1", Directory [("config.json", RegFile (PDict [("EID", PInt 5)]))])].

(** A base directory with a subdirectory whose name contains a digit
    and is not an integer literal. *)
Definition misnamed_basedir : direntries :=
  [("1", Directory [("config.json", RegFile (PDict [("lr", PInt 1)]))]);
   ("run2", Directory [("config.json", RegFile (PDict [("lr", PInt 2)]))])].

(** The row at position [i] of the frame meets every criterion. *)
Definition row_meets (cell_eq : pyobj -> pyobj -> bool) (df : DataFrame)
  (criteria : sdict) (i : nat) : bool :=
  forallb (fun kv => match dict_get string_dec (fst kv) (df_columns df) with
                     | Some col => match nth_error col i with
                                   | Some c => cell_eq c (snd kv)
                                   | None => false
                                   end
                     | None => false
                     end) criteria.

(** The base directory of two runs and a directory without digits. *)
Definition two_runs_basedir : direntries :=
  [("2", Directory [("config.json",
                     RegFile (PDict [("lr", PInt 3);
                                     ("Net-Depth", PFloat 4602678819172646912)]));
                    ("hist.json", RegFile (PList [PInt 7]))]);
   ("_sources", Directory []);
   ("1", Directory [("config.json", RegFile (PDict [("lr", PInt 1)]));
                    ("hist.json", RegFile (PList [PInt 5]));
                    ("model.pkl", RegFile (PObject 0))])].

(** The collection [__init__] returns for [two_runs_basedir], and the
    effects of constructing it. *)
Definition two_runs_parser : FileStorageParser :=
  Eval vm_compute in
    match init two_runs_basedir None no_effects with
    | (Ok self, _) => self
    | _ => example_parser
    end.

Definition two_runs_effects : effects :=
  Eval vm_compute in snd (init two_runs_basedir None no_effects).

(* ================================================================== *)
(** * Further inputs used as examples *)
(* ================================================================== *)

(** A mapping whose values hold no leaf at all. *)
Definition hollow_example : sdict :=
  [("a", PDict []); ("b", PList [PList []; PDict []])].

(** The integer a string of decimal digits denotes after the digits
    already read denote [acc]. *)
Fixpoint uint_value (acc : Z) (d : Decimal.uint) : Z :=
  match d with
  | Decimal.Nil => acc
  | Decimal.D0 d => uint_value (10 * acc + 0) d
  | Decimal.D1 d => uint_value (10 * acc + 1) d
  | Decimal.D2 d => uint_value (10 * acc + 2) d
  | Decimal.D3 d => uint_value (10 * acc + 3) d
  | Decimal.D4 d => uint_value (10 * acc + 4) d
  | Decimal.D5 d => uint_value (10 * acc + 5) d
  | Decimal.D6 d => uint_value (10 * acc + 6) d
  | Decimal.D7 d => uint_value (10 * acc + 7) d
  | Decimal.D8 d => uint_value (10 * acc + 8) d
  | Decimal.D9 d => uint_value (10 * acc + 9) d
  end.

(* ================================================================== *)
(** * parser.py: do_for_eid and do_along_eids *)
(* ================================================================== *)

(** A call of [f] with two groups of keyword arguments; a name in both
    groups is Python's [TypeError]. *)
Definition call_with (f : callback) (kw extra : sdict) : outcome pyobj :=
  if existsb (fun k => smem k kw) (keys extra)
  then Raise (TypeError "got multiple values for keyword argument")
  else call f (kw ++ extra).

(** [[arg for arg in inspect.getfullargspec(f)[0] if arg not in kwargs]] *)
Definition free_argnames (f : callback) (extra : sdict) : list string :=
  filter (fun arg => negb (smem arg extra)) (argnames f).

(** The keyword arguments [extra] bind one of the method's own
    parameters again, which is Python's [TypeError] at the call. *)
Definition rebinds (params : list string) (extra : sdict) : bool :=
  existsb (fun k => smem k extra) params.

(** [do_for_eid(eid, f, kwargs)], called with the further keyword
    arguments [extra]. *)
Definition do_for_eid (self : FileStorageParser) (eid : Z) (f : callback) (extra : sdict)
  : M pyobj :=
  if rebinds ["self"; "eid"; "f"] extra
  then raise (TypeError "do_for_eid() got multiple values for argument")
  else kw <- _kwargs self (free_argnames f extra) eid ;; lift (call_with f kw extra).

(** [do_along_eids(f, kwargs)], called with the further keyword
    arguments [extra]; a keyword "eid" is not a parameter of this method
    and goes to [f]. *)
Definition do_along_eids (self : FileStorageParser) (f : callback) (extra : sdict)
  : M (list pyobj) :=
  if rebinds ["self"; "f"] extra
  then raise (TypeError "do_along_eids() got multiple values for argument")
  else
    let names := free_argnames f extra in
    mapM (fun eid => kw <- _kwargs self names eid ;; lift (call_with f kw extra))
         (eids self).

(* ================================================================== *)
(** * Predicates of the further statements *)
(* ================================================================== *)

(** A character of [[a-z0-9_]]. *)
Definition is_name_char (c : ascii) : bool :=
  is_lower c || is_digit c || Ascii.eqb c "_"%char.

(** The extensions [_load_file] has a loader for. *)
Definition supported_extensions : list string := [".feather"; ".json"; ".pickle"; ".pkl"].

(** A user function of the run id and the learning rate that takes a
    further argument [scale]. *)
Definition scaled_callback : callback :=
  {| argnames := ["eid"; "lr"; "scale"];
     call := fun kw => match sget "lr" kw, sget "scale" kw with
                       | Some v, Some s => Ok (PList [v; s])
                       | _, _ => Raise (CallbackError "missing argument")
                       end |}.



(* ================================================================== *)
(** * Facts about dictionaries *)
(* ================================================================== *)

Section PyDictFacts.
Context {K V : Type} (K_eq_dec : forall a b : K, {a = b} + {a <> b}).

Local Notation get := (dict_get (V:=V) K_eq_dec).
Local Notation mem := (dict_mem (V:=V) K_eq_dec).
Local Notation set := (dict_set (V:=V) K_eq_dec).
Local Notation del := (dict_del (V:=V) K_eq_dec).

Lemma dict_get_In k v (d : dict K V) : get k d = Some v -> In (k, v) d.
Proof.
  induction d as [|[k' v'] d IH]; simpl; [discriminate|].
  destruct (K_eq_dec k k') as [->|Hne]; intros H.
  - injection H as ->. now left.
  - right. now apply IH.
Qed.

Lemma dict_get_None k (d : dict K V) : get k d = None <-> ~ In k (keys d).
Proof.
  induction d as [|[k' v'] d IH]; simpl.
  - tauto.
  - destruct (K_eq_dec k k') as [->|Hne].
    + split; [discriminate|]. intros H. exfalso. apply H. now left.
    + rewrite IH. split; intros H; [intros [E|E]; [congruence|tauto]|tauto].
Qed.

Lemma In_dict_get k v (d : dict K V) :
  NoDup (keys d) -> In (k, v) d -> get k d = Some v.
Proof.
  induction d as [|[k' v'] d IH]; simpl; [tauto|].
  intros Hnd [E|Hin].
  - injection E as -> ->. now destruct (K_eq_dec k k).
  - inversion Hnd as [|? ? Hnotin Hnd']; subst.
    destruct (K_eq_dec k k') as [->|Hne].
    + exfalso. apply Hnotin. now apply (in_map fst) in Hin.
    + now apply IH.
Qed.

Lemma dict_mem_keys k (d : dict K V) : mem k d = true <-> In k (keys d).
Proof.
  unfold dict_mem. destruct (get k d) eqn:E.
  - split; [intros _|reflexivity].
    apply dict_get_In in E. now apply (in_map fst) in E.
  - split; [discriminate|]. intros H. now apply dict_get_None in E.
Qed.

Lemma dict_set_In e k v (d : dict K V) : In e (set k v d) -> e = (k, v) \/ In e d.
Proof.
  induction d as [|[k' v'] d IH]; simpl.
  - intros [E|[]]. now left.
  - destruct (K_eq_dec k k') as [->|Hne]; simpl; intros [E|Hin]; auto.
    destruct (IH Hin); auto.
Qed.

Lemma dict_set_In_new k v (d : dict K V) : In (k, v) (set k v d).
Proof.
  induction d as [|[k' v'] d IH]; simpl; [now left|].
  destruct (K_eq_dec k k'); simpl; auto.
Qed.

Lemma dict_set_In_other e k v (d : dict K V) :
  In e d -> fst e <> k -> In e (set k v d).
Proof.
  induction d as [|[k' v'] d IH]; simpl; [tauto|].
  intros [E|Hin] Hne.
  - subst e. simpl in Hne. destruct (K_eq_dec k k'); [congruence|now left].
  - destruct (K_eq_dec k k'); simpl; auto.
Qed.

Lemma keys_dict_set k' k v (d : dict K V) :
  In k' (keys (set k v d)) <-> k' = k \/ In k' (keys d).
Proof.
  induction d as [|[k0 v0] d IH]; simpl.
  - intuition.
  - destruct (K_eq_dec k k0) as [->|Hne]; simpl; [intuition|].
    rewrite IH. intuition.
Qed.

Lemma NoDup_dict_set k v (d : dict K V) : NoDup (keys d) -> NoDup (keys (set k v d)).
Proof.
  induction d as [|[k0 v0] d IH]; simpl; intros Hnd.
  - constructor; [tauto|constructor].
  - inversion Hnd as [|? ? Hnotin Hnd']; subst.
    destruct (K_eq_dec k k0) as [->|Hne]; simpl.
    + now constructor.
    + constructor; [|now apply IH].
      intros Hin. apply keys_dict_set in Hin. destruct Hin; [congruence|tauto].
Qed.

Lemma dict_del_Some k (d : dict K V) : In k (keys d) -> exists r, del k d = Some r.
Proof.
  induction d as [|[k0 v0] d IH]; simpl; [tauto|].
  intros H. destruct (K_eq_dec k k0) as [->|Hne]; [eauto|].
  destruct H as [E|H]; [congruence|].
  destruct (IH H) as [r ->]. eauto.
Qed.

Lemma dict_del_In e k (d r : dict K V) : del k d = Some r -> In e r -> In e d.
Proof.
  revert r. induction d as [|[k0 v0] d IH]; simpl; [discriminate|].
  intros r. destruct (K_eq_dec k k0) as [->|Hne].
  - intros H. injection H as ->. now right.
  - destruct (del k d) as [r'|]; [|discriminate].
    intros H. injection H as <-. simpl. intros [E|Hin]; [now left|].
    right. now apply (IH r').
Qed.

Lemma dict_del_In_other e k (d r : dict K V) :
  del k d = Some r -> In e d -> fst e <> k -> In e r.
Proof.
  revert r. induction d as [|[k0 v0] d IH]; simpl; [discriminate|].
  intros r. destruct (K_eq_dec k k0) as [->|Hne].
  - intros H. injection H as ->. intros [E|Hin] Hk; [|assumption].
    subst e. now simpl in Hk.
  - destruct (del k d) as [r'|]; [|discriminate].
    intros H. injection H as <-. simpl. intros [E|Hin] Hk; [now left|].
    right. now apply IH.
Qed.

Lemma dict_del_fresh e k (d r : dict K V) :
  NoDup (keys d) -> del k d = Some r -> In e r -> fst e <> k.
Proof.
  revert r. induction d as [|[k0 v0] d IH]; simpl; [discriminate|].
  intros r Hnd. inversion Hnd as [|? ? Hnotin Hnd']; subst.
  destruct (K_eq_dec k k0) as [->|Hne].
  - intros H. injection H as ->. intros Hin E. apply Hnotin.
    rewrite <- E. now apply (in_map fst) in Hin.
  - destruct (del k d) as [r'|]; [|discriminate].
    intros H. injection H as <-. simpl. intros [E|Hin].
    + subst e. simpl. congruence.
    + now apply (IH r').
Qed.

Lemma NoDup_dict_del k (d r : dict K V) :
  NoDup (keys d) -> del k d = Some r -> NoDup (keys r).
Proof.
  revert r. induction d as [|[k0 v0] d IH]; simpl; [discriminate|].
  intros r Hnd. inversion Hnd as [|? ? Hnotin Hnd']; subst.
  destruct (K_eq_dec k k0) as [->|Hne].
  - intros H. now injection H as ->.
  - destruct (del k d) as [r'|] eqn:E; [|discriminate].
    intros H. injection H as <-. simpl. constructor; [|now apply IH].
    intros Hin. apply Hnotin.
    apply in_map_iff in Hin. destruct Hin as [e [E1 E2]].
    apply (dict_del_In _ _ _ _ E) in E2. subst k0. now apply in_map.
Qed.

Lemma dict_get_mem k v (d : dict K V) : get k d = Some v -> mem k d = true.
Proof. unfold dict_mem. now intros ->. Qed.
End PyDictFacts.

Section FlattenPass.
Variable sep : string.

Lemma expand_list_children k l acc :
  expand_list sep k l acc = expand_dict sep k (children (PList l)) acc.
Proof.
  unfold expand_list, expand_dict, children, enumerate.
  generalize 0. revert acc.
  induction l as [|c l IH]; intros acc i; simpl; [reflexivity|].
  apply IH.
Qed.

Lemma pass_items_cons k v rest done x_out :
  pass_items sep ((k, v) :: rest) done x_out =
  match step sep (k, v) x_out with
  | Ok x1 => pass_items sep rest (done && negb (is_nested v)) x1
  | Raise e => Raise e
  | OutOfFuel => OutOfFuel
  end.
Proof.
  unfold step.
  destruct v; simpl; rewrite ?andb_true_r, ?andb_false_r; try reflexivity.
  - destruct (sdel k x_out); [|reflexivity]. now rewrite expand_list_children.
  - now destruct (sdel k x_out).
Qed.

(** A pass over items none of which is nested changes nothing. *)
Lemma pass_items_flat items done x_out :
  is_flat items = true -> pass_items sep items done x_out = Ok (done, x_out).
Proof.
  revert done x_out.
  induction items as [|[k v] rest IH]; intros done x_out Hf; [reflexivity|].
  simpl in Hf. apply andb_true_iff in Hf. destruct Hf as [Hv Hrest].
  rewrite pass_items_cons. unfold step. simpl.
  apply negb_true_iff in Hv. rewrite Hv. simpl.
  rewrite andb_true_r. now apply IH.
Qed.

(** The flag a pass returns says whether an item was nested. *)
Lemma pass_items_done items done x_out d' x' :
  pass_items sep items done x_out = Ok (d', x') -> d' = done && is_flat items.
Proof.
  revert done x_out.
  induction items as [|[k v] rest IH]; intros done x_out.
  - simpl. intros H. injection H as <- <-. now rewrite andb_true_r.
  - rewrite pass_items_cons.
    destruct (step sep (k, v) x_out) as [x1| |]; try discriminate.
    intros H. apply IH in H. simpl. now rewrite andb_assoc.
Qed.

(** Rule for an invariant [I rest x_out] of the [for] loop. *)
Lemma pass_items_rule (I : sdict -> sdict -> Prop) :
  (forall k v rest x_out,
      I ((k, v) :: rest) x_out -> is_nested v = false -> I rest x_out) ->
  (forall k v rest x_out x1,
      I ((k, v) :: rest) x_out -> is_nested v = true ->
      sdel k x_out = Some x1 ->
      I rest (expand_dict sep k (children v) x1)) ->
  forall items done x_out d' x',
    I items x_out ->
    pass_items sep items done x_out = Ok (d', x') -> I [] x'.
Proof.
  intros Hflat Hnest.
  induction items as [|[k v] rest IH]; intros done x_out d' x' HI.
  - simpl. intros H. now injection H as <- <-.
  - rewrite pass_items_cons. unfold step. simpl.
    destruct (is_nested v) eqn:Ev.
    + destruct (sdel k x_out) as [x1|] eqn:Ed; [|discriminate].
      apply IH. eapply Hnest; eauto.
    + apply IH. eapply Hflat; eauto.
Qed.

(** The same rule when the invariant also keeps [del] from failing:
    the pass then returns. *)
Lemma pass_items_total (I : sdict -> sdict -> Prop) :
  (forall k v rest x_out,
      I ((k, v) :: rest) x_out -> is_nested v = false -> I rest x_out) ->
  (forall k v rest x_out,
      I ((k, v) :: rest) x_out -> is_nested v = true ->
      exists x1, sdel k x_out = Some x1 /\
                 I rest (expand_dict sep k (children v) x1)) ->
  forall items done x_out,
    I items x_out ->
    exists d' x', pass_items sep items done x_out = Ok (d', x') /\ I [] x'.
Proof.
  intros Hflat Hnest.
  induction items as [|[k v] rest IH]; intros done x_out HI.
  - simpl. eauto.
  - rewrite pass_items_cons. unfold step. simpl.
    destruct (is_nested v) eqn:Ev.
    + destruct (Hnest _ _ _ _ HI Ev) as [x1 [-> HI1]]. now apply IH.
    + apply IH. eapply Hflat; eauto.
Qed.

Lemma expand_dict_In k cs acc e :
  In e (expand_dict sep k cs acc) ->
  In e acc \/ exists kc c, In (kc, c) cs /\ e = (fmt k sep kc, c).
Proof.
  unfold expand_dict. revert acc.
  induction cs as [|[kc c] cs IH]; intros acc; simpl; [tauto|].
  intros H. apply IH in H. destruct H as [H|[kc' [c' [H1 H2]]]].
  - apply dict_set_In in H. destruct H as [->|H]; [|tauto].
    right. exists kc, c. auto.
  - right. exists kc', c'. auto.
Qed.

Lemma expand_dict_keys k cs acc k' :
  In k' (keys acc) -> In k' (keys (expand_dict sep k cs acc)).
Proof.
  unfold expand_dict. revert acc.
  induction cs as [|[kc c] cs IH]; intros acc; simpl; [tauto|].
  intros H. apply IH. apply keys_dict_set. now right.
Qed.

Lemma NoDup_expand_dict k cs acc :
  NoDup (keys acc) -> NoDup (keys (expand_dict sep k cs acc)).
Proof.
  unfold expand_dict. revert acc.
  induction cs as [|[kc c] cs IH]; intros acc; simpl; [tauto|].
  intros H. apply IH. now apply NoDup_dict_set.
Qed.
End FlattenPass.

(* ================================================================== *)
(** * flatten_json: nesting depth and termination *)
(* ================================================================== *)

Lemma depth_not_nested v : is_nested v = false -> depth v = 0.
Proof. destruct v; simpl; congruence. Qed.

Lemma depth_nested v : is_nested v = true -> 1 <= depth v.
Proof. destruct v; simpl; try discriminate; lia. Qed.

Lemma list_max_In n l : In n l -> n <= list_max l.
Proof.
  intros H. assert (Hle : list_max l <= list_max l) by lia.
  apply list_max_le in Hle. rewrite Forall_forall in Hle. now apply Hle.
Qed.

Lemma enumerate_from_In {A : Type} i (l : list A) j a :
  In (j, a) (enumerate_from i l) -> In a l.
Proof.
  revert i. induction l as [|b l IH]; intros i; simpl; [tauto|].
  intros [E|H]; [injection E as _ ->; now left|right; eauto].
Qed.

(** A child is strictly less deep than its parent. *)
Lemma children_depth v kc c : In (kc, c) (children v) -> depth c < depth v.
Proof.
  destruct v; simpl; try tauto; intros H.
  - apply in_map_iff in H. destruct H as [[i a] [E H]].
    simpl in E. injection E as _ ->. apply enumerate_from_In in H.
    apply Nat.lt_succ_r. apply list_max_In. now apply in_map.
  - apply Nat.lt_succ_r. apply list_max_In.
    apply in_map_iff. exists (kc, c). auto.
Qed.

Lemma dict_depth_In (x : sdict) e : In e x -> depth (snd e) <= dict_depth x.
Proof.
  intros H. apply list_max_In. apply in_map_iff. exists e. auto.
Qed.

Lemma dict_depth_le (x : sdict) n :
  (forall e, In e x -> depth (snd e) <= n) -> dict_depth x <= n.
Proof.
  intros H. apply list_max_le. apply Forall_forall.
  intros m Hm. apply in_map_iff in Hm. destruct Hm as [e [<- He]]. auto.
Qed.

Lemma is_flat_false_depth (x : sdict) : is_flat x = false -> 1 <= dict_depth x.
Proof.
  intros H. destruct (forallb_forall (fun kv => negb (is_nested (snd kv))) x) as [_ Hall].
  destruct (Nat.le_gt_cases 1 (dict_depth x)) as [Hle|Hlt]; [assumption|].
  exfalso. unfold is_flat in H. rewrite Hall in H; [discriminate|].
  intros e He. apply dict_depth_In in He.
  destruct (is_nested (snd e)) eqn:En; [|reflexivity].
  apply depth_nested in En. lia.
Qed.

Lemma is_flat_In (x : sdict) e : is_flat x = true -> In e x -> is_nested (snd e) = false.
Proof.
  intros H He. unfold is_flat in H. rewrite forallb_forall in H.
  apply H in He. now apply negb_true_iff in He.
Qed.

Section FlattenTermination.
Variable sep : string.


Lemma pass_inv_flat D k v rest x_out :
  pass_inv D ((k, v) :: rest) x_out -> is_nested v = false -> pass_inv D rest x_out.
Proof.
  intros (Hnd & Hndo & Hincl & HD & Hout) Hv.
  simpl in Hnd. inversion Hnd as [|? ? Hnotin Hnd']; subst.
  split; [assumption|]. split; [assumption|].
  split; [|split].
  - intros k' Hk'. apply Hincl. now right.
  - intros e He. apply HD. now right.
  - intros e He. destruct (Hout e He) as [H|[<-|H]]; auto.
    left. simpl. rewrite (depth_not_nested _ Hv). lia.
Qed.

Lemma pass_inv_nested D k v rest x_out :
  pass_inv D ((k, v) :: rest) x_out -> is_nested v = true ->
  exists x1, sdel k x_out = Some x1 /\
             pass_inv D rest (expand_dict sep k (children v) x1).
Proof.
  intros (Hnd & Hndo & Hincl & HD & Hout) Hv.
  simpl in Hnd. inversion Hnd as [|? ? Hnotin Hnd']; subst.
  destruct (dict_del_Some string_dec k x_out) as [x1 Hdel].
  { apply Hincl. now left. }
  exists x1. split; [assumption|].
  split; [assumption|]. split; [|split; [|split]].
  - apply NoDup_expand_dict. exact (NoDup_dict_del string_dec k x_out x1 Hndo Hdel).
  - intros k' Hk'. apply expand_dict_keys.
    assert (Hin : In k' (keys x_out)) by (apply Hincl; now right).
    apply in_map_iff in Hin. destruct Hin as [e [<- He]].
    apply in_map. apply (dict_del_In_other string_dec e k x_out x1 Hdel He).
    intros E. apply Hnotin. now rewrite <- E.
  - intros e He. apply HD. now right.
  - intros e He. apply expand_dict_In in He.
    destruct He as [He|[kc [c [Hc ->]]]].
    + pose proof (dict_del_fresh string_dec e k x_out x1 Hndo Hdel He) as Hfresh.
      apply (dict_del_In string_dec e k x_out x1 Hdel) in He.
      destruct (Hout e He) as [H|[<-|H]]; auto.
      now simpl in Hfresh.
    + left. simpl. apply children_depth in Hc.
      specialize (HD (k, v) (or_introl eq_refl)). simpl in HD. lia.
Qed.

(** One pass over a dict returns, keeps the keys distinct, and, when it
    expanded something, leaves a dict of strictly smaller depth. *)
Lemma pass_items_decreases (x : sdict) :
  NoDup (keys x) ->
  exists d' x',
    pass_items sep x true x = Ok (d', x') /\ NoDup (keys x') /\
    d' = is_flat x /\
    (d' = false -> dict_depth x' < dict_depth x).
Proof.
  intros Hnd.
  destruct (pass_items_total sep (pass_inv (dict_depth x))
              (pass_inv_flat (dict_depth x)) (pass_inv_nested (dict_depth x))
              x true x)
    as (d' & x' & Hpass & Hinv).
  { repeat split; auto using incl_refl, dict_depth_In. }
  exists d', x'. destruct Hinv as (_ & Hndo & _ & _ & Hout).
  pose proof (pass_items_done sep _ _ _ _ _ Hpass) as Hd. simpl in Hd.
  repeat split; auto.
  intros ->. symmetry in Hd. apply is_flat_false_depth in Hd.
  assert (dict_depth x' <= dict_depth x - 1); [|lia].
  apply dict_depth_le. intros e He. destruct (Hout e He) as [H|[]]. exact H.
Qed.

Lemma flatten_loop_terminates fuel (x : sdict) :
  NoDup (keys x) -> dict_depth x < fuel ->
  exists r, flatten_loop fuel sep x x = Ok r.
Proof.
  revert x. induction fuel as [|fuel IH]; intros x Hnd Hfuel; [lia|].
  destruct (pass_items_decreases x Hnd) as (d' & x' & Hpass & Hnd' & _ & Hdec).
  simpl. rewrite Hpass. destruct d'; [eauto|].
  apply IH; [assumption|]. specialize (Hdec eq_refl). lia.
Qed.

(** More fuel does not change a result. *)
Lemma flatten_loop_fuel_mono fuel fuel' (x r : sdict) :
  flatten_loop fuel sep x x = Ok r -> fuel <= fuel' ->
  flatten_loop fuel' sep x x = Ok r.
Proof.
  revert fuel' x. induction fuel as [|fuel IH]; intros fuel' x; [discriminate|].
  intros H Hle. destruct fuel' as [|fuel']; [lia|].
  simpl in *. destruct (pass_items sep x true x) as [[[|] x']| |]; auto.
  apply IH; [assumption|lia].
Qed.

(** The result of the loop is flat, and flattening it again is one
    pass that changes nothing. *)
Lemma flatten_loop_flat fuel (x r : sdict) :
  flatten_loop fuel sep x x = Ok r -> is_flat r = true.
Proof.
  revert x. induction fuel as [|fuel IH]; intros x; [discriminate|].
  simpl. destruct (pass_items sep x true x) as [[[|] x']| |] eqn:Hpass;
    try discriminate; [|apply IH].
  intros H. injection H as <-.
  pose proof (pass_items_done sep _ _ _ _ _ Hpass) as Hd. simpl in Hd.
  symmetry in Hd. rewrite (pass_items_flat sep _ true x Hd) in Hpass.
  now injection Hpass as <-.
Qed.

Lemma flatten_loop_of_flat fuel (r : sdict) :
  is_flat r = true -> flatten_loop (S fuel) sep r r = Ok r.
Proof. intros H. simpl. now rewrite (pass_items_flat sep r true r H). Qed.
End FlattenTermination.

Lemma append_assoc (a b c : string) : ((a ++ b) ++ c = a ++ (b ++ c))%string.
Proof. induction a as [|ch a IH]; simpl; [reflexivity|now rewrite IH]. Qed.

Section Paths.
Variable sep : string.

Lemma children_not_nested v : is_nested v = false -> children v = [].
Proof. destruct v; simpl; congruence. Qed.

Lemma nodes_from_unfold k v :
  nodes_from sep k v =
  (k, v) :: flat_map (fun kc => nodes_from sep (fmt k sep (fst kc)) (snd kc))
                     (children v).
Proof.
  destruct v; try reflexivity; simpl; f_equal.
  - unfold enumerate. generalize 0.
    induction items as [|c l IH]; intros i; simpl; [reflexivity|].
    now rewrite IH.
  - induction items as [|[kc c] d IH]; simpl; [reflexivity|].
    now rewrite IH.
Qed.

Lemma path_key_cons k c p :
  path_key sep (k :: c :: p) = (k ++ sep ++ path_key sep (c :: p))%string.
Proof. reflexivity. Qed.

Lemma path_key_fmt k c p :
  path_key sep (fmt k sep c :: p) = path_key sep (k :: c :: p).
Proof.
  rewrite path_key_cons. destruct p as [|c' p].
  - reflexivity.
  - rewrite !path_key_cons. unfold fmt. now rewrite !append_assoc.
Qed.

(** A path that ends at a leaf puts its composite key below its root. *)
Lemma lookup_path_below p : forall k v s,
  lookup_path v p = Some s -> is_nested s = false ->
  below sep k v (path_key sep (k :: p)).
Proof.
  induction p as [|c p IH]; intros k v s H Hs; simpl in H.
  - injection H as ->. now apply below_here.
  - destruct (sget c (children v)) as [w|] eqn:Ew; [|discriminate].
    apply dict_get_In in Ew.
    apply (below_child sep k v c w _ Ew).
    rewrite <- path_key_fmt. eapply IH; eauto.
Qed.

Lemma lookup_path_leaf_key (x : sdict) p s :
  p <> [] -> lookup_path (PDict x) p = Some s -> is_nested s = false ->
  leaf_key sep x (path_key sep p).
Proof.
  destruct p as [|k p]; [congruence|]. intros _ H Hs. simpl in H.
  destruct (sget k x) as [v|] eqn:Ev; [|discriminate].
  exists k, v. split; [now apply dict_get_In in Ev|].
  eapply lookup_path_below; eauto.
Qed.

(** The nodes of the computed list are closed under taking a child. *)
Lemma nodes_from_child n : forall k v k' v' kc c,
  depth v < n ->
  In (k', v') (nodes_from sep k v) -> In (kc, c) (children v') ->
  In (fmt k' sep kc, c) (nodes_from sep k v).
Proof.
  induction n as [|n IH]; intros k v k' v' kc c Hd; [lia|].
  rewrite nodes_from_unfold. simpl. intros [E|Hin] Hc.
  - injection E as <- <-. right. apply in_flat_map.
    exists (kc, c). split; [assumption|]. simpl.
    rewrite nodes_from_unfold. now left.
  - right. apply in_flat_map in Hin. destruct Hin as [[kc0 c0] [Hc0 Hin]].
    apply in_flat_map. exists (kc0, c0). split; [assumption|].
    simpl in *. apply (IH _ _ k' v'); auto.
    apply children_depth in Hc0. lia.
Qed.

Lemma node_all_nodes (x : sdict) K v : node sep x K v -> In (K, v) (all_nodes sep x).
Proof.
  induction 1 as [k v Hin|k v kc c Hn IH Hc].
  - apply in_flat_map. exists (k, v). split; [assumption|].
    simpl. rewrite nodes_from_unfold. now left.
  - apply in_flat_map in IH. destruct IH as [[k0 v0] [Hin0 Hin]].
    apply in_flat_map. exists (k0, v0). split; [assumption|].
    simpl in *. apply (nodes_from_child (S (depth v0)) _ _ k v); auto.
Qed.

Lemma count_occ_one_eq (l : list (string * pyobj)) K v v' :
  count_occ string_dec (map fst l) K = 1 ->
  In (K, v) l -> In (K, v') l -> v = v'.
Proof.
  induction l as [|[k0 v0] l IH]; simpl; [tauto|].
  destruct (string_dec k0 K) as [->|Hne].
  - intros Hc. injection Hc as Hc. apply count_occ_not_In in Hc.
    intros [E|Hin]; [|exfalso; apply Hc; now apply (in_map fst) in Hin].
    intros [E'|Hin']; [congruence|].
    exfalso; apply Hc; now apply (in_map fst) in Hin'.
  - intros Hc [E|Hin]; [congruence|]. intros [E'|Hin']; [congruence|]. auto.
Qed.

Lemma collision_free_no_nested_collision (x : sdict) :
  collision_free sep x = true -> no_nested_collision sep x.
Proof.
  unfold collision_free. intros H K v v' Hv Hv' Hn.
  rewrite forallb_forall in H.
  apply node_all_nodes in Hv, Hv'.
  specialize (H _ Hv). simpl in H. rewrite Hn in H. simpl in H.
  apply Nat.eqb_eq in H. symmetry. eapply count_occ_one_eq; eauto.
Qed.
End Paths.

(* ================================================================== *)
(** * flatten_json: every leaf path keeps its composite key *)
(* ================================================================== *)

Section FlattenPaths.
Variable sep : string.


Lemma below_not_nested k v K : is_nested v = false -> below sep k v K -> K = k.
Proof.
  intros Hv H. inversion H as [|? ? kc c ? Hc _]; subst; [reflexivity|].
  rewrite (children_not_nested v Hv) in Hc. destruct Hc.
Qed.

Lemma below_nested k v K :
  is_nested v = true -> below sep k v K ->
  exists kc c, In (kc, c) (children v) /\ below sep (fmt k sep kc) c K.
Proof.
  intros Hv H. inversion H as [? ? Hv'|? ? kc c ? Hc Hb]; subst; [congruence|].
  eauto.
Qed.

Lemma cover_set x acc K k' v' :
  no_nested_collision sep x -> node sep x k' v' ->
  cover sep x acc K -> cover sep x (sset k' v' acc) K.
Proof.
  intros NC Hn' (k0 & v0 & Hin & Hn & Hb).
  destruct (string_dec k0 k') as [->|Hne].
  - exists k', v'. split; [apply dict_set_In_new|]. split; [assumption|].
    destruct (is_nested v0) eqn:E0.
    + now rewrite (NC _ _ _ Hn Hn' E0).
    + apply (below_not_nested _ _ _ E0) in Hb. subst K.
      destruct (is_nested v') eqn:E'; [|now apply below_here].
      rewrite (NC _ _ _ Hn' Hn E') in E0. congruence.
  - exists k0, v0. split; [|auto].
    now apply (dict_set_In_other string_dec (k0, v0)).
Qed.

Lemma cover_expand x K k cs : forall acc,
  no_nested_collision sep x ->
  (forall kc c, In (kc, c) cs -> node sep x (fmt k sep kc) c) ->
  cover sep x acc K \/ (exists kc c, In (kc, c) cs /\ below sep (fmt k sep kc) c K) ->
  cover sep x (expand_dict sep k cs acc) K.
Proof.
  unfold expand_dict.
  induction cs as [|[kc c] cs IH]; intros acc NC Hcs H; simpl.
  - destruct H as [H|(? & ? & [] & _)]. exact H.
  - apply IH; [assumption|intros; apply Hcs; now right|].
    destruct H as [H|(kc' & c' & [E|Hin] & Hb)].
    + left. apply cover_set; auto. apply Hcs. now left.
    + injection E as <- <-. left. exists (fmt k sep kc), c.
      split; [apply dict_set_In_new|]. split; [|assumption].
      apply Hcs. now left.
    + right. eauto.
Qed.


Lemma path_inv_flat x k v rest x_out :
  path_inv sep x ((k, v) :: rest) x_out -> is_nested v = false -> path_inv sep x rest x_out.
Proof.
  intros (Hincl & Hnodes & Hcov) _. repeat split; auto.
  intros e He. apply Hincl. now right.
Qed.

Lemma path_inv_nested x k v rest x_out x1 :
  no_nested_collision sep x ->
  path_inv sep x ((k, v) :: rest) x_out -> is_nested v = true ->
  sdel k x_out = Some x1 ->
  path_inv sep x rest (expand_dict sep k (children v) x1).
Proof.
  intros NC (Hincl & Hnodes & Hcov) Hv Hdel.
  assert (Hkv : node sep x k v) by (apply node_top, Hincl; now left).
  assert (Hch : forall kc c, In (kc, c) (children v) -> node sep x (fmt k sep kc) c)
    by (intros kc c Hc; now apply (node_child sep x k v kc c)).
  split; [|split].
  - intros e He. apply Hincl. now right.
  - intros e He. apply expand_dict_In in He.
    destruct He as [He|(kc & c & Hc & ->)]; [|now apply Hch].
    apply Hnodes. exact (dict_del_In string_dec e k x_out x1 Hdel He).
  - intros K HK. apply cover_expand; auto.
    destruct (Hcov K HK) as (k0 & v0 & Hin & Hn & Hb).
    destruct (string_dec k0 k) as [->|Hne].
    + right. rewrite (NC _ _ _ Hkv Hn Hv) in Hb.
      now apply below_nested.
    + left. exists k0, v0. split; [|auto].
      exact (dict_del_In_other string_dec (k0, v0) k x_out x1 Hdel Hin Hne).
Qed.

Lemma node_transfer (x x' : sdict) :
  (forall e, In e x' -> node sep x (fst e) (snd e)) ->
  forall K v, node sep x' K v -> node sep x K v.
Proof.
  intros H K v Hn. induction Hn as [k v Hin|k v kc c _ IH Hc].
  - exact (H (k, v) Hin).
  - now apply (node_child sep x k v kc c).
Qed.

(** What one pass keeps: the leaf keys stay reachable, and nothing
    appears that was not a node before. *)
Lemma pass_items_paths (x : sdict) d' x' :
  no_nested_collision sep x ->
  pass_items sep x true x = Ok (d', x') ->
  (forall e, In e x' -> node sep x (fst e) (snd e)) /\
  (forall K, leaf_key sep x K -> leaf_key sep x' K) /\
  no_nested_collision sep x'.
Proof.
  intros NC Hpass.
  assert (Hinv : path_inv sep x [] x').
  { apply (pass_items_rule sep (path_inv sep x)) with (items := x) (done := true)
                                               (x_out := x) (d' := d').
    - apply path_inv_flat.
    - intros. eapply path_inv_nested; eauto.
    - split; [apply incl_refl|]. split.
      + intros [k v] He. now apply node_top.
      + intros K (k & v & Hin & Hb). exists k, v. auto using node_top.
    - exact Hpass. }
  destruct Hinv as (_ & Hnodes & Hcov).
  split; [assumption|]. split.
  - intros K HK. destruct (Hcov K HK) as (k & v & Hin & _ & Hb).
    exists k, v. auto.
  - intros K v v' Hv Hv' Hn.
    apply (NC K v v'); auto; apply (node_transfer x x' Hnodes); assumption.
Qed.

Lemma flatten_loop_paths fuel : forall (x r : sdict),
  no_nested_collision sep x ->
  flatten_loop fuel sep x x = Ok r ->
  (forall K, leaf_key sep x K -> smem K r = true) /\
  (forall e, In e r -> node sep x (fst e) (snd e)).
Proof.
  induction fuel as [|fuel IH]; intros x r NC Hloop; [discriminate|].
  pose proof (flatten_loop_flat sep (S fuel) x r Hloop) as Hflat.
  simpl in Hloop.
  destruct (pass_items sep x true x) as [[d' x']| |] eqn:Hpass; try discriminate.
  destruct (pass_items_paths x d' x' NC Hpass) as (Hnodes & Hleaf & NC').
  destruct d'.
  - injection Hloop as <-. split; [|assumption].
    intros K HK. destruct (Hleaf K HK) as (k & v & Hin & Hb).
    pose proof (is_flat_In x' (k, v) Hflat Hin) as Hv. simpl in Hv.
    apply (below_not_nested _ _ _ Hv) in Hb. subst K.
    apply dict_mem_keys. now apply (in_map fst) in Hin.
  - destruct (IH x' r NC' Hloop) as (Hmem & Hr). split.
    + intros K HK. apply Hmem. now apply Hleaf.
    + intros e He. apply (node_transfer x x'); auto.
Qed.
End FlattenPaths.


(* ================================================================== *)
(** * flatten_json: values, when no two paths share a composite key *)
(* ================================================================== *)

Lemma NoDup_keys_eq {V : Type} (l : list (string * V)) k v v' :
  NoDup (map fst l) -> In (k, v) l -> In (k, v') l -> v = v'.
Proof.
  induction l as [|[k0 v0] l IH]; simpl; [tauto|].
  intros Hnd. inversion Hnd as [|? ? Hnotin Hnd']; subst.
  intros [E|Hin] [E'|Hin'].
  - congruence.
  - injection E as -> _. exfalso. apply Hnotin. now apply (in_map fst) in Hin'.
  - injection E' as -> _. exfalso. apply Hnotin. now apply (in_map fst) in Hin.
  - now apply IH.
Qed.

Lemma lookup_path_node_from sep (x : sdict) p : forall k v0 v,
  node sep x k v0 -> lookup_path v0 p = Some v ->
  node sep x (path_key sep (k :: p)) v.
Proof.
  induction p as [|c p IH]; intros k v0 v Hn H; simpl in H.
  - injection H as <-. exact Hn.
  - destruct (sget c (children v0)) as [w|] eqn:Ew; [|discriminate].
    apply dict_get_In in Ew. rewrite <- path_key_fmt.
    apply (IH _ w); [|assumption]. now apply (node_child sep x k v0 c w).
Qed.

Lemma lookup_path_node sep (x : sdict) p v :
  p <> [] -> lookup_path (PDict x) p = Some v -> node sep x (path_key sep p) v.
Proof.
  destruct p as [|k p]; [congruence|]. intros _ H. simpl in H.
  destruct (sget k x) as [v0|] eqn:E0; [|discriminate].
  apply dict_get_In in E0. apply (lookup_path_node_from sep x p k v0); [|assumption].
  now apply node_top.
Qed.

(** When all composite keys of the mapping are distinct, the result binds
    the composite key of every path that ends at a leaf to that leaf. *)
Lemma flatten_json_values sep (x : sdict) fuel r :
  NoDup (map fst (all_nodes sep x)) ->
  flatten_json fuel x sep = Ok r ->
  forall p s,
    p <> [] -> lookup_path (PDict x) p = Some s -> is_nested s = false ->
    sget (path_key sep p) r = Some s.
Proof.
  intros Hnd Hr p s Hp Hlook Hs.
  assert (NC : no_nested_collision sep x).
  { intros K v v' Hv Hv' _. apply node_all_nodes in Hv, Hv'.
    exact (NoDup_keys_eq _ K v' v Hnd Hv' Hv). }
  destruct (flatten_loop_paths sep fuel x r NC Hr) as [Hmem Hnodes].
  specialize (Hmem _ (lookup_path_leaf_key sep x p s Hp Hlook Hs)).
  unfold dict_mem in Hmem.
  destruct (sget (path_key sep p) r) as [s'|] eqn:Es; [|discriminate].
  f_equal. apply dict_get_In in Es. apply Hnodes in Es. simpl in Es.
  apply node_all_nodes in Es.
  pose proof (node_all_nodes sep x _ _ (lookup_path_node sep x p s Hp Hlook)) as Hin.
  exact (NoDup_keys_eq _ _ s' s Hnd Es Hin).
Qed.

(* ================================================================== *)
(** * Facts about the effect monad and the pure loops *)
(* ================================================================== *)

Lemma dict_get_set {K V : Type} (K_eq_dec : forall a b : K, {a = b} + {a <> b})
  (k' k : K) (v : V) (d : dict K V) :
  dict_get K_eq_dec k' (dict_set K_eq_dec k v d)
  = if K_eq_dec k' k then Some v else dict_get K_eq_dec k' d.
Proof.
  induction d as [|[k0 v0] d IH]; simpl.
  - reflexivity.
  - destruct (K_eq_dec k k0) as [->|Hne]; simpl.
    + destruct (K_eq_dec k' k0); reflexivity.
    + destruct (K_eq_dec k' k0) as [->|Hne'].
      * destruct (K_eq_dec k0 k); [congruence|reflexivity].
      * exact IH.
Qed.

Lemma keys_set_existing {K V : Type} (K_eq_dec : forall a b : K, {a = b} + {a <> b})
  (k : K) (v : V) (d : dict K V) :
  In k (keys d) -> keys (dict_set K_eq_dec k v d) = keys d.
Proof.
  induction d as [|[k0 v0] d IH]; simpl; [tauto|].
  intros H. destruct (K_eq_dec k k0) as [->|Hne]; simpl; [reflexivity|].
  f_equal. apply IH. destruct H; [congruence|assumption].
Qed.

Lemma apply_callback_pure self f eid w :
  apply_callback self f eid w = (run_callback self f eid, w).
Proof.
  unfold apply_callback, run_callback, _kwargs, bind, lift.
  now destruct (kwargs_loop self (argnames f) eid []).
Qed.

Lemma mapM_pure {A B : Type} (body : A -> M B) (pure : A -> outcome B) :
  (forall a w, body a w = (pure a, w)) ->
  forall l w, mapM body l w = (omap pure l, w).
Proof.
  intros Hb. induction l as [|a l IH]; intros w; simpl; [reflexivity|].
  unfold bind. rewrite Hb. destruct (pure a); simpl; try reflexivity.
  rewrite IH. now destruct (omap pure l).
Qed.

Lemma dict_of_runs_pure (body : Z -> M pyobj) (pure : Z -> outcome pyobj) :
  (forall a w, body a w = (pure a, w)) ->
  forall ids acc w, dict_of_runs body ids acc w = (odict_of_runs pure ids acc, w).
Proof.
  intros Hb. induction ids as [|eid ids IH]; intros acc w; simpl; [reflexivity|].
  unfold bind. rewrite Hb. destruct (pure eid); simpl; try reflexivity.
  apply IH.
Qed.

(** The dict a comprehension over the runs builds has the body's value
    at every run. *)
Lemma odict_of_runs_get (body : Z -> outcome pyobj) ids : forall acc r,
  odict_of_runs body ids acc = Ok r ->
  forall eid,
    dict_get Z.eq_dec eid r
    = if in_dec Z.eq_dec eid ids
      then match body eid with Ok v => Some v | _ => None end
      else dict_get Z.eq_dec eid acc.
Proof.
  induction ids as [|e ids IH]; intros acc r; simpl.
  - intros H eid. now injection H as <-.
  - destruct (body e) as [v| |] eqn:Ev; simpl; try discriminate.
    intros H eid. rewrite (IH _ _ H eid), dict_get_set.
    destruct (Z.eq_dec e eid) as [->|Hne].
    + rewrite Ev. destruct (in_dec Z.eq_dec eid ids); [reflexivity|].
      now destruct (Z.eq_dec eid eid).
    + destruct (in_dec Z.eq_dec eid ids); [reflexivity|].
      destruct (Z.eq_dec eid e); [congruence|reflexivity].
Qed.

Lemma odict_of_runs_keys (body : Z -> outcome pyobj) ids : forall acc r,
  odict_of_runs body ids acc = Ok r ->
  forall eid, In eid (keys r) <-> In eid ids \/ In eid (keys acc).
Proof.
  induction ids as [|e ids IH]; intros acc r; simpl.
  - intros H eid. injection H as <-. tauto.
  - destruct (body e) as [v| |]; simpl; try discriminate.
    intros H eid. rewrite (IH _ _ H eid), keys_dict_set. intuition.
Qed.

(* ================================================================== *)
(** * Well-formed parsers *)
(* ================================================================== *)

Lemma distinct_NoDup {A : Type} (dec : forall a b : A, {a = b} + {a <> b}) l :
  distinct dec l = true -> NoDup l.
Proof.
  induction l as [|a l IH]; simpl; [constructor|].
  destruct (in_dec dec a l); simpl; [discriminate|].
  intros H. constructor; auto.
Qed.

Lemma index_pos_In eid index : In eid index ->
  exists i, index_pos eid index = Some i /\ i < List.length index.
Proof.
  induction index as [|e index IH]; simpl; [tauto|].
  intros H. destruct (Z.eq_dec eid e) as [->|Hne].
  - exists 0. split; [reflexivity|lia].
  - destruct H as [E|H]; [congruence|].
    destruct (IH H) as (i & -> & Hi). exists (S i). split; [reflexivity|lia].
Qed.

Lemma in_columns_true name df : in_columns name df = true <-> In name (columns df).
Proof.
  unfold in_columns. destruct (in_dec string_dec name (columns df)); split; auto.
  discriminate.
Qed.

Lemma index_pos_nth eid index : forall i,
  index_pos eid index = Some i -> nth_error index i = Some eid.
Proof.
  induction index as [|e index IH]; simpl; [discriminate|].
  destruct (Z.eq_dec eid e) as [->|Hne].
  - intros i H. now injection H as <-.
  - destruct (index_pos eid index) as [j|]; [|discriminate].
    intros i H. injection H as <-. simpl. now apply IH.
Qed.

Lemma index_pos_None eid index : ~ In eid index -> index_pos eid index = None.
Proof.
  induction index as [|e index IH]; simpl; [reflexivity|]. intros H.
  destruct (Z.eq_dec eid e) as [->|Hne]; [exfalso; auto|].
  rewrite IH; [reflexivity|tauto].
Qed.

(** The lookups of pandas on labels that occur once. *)
Lemma filter_label_absent {V : Type} (name : string) (d : list (string * V)) :
  ~ In name (map fst d) -> filter (fun c => String.eqb (fst c) name) d = [].
Proof.
  induction d as [|[k v] d IH]; simpl; [reflexivity|]. intros H.
  destruct (String.eqb k name) eqn:E.
  - apply String.eqb_eq in E. exfalso. auto.
  - apply IH. tauto.
Qed.

Lemma filter_label_unique {V : Type} (name : string) (d : list (string * V)) (v : V) :
  NoDup (map fst d) -> dict_get string_dec name d = Some v ->
  filter (fun c => String.eqb (fst c) name) d = [(name, v)].
Proof.
  induction d as [|[k v'] d IH]; simpl; [discriminate|].
  intros Hnd Hget. inversion Hnd as [|? ? Hnotin Hnd']; subst.
  destruct (string_dec name k) as [->|Hne].
  - injection Hget as ->. rewrite String.eqb_refl.
    now rewrite (filter_label_absent k d Hnotin).
  - destruct (String.eqb k name) eqn:E.
    + apply String.eqb_eq in E. congruence.
    + now apply IH.
Qed.

Lemma filter_label_present {V : Type} (name : string) (d : list (string * V)) :
  In name (map fst d) -> filter (fun c => String.eqb (fst c) name) d <> [].
Proof.
  intros H. apply in_map_iff in H. destruct H as (c & Hc & Hin).
  assert (Hf : In c (filter (fun c => String.eqb (fst c) name) d)).
  { apply filter_In. split; [assumption|]. now apply String.eqb_eq. }
  intros E. rewrite E in Hf. destruct Hf.
Qed.

Lemma df_getitem_unique name df col :
  NoDup (columns df) -> dict_get string_dec name (df_columns df) = Some col ->
  df_getitem name df = Ok (GetSeries col).
Proof.
  intros Hnd Hget. unfold df_getitem.
  now rewrite (filter_label_unique name (df_columns df) col Hnd Hget).
Qed.

Lemma df_getitem_absent name df :
  ~ In name (columns df) -> df_getitem name df = Raise (KeyError name).
Proof.
  intros H. unfold df_getitem. now rewrite (filter_label_absent name (df_columns df) H).
Qed.

Lemma filter_rows_absent (eid : Z) : forall (index : list Z) (col : list pyobj),
  ~ In eid index -> filter (fun r => Z.eqb (fst r) eid) (combine index col) = [].
Proof.
  induction index as [|e index IH]; intros [|v col] H; simpl; try reflexivity.
  destruct (Z.eqb e eid) eqn:E.
  - apply Z.eqb_eq in E. exfalso. apply H. now left.
  - apply IH. intros Hin. apply H. now right.
Qed.

Lemma filter_rows_unique (eid : Z) : forall (index : list Z) (col : list pyobj) i v,
  NoDup index -> nth_error index i = Some eid -> nth_error col i = Some v ->
  filter (fun r => Z.eqb (fst r) eid) (combine index col) = [(eid, v)].
Proof.
  induction index as [|e index IH]; intros col i v Hnd Hi Hv.
  - destruct i; discriminate.
  - inversion Hnd as [|? ? Hnotin Hnd']; subst.
    destruct col as [|v0 col]; [destruct i; discriminate|].
    destruct i as [|i]; simpl in Hi, Hv |- *.
    + injection Hi as ->. injection Hv as ->. rewrite Z.eqb_refl.
      now rewrite (filter_rows_absent eid index col Hnotin).
    + destruct (Z.eqb e eid) eqn:E.
      * apply Z.eqb_eq in E. subst e. exfalso. apply Hnotin.
        exact (nth_error_In index i Hi).
      * exact (IH col i v Hnd' Hi Hv).
Qed.

Lemma series_loc_unique index col eid i v :
  NoDup index -> nth_error index i = Some eid -> nth_error col i = Some v ->
  series_loc index col eid = Ok v.
Proof.
  intros Hnd Hi Hv. unfold series_loc.
  now rewrite (filter_rows_unique eid index col i v Hnd Hi Hv).
Qed.

Lemma series_loc_absent index col eid :
  ~ In eid index -> series_loc index col eid = Raise (KeyError (str_of_Z eid)).
Proof.
  intros H. unfold series_loc. now rewrite (filter_rows_absent eid index col H).
Qed.

Section WellFormed.
Variable self : FileStorageParser.
Hypothesis Hwf : parser_wf self = true.

Lemma wf_index : df_index (cfg_df self) = eids self.
Proof.
  unfold parser_wf in Hwf. apply andb_true_iff in Hwf. destruct Hwf as [H _].
  apply andb_true_iff in H. destruct H as [_ H].
  now destruct (list_eq_dec Z.eq_dec (df_index (cfg_df self)) (eids self)).
Qed.

Lemma wf_NoDup : NoDup (columns (cfg_df self)) /\ NoDup (df_index (cfg_df self)).
Proof.
  unfold parser_wf, df_wf in Hwf. rewrite !andb_true_iff in Hwf.
  destruct Hwf as [[[[Hc Hi] _] _] _].
  split; [exact (distinct_NoDup string_dec _ Hc)|exact (distinct_NoDup Z.eq_dec _ Hi)].
Qed.

(** Every cell of a column exists for every run. *)
Lemma wf_cell column eid :
  In column (columns (cfg_df self)) -> In eid (eids self) ->
  exists col i v,
    In (column, col) (df_columns (cfg_df self)) /\
    nth_error (df_index (cfg_df self)) i = Some eid /\
    nth_error col i = Some v /\
    df_getitem column (cfg_df self) = Ok (GetSeries col) /\
    series_loc (df_index (cfg_df self)) col eid = Ok v /\
    cell self column eid = Some v.
Proof.
  intros Hc He. unfold cell. destruct wf_NoDup as [Hndc Hndi].
  destruct (dict_get string_dec column (df_columns (cfg_df self))) as [col|] eqn:Ecol.
  2:{ apply dict_get_None in Ecol. contradiction. }
  rewrite <- wf_index in He.
  destruct (index_pos_In eid _ He) as (i & Hpos & Hi). rewrite Hpos.
  assert (Hlen : List.length col = List.length (df_index (cfg_df self))).
  { unfold parser_wf, df_wf in Hwf. rewrite !andb_true_iff in Hwf.
    destruct Hwf as [[[_ Hcols] _] _]. rewrite forallb_forall in Hcols.
    apply dict_get_In in Ecol. apply Hcols in Ecol. now apply Nat.eqb_eq in Ecol. }
  destruct (nth_error col i) as [v|] eqn:Ev.
  2:{ apply nth_error_None in Ev. lia. }
  pose proof (index_pos_nth eid _ i Hpos) as Hnth.
  exists col, i, v.
  split; [now apply dict_get_In in Ecol|].
  split; [exact Hnth|]. split; [exact Ev|].
  split; [exact (df_getitem_unique column _ col Hndc Ecol)|].
  split; [exact (series_loc_unique _ col eid i v Hndi Hnth Ev)|reflexivity].
Qed.

(** Every artifact has a value for every run. *)
Lemma wf_artifact name eid :
  In name (keys (artifacts self)) -> In eid (eids self) ->
  exists per_run v,
    dict_get string_dec name (artifacts self) = Some per_run /\
    dict_get Z.eq_dec eid per_run = Some v /\
    artifact_value self name eid = Some v.
Proof.
  intros Hn He. unfold artifact_value.
  destruct (dict_get string_dec name (artifacts self)) as [per_run|] eqn:Ea.
  2:{ apply dict_get_None in Ea. contradiction. }
  assert (Hmem : dict_mem Z.eq_dec eid per_run = true).
  { unfold parser_wf in Hwf. rewrite !andb_true_iff in Hwf.
    destruct Hwf as [_ Harts]. rewrite forallb_forall in Harts.
    apply dict_get_In in Ea. apply Harts in Ea. simpl in Ea.
    rewrite forallb_forall in Ea. now apply Ea. }
  unfold dict_mem in Hmem.
  destruct (dict_get Z.eq_dec eid per_run) as [v|] eqn:Ev; [|discriminate].
  exists per_run, v. rewrite ?Ev. repeat split; reflexivity.
Qed.

(** The value expression of [_kwargs] agrees with the precedence of
    section 4.6 on every name it is evaluated for. *)
Lemma kwargs_value_resolve arg eid :
  In eid (eids self) -> In arg (_argnames self) ->
  exists v, kwargs_value self arg eid = Ok v /\ resolve_spec self arg eid = Some v.
Proof.
  intros He Harg. unfold kwargs_value, resolve_spec.
  destruct (string_dec arg "eid") as [->|Hne]; [exists (PInt eid); auto|].
  apply String.eqb_neq in Hne. rewrite Hne. apply String.eqb_neq in Hne.
  unfold in_columns.
  destruct (in_dec string_dec arg (columns (cfg_df self))) as [Hc|Hc].
  - destruct (wf_cell arg eid Hc He) as (col & i & v & _ & _ & _ & -> & Hloc & Hcell).
    exists v. simpl. auto.
  - destruct (in_dec string_dec arg (keys (artifacts self))) as [Ha|Ha].
    + destruct (wf_artifact arg eid Ha He) as (per_run & v & Hg & Hv & Hav).
      exists v. rewrite Hg, Hv. auto.
    + exfalso. unfold _argnames in Harg. simpl in Harg.
      destruct Harg as [E|Harg]; [congruence|].
      apply in_app_or in Harg. tauto.
Qed.

Lemma kwargs_loop_get eid (He : In eid (eids self)) names : forall acc,
  exists kw,
    kwargs_loop self names eid acc = Ok kw /\
    (forall arg,
        In arg names -> In arg (_argnames self) ->
        sget arg kw = resolve_spec self arg eid) /\
    (forall arg,
        ~ (In arg names /\ In arg (_argnames self)) -> sget arg kw = sget arg acc).
Proof.
  induction names as [|a names IH]; intros acc; cbn [kwargs_loop].
  - exists acc. split; [reflexivity|]. split; [intros arg []|reflexivity].
  - destruct (in_dec string_dec a (_argnames self)) as [Ha|Ha].
    + destruct (kwargs_value_resolve a eid He Ha) as (v & Hv & Hres).
      rewrite Hv. cbn [obind].
      destruct (IH (sset a v acc)) as (kw & Hkw & Hin & Hout).
      exists kw. split; [assumption|]. split.
      * intros arg Harg Hargn.
        destruct (in_dec string_dec arg names) as [Hn|Hn]; [now apply Hin|].
        destruct Harg as [->|Harg]; [|contradiction].
        rewrite Hout by tauto. rewrite dict_get_set.
        destruct (string_dec arg arg); [now symmetry|congruence].
      * intros arg Hnot. rewrite Hout.
        -- rewrite dict_get_set. destruct (string_dec arg a) as [->|Hne]; [|reflexivity].
           exfalso. apply Hnot. split; [now left|assumption].
        -- intros [H1 H2]. apply Hnot. split; [now right|assumption].
    + destruct (IH acc) as (kw & Hkw & Hin & Hout).
      exists kw. split; [assumption|]. split.
      * intros arg [->|Harg] Hargn; [contradiction|now apply Hin].
      * intros arg Hnot. apply Hout. intros [H1 H2]. apply Hnot.
        split; [now right|assumption].
Qed.
End WellFormed.

(* ================================================================== *)
(** * add_artifact and add_cfg_col *)
(* ================================================================== *)

Lemma odict_of_runs_total (body : Z -> outcome pyobj) ids :
  (forall eid, In eid ids -> exists v, body eid = Ok v) ->
  forall acc, exists r, odict_of_runs body ids acc = Ok r.
Proof.
  induction ids as [|e ids IH]; intros Hb acc; simpl; [eauto|].
  destruct (Hb e (or_introl eq_refl)) as [v ->]. simpl.
  apply IH. intros eid He. apply Hb. now right.
Qed.

Lemma omap_total {A B : Type} (body : A -> outcome B) l :
  (forall a, In a l -> exists b, body a = Ok b) ->
  exists bs, omap body l = Ok bs /\ List.length bs = List.length l.
Proof.
  induction l as [|a l IH]; intros Hb; simpl; [exists []; auto|].
  destruct (Hb a (or_introl eq_refl)) as [b ->]. simpl.
  destruct IH as (bs & -> & Hlen); [intros; apply Hb; now right|].
  exists (b :: bs). simpl. auto.
Qed.

Lemma add_artifact_eid self f w :
  add_artifact self "eid" f w = (Raise ExcCannotUseEid, w).
Proof. reflexivity. Qed.

Lemma add_artifact_column self name f w :
  name <> "eid" -> In name (columns (cfg_df self)) ->
  add_artifact self name f w = (Raise (ExcAlreadyConfigName name), w).
Proof.
  intros Hne Hc. unfold add_artifact.
  apply String.eqb_neq in Hne. rewrite Hne.
  apply in_columns_true in Hc. now rewrite Hc.
Qed.

Lemma add_artifact_ok self name f w per_run :
  name <> "eid" -> ~ In name (columns (cfg_df self)) ->
  odict_of_runs (run_callback self f) (eids self) [] = Ok per_run ->
  add_artifact self name f w
  = (Ok {| basedir := basedir self; processed_dirname := processed_dirname self;
           eids := eids self; cfg_df := cfg_df self;
           artifacts := dict_set string_dec name per_run (artifacts self) |}, w).
Proof.
  intros Hne Hc Hruns. unfold add_artifact.
  apply String.eqb_neq in Hne. rewrite Hne.
  destruct (in_columns name (cfg_df self)) eqn:E.
  { apply in_columns_true in E. contradiction. }
  unfold bind.
  rewrite (dict_of_runs_pure (apply_callback self f) (run_callback self f)
             (apply_callback_pure self f)).
  now rewrite Hruns.
Qed.

Lemma add_cfg_col_eid self f w :
  add_cfg_col self "eid" f w = (Raise ExcCannotUseEid, w).
Proof. reflexivity. Qed.

Lemma add_cfg_col_artifact self name f w :
  name <> "eid" -> In name (keys (artifacts self)) ->
  add_cfg_col self name f w = (Raise (ExcAlreadyArtifactName name), w).
Proof.
  intros Hne Ha. unfold add_cfg_col.
  apply String.eqb_neq in Hne. rewrite Hne.
  apply (dict_mem_keys string_dec) in Ha. now rewrite Ha.
Qed.

Lemma add_cfg_col_ok self name f w values :
  name <> "eid" -> ~ In name (keys (artifacts self)) ->
  omap (run_callback self f) (eids self) = Ok values ->
  add_cfg_col self name f w
  = (Ok {| basedir := basedir self; processed_dirname := processed_dirname self;
           eids := eids self; cfg_df := df_setcol name values (cfg_df self);
           artifacts := artifacts self |},
     {| opened := opened w;
        warned := if in_columns name (cfg_df self)
                  then warned w ++ [overwrite_warning] else warned w |}).
Proof.
  intros Hne Ha Hvals. unfold add_cfg_col.
  apply String.eqb_neq in Hne. rewrite Hne.
  destruct (dict_mem string_dec name (artifacts self)) eqn:E.
  { apply (dict_mem_keys string_dec) in E. contradiction. }
  unfold bind.
  destruct (in_columns name (cfg_df self)); simpl;
    rewrite (mapM_pure (apply_callback self f) (run_callback self f)
               (apply_callback_pure self f)), Hvals; [reflexivity|].
  now destruct w.
Qed.

(** Overwriting an existing column warns and replaces its cells. *)
Lemma add_cfg_col_overwrite self name f w :
  name <> "eid" -> ~ In name (keys (artifacts self)) ->
  In name (columns (cfg_df self)) ->
  (forall eid, In eid (eids self) -> exists v, run_callback self f eid = Ok v) ->
  exists values self',
    omap (run_callback self f) (eids self) = Ok values /\
    add_cfg_col self name f w
    = (Ok self', {| opened := opened w; warned := warned w ++ [overwrite_warning] |}) /\
    columns (cfg_df self') = columns (cfg_df self) /\
    df_getcol name (cfg_df self') = Ok values /\
    artifacts self' = artifacts self.
Proof.
  intros Hne Ha Hc Hf.
  destruct (omap_total (run_callback self f) (eids self) Hf) as (values & Hvals & _).
  rewrite (add_cfg_col_ok self name f w values Hne Ha Hvals).
  pose proof Hc as Hc'. apply in_columns_true in Hc'. rewrite Hc'.
  exists values. eexists. split; [exact Hvals|]. split; [reflexivity|]. simpl.
  split; [|split; [|reflexivity]].
  - unfold columns, df_setcol. simpl.
    now apply (keys_set_existing string_dec name values (df_columns (cfg_df self))).
  - unfold df_getcol, df_setcol. simpl. rewrite dict_get_set.
    now destruct (string_dec name name).
Qed.

(** Adding under the name of an existing artifact replaces its whole
    per-run mapping, with no error and no effect. *)
Lemma add_artifact_overwrite self name f w :
  name <> "eid" -> ~ In name (columns (cfg_df self)) ->
  In name (keys (artifacts self)) ->
  (forall eid, In eid (eids self) -> exists v, run_callback self f eid = Ok v) ->
  exists per_run self',
    add_artifact self name f w = (Ok self', w) /\
    keys (artifacts self') = keys (artifacts self) /\
    dict_get string_dec name (artifacts self') = Some per_run /\
    (forall n, n <> name ->
               dict_get string_dec n (artifacts self')
               = dict_get string_dec n (artifacts self)) /\
    (forall eid, In eid (eids self) ->
                 exists v, run_callback self f eid = Ok v /\
                           dict_get Z.eq_dec eid per_run = Some v) /\
    (forall eid, ~ In eid (eids self) -> dict_get Z.eq_dec eid per_run = None) /\
    cfg_df self' = cfg_df self.
Proof.
  intros Hne Hc Ha Hf.
  destruct (odict_of_runs_total (run_callback self f) (eids self) Hf [])
    as [per_run Hruns].
  rewrite (add_artifact_ok self name f w per_run Hne Hc Hruns).
  eexists. eexists. split; [reflexivity|]. simpl.
  pose proof (odict_of_runs_get _ _ _ _ Hruns) as Hget.
  split; [|split; [|split; [|split; [|split; [|reflexivity]]]]].
  - now apply keys_set_existing.
  - rewrite dict_get_set. now destruct (string_dec name name).
  - intros n Hn. rewrite dict_get_set. now destruct (string_dec n name).
  - intros eid He. destruct (Hf eid He) as [v Hv]. exists v. split; [assumption|].
    rewrite Hget, Hv. now destruct (in_dec Z.eq_dec eid (eids self)).
  - intros eid He. rewrite Hget.
    now destruct (in_dec Z.eq_dec eid (eids self)).
Qed.

(* ================================================================== *)
(** * What construction opens *)
(* ================================================================== *)

Lemma dedup_In a l : forall seen, In a (dedup seen l) <-> In a l /\ ~ In a seen.
Proof.
  induction l as [|b l IH]; intros seen; simpl; [tauto|].
  destruct (in_dec string_dec b seen) as [Hb|Hb].
  - rewrite IH. split; [tauto|]. intros [[->|H] Hn]; tauto.
  - simpl. rewrite IH. simpl. split.
    + intros [->|[H1 H2]]; tauto.
    + intros [[->|H] Hn]; [now left|].
      destruct (string_dec b a) as [->|Hne]; [now left|]. right. tauto.
Qed.

Lemma omap_In {A B : Type} (body : A -> outcome B) l bs a :
  omap body l = Ok bs -> In a l -> exists b, body a = Ok b /\ In b bs.
Proof.
  revert bs. induction l as [|a0 l IH]; intros bs; simpl; [tauto|].
  destruct (body a0) as [b0| |] eqn:E0; simpl; try discriminate.
  destruct (omap body l) as [bs0| |]; simpl; try discriminate.
  intros H. injection H as <-. intros [->|Hin].
  - exists b0. split; [assumption|now left].
  - destruct (IH bs0 eq_refl Hin) as (b & Hb & Hbs). exists b. split; [assumption|now right].
Qed.

Lemma _load_file_incl bd pd eid f w o w' :
  _load_file bd pd eid f w = (o, w') -> incl (opened w) (opened w').
Proof.
  unfold _load_file.
  destruct (fs_walk bd (_eid_dir pd eid ++ [f])) as [[content|es]|];
    try (unfold ret; intros H; injection H as _ <-; apply incl_refl).
  destruct (existsb _ _).
  - unfold bind, log_open, ret. intros H. injection H as _ <-. simpl.
    now apply incl_appl, incl_refl.
  - unfold raise. intros H. injection H as _ <-. apply incl_refl.
Qed.

Lemma _load_file_opens bd pd eid f w v w' content :
  fs_walk bd (_eid_dir pd eid ++ [f]) = Some (RegFile content) ->
  _load_file bd pd eid f w = (Ok v, w') ->
  v = content /\ In (_eid_dir pd eid ++ [f]) (opened w').
Proof.
  unfold _load_file. intros ->.
  destruct (existsb _ _).
  - unfold bind, log_open, ret. intros H. injection H as <- <-. simpl.
    split; [reflexivity|]. apply in_or_app. right. now left.
  - unfold raise. discriminate.
Qed.

Section DictOfRuns.
Variable body : Z -> M pyobj.
Hypothesis body_incl : forall eid w o w', body eid w = (o, w') -> incl (opened w) (opened w').

Lemma dict_of_runs_incl ids : forall acc w o w',
  dict_of_runs body ids acc w = (o, w') -> incl (opened w) (opened w').
Proof.
  induction ids as [|e ids IH]; intros acc w o w'; simpl.
  - unfold ret. intros H. injection H as _ <-. apply incl_refl.
  - unfold bind. destruct (body e w) as [[v| |] w1] eqn:Eb.
    + intros H. apply IH in H. apply body_incl in Eb.
      eapply incl_tran; eauto.
    + intros H. injection H as _ <-. eapply body_incl; eauto.
    + intros H. injection H as _ <-. eapply body_incl; eauto.
Qed.

(** A comprehension over the runs that returns has run its body, with a
    result, at every run, and the files the body opened stay opened. *)
Lemma dict_of_runs_ran ids : forall acc w r w',
  dict_of_runs body ids acc w = (Ok r, w') ->
  forall eid, In eid ids ->
    exists w1 v w2, body eid w1 = (Ok v, w2) /\ incl (opened w2) (opened w').
Proof.
  induction ids as [|e ids IH]; intros acc w r w'; simpl; [tauto|].
  unfold bind. destruct (body e w) as [[v| |] w1] eqn:Eb; try discriminate.
  intros H eid [->|Hin].
  - exists w, v, w1. split; [assumption|]. eapply dict_of_runs_incl; eauto.
  - eapply IH; eauto.
Qed.

Lemma dict_of_runs_keys ids : forall acc w r w',
  dict_of_runs body ids acc w = (Ok r, w') ->
  forall eid, In eid ids \/ In eid (keys acc) -> In eid (keys r).
Proof.
  induction ids as [|e ids IH]; intros acc w r w'; simpl.
  - unfold ret. intros H. injection H as <- _. tauto.
  - unfold bind. destruct (body e w) as [[v| |] w1] eqn:Eb; try discriminate.
    intros H eid Hin. apply (IH _ _ _ _ H). rewrite keys_dict_set.
    destruct Hin as [[->|Hin]|Hin]; auto.
Qed.
End DictOfRuns.

Lemma load_artifacts_incl bd pd ids fs : forall acc w o w',
  load_artifacts bd pd ids fs acc w = (o, w') -> incl (opened w) (opened w').
Proof.
  induction fs as [|f fs IH]; intros acc w o w'; simpl.
  - unfold ret. intros H. injection H as _ <-. apply incl_refl.
  - unfold bind.
    destruct (dict_of_runs (fun eid => _load_file bd pd eid f) ids [] w)
      as [[per_run| |] w1] eqn:Er;
      pose proof (dict_of_runs_incl _
                    (fun eid w o w' H => _load_file_incl bd pd eid f w o w' H)
                    _ _ _ _ _ Er) as Hincl.
    + intros H. apply IH in H. eapply incl_tran; eauto.
    + intros H. now injection H as _ <-.
    + intros H. now injection H as _ <-.
Qed.

(** Loading the artifacts opens every file of the list that exists, for
    every run. *)
Lemma load_artifacts_opens bd pd ids fs : forall acc w arts w',
  load_artifacts bd pd ids fs acc w = (Ok arts, w') ->
  forall f eid content,
    In f fs -> In eid ids ->
    fs_walk bd (_eid_dir pd eid ++ [f]) = Some (RegFile content) ->
    In (_eid_dir pd eid ++ [f]) (opened w').
Proof.
  induction fs as [|f0 fs IH]; intros acc w arts w'; simpl; [tauto|].
  unfold bind.
  destruct (dict_of_runs (fun eid => _load_file bd pd eid f0) ids [] w)
    as [[per_run| |] w1] eqn:Er; try discriminate.
  intros H f eid content [->|Hf] He Hwalk.
  - destruct (dict_of_runs_ran _
                (fun eid w o w' H => _load_file_incl bd pd eid f w o w' H)
                _ _ _ _ _ Er eid He) as (wa & v & wb & Hload & Hincl).
    apply (load_artifacts_incl _ _ _ _ _ _ _ _ H), Hincl.
    now destruct (_load_file_opens _ _ _ _ _ _ _ _ Hwalk Hload).
  - eapply IH; eauto.
Qed.

(** Every artifact the loop stores has an entry for every run. *)
Lemma load_artifacts_complete bd pd ids fs : forall acc w arts w',
  (forall a, In a acc -> forall eid, In eid ids -> In eid (keys (snd a))) ->
  load_artifacts bd pd ids fs acc w = (Ok arts, w') ->
  forall a, In a arts -> forall eid, In eid ids -> In eid (keys (snd a)).
Proof.
  induction fs as [|f0 fs IH]; intros acc w arts w' Hacc; simpl.
  - unfold ret. intros H. now injection H as <- _.
  - unfold bind.
    destruct (dict_of_runs (fun eid => _load_file bd pd eid f0) ids [] w)
      as [[per_run| |] w1] eqn:Er; try discriminate.
    apply IH. intros a Ha eid He. apply dict_set_In in Ha.
    destruct Ha as [->|Ha]; [|now apply Hacc].
    simpl. apply (dict_of_runs_keys _ _ _ _ _ _ Er). now left.
Qed.

Lemma run_filenames_isfile bd pd eid fs f :
  run_filenames bd pd eid = Ok fs -> In f fs ->
  exists content, fs_walk bd (_eid_dir pd eid ++ [f]) = Some (RegFile content).
Proof.
  unfold run_filenames. destruct (listdir bd (_eid_dir pd eid)); simpl; try discriminate.
  intros H. injection H as <-. intros Hin. apply filter_In in Hin.
  destruct Hin as [_ Hin]. apply andb_true_iff in Hin. destruct Hin as [Hfile _].
  unfold isfile in Hfile.
  destruct (fs_walk bd (_eid_dir pd eid ++ [f])) as [[content|]|]; try discriminate.
  eauto.
Qed.

(** The shape of a successful construction. *)
Lemma init_inv bd pd w0 self w :
  init bd pd w0 = (Ok self, w) ->
  exists ids df w1 fs,
    discover bd = Ok ids /\
    _config_df bd pd ids w0 = (Ok df, w1) /\
    artifact_filenames bd pd ids = Ok fs /\
    load_artifacts bd pd ids fs [] w1 = (Ok (artifacts self), w) /\
    eids self = ids /\ cfg_df self = df.
Proof.
  unfold init, bind, lift.
  destruct (discover bd) as [ids| |] eqn:Ed; try discriminate.
  destruct (_config_df bd pd ids w0) as [[df| |] w1] eqn:Ec; try discriminate.
  unfold _artifacts, bind, lift.
  destruct (artifact_filenames bd pd ids) as [fs| |] eqn:Ef; try discriminate.
  destruct (load_artifacts bd pd ids fs [] w1) as [[arts| |] w2] eqn:El;
    try discriminate.
  unfold ret. intros H. injection H as <- <-. simpl.
  exists ids, df, w1, fs. repeat (split; [assumption || reflexivity|]). reflexivity.
Qed.

(* ================================================================== *)
(** * Discovery on well-named directories *)
(* ================================================================== *)

Lemma insert_sorted_In z y l : In y (insert_sorted z l) <-> y = z \/ In y l.
Proof.
  induction l as [|a l IH]; simpl; [intuition|].
  destruct (z <=? a)%Z; simpl; [intuition|]. rewrite IH. intuition.
Qed.

Lemma sort_In y l : In y (sort l) <-> In y l.
Proof.
  induction l as [|a l IH]; simpl; [tauto|].
  rewrite insert_sorted_In, IH. intuition.
Qed.

Lemma insert_sorted_perm z l : Permutation (z :: l) (insert_sorted z l).
Proof.
  induction l as [|a l IH]; simpl; [apply Permutation_refl|].
  destruct (z <=? a)%Z; [apply Permutation_refl|].
  eapply Permutation_trans; [apply perm_swap|]. now apply perm_skip.
Qed.

Lemma sort_perm l : Permutation l (sort l).
Proof.
  induction l as [|a l IH]; simpl; [constructor|].
  eapply Permutation_trans; [apply perm_skip, IH|]. apply insert_sorted_perm.
Qed.

Lemma insert_sorted_sorted z l :
  StronglySorted Z.le l -> StronglySorted Z.le (insert_sorted z l).
Proof.
  induction l as [|a l IH]; simpl; intros Hs.
  - constructor; constructor.
  - inversion Hs as [|? ? Hs' Hall]; subst.
    destruct (z <=? a)%Z eqn:E.
    + apply Z.leb_le in E. constructor; [assumption|].
      constructor; [assumption|].
      rewrite Forall_forall in *. intros y Hy. specialize (Hall y Hy). lia.
    + apply Z.leb_gt in E. constructor; [now apply IH|].
      rewrite Forall_forall in *. intros y Hy.
      apply insert_sorted_In in Hy. destruct Hy as [->|Hy]; [lia|auto].
Qed.

Lemma sort_sorted l : StronglySorted Z.le (sort l).
Proof.
  induction l as [|a l IH]; simpl; [constructor|]. now apply insert_sorted_sorted.
Qed.

Lemma omap_In_inv {A B : Type} (body : A -> outcome B) l bs b :
  omap body l = Ok bs -> In b bs -> exists a, In a l /\ body a = Ok b.
Proof.
  revert bs. induction l as [|a0 l IH]; intros bs; simpl.
  - intros H. injection H as <-. intros [].
  - destruct (body a0) as [b0| |] eqn:E0; simpl; try discriminate.
    destruct (omap body l) as [bs0| |]; simpl; try discriminate.
    intros H. injection H as <-. intros [<-|Hin].
    + exists a0. auto.
    + destruct (IH bs0 eq_refl Hin) as (a & Ha & Hb). exists a. auto.
Qed.

(** When discovery returns, it returns the integers of exactly the
    accepted names, in ascending order, and there is at least one. *)
Lemma discover_returns bd ids :
  discover bd = Ok ids ->
  StronglySorted Z.le ids /\ ids <> [] /\
  (forall z, In z ids <->
             exists f, In f (map fst bd) /\ isdir bd [f] = true /\
                       has_digit f = true /\ py_int f = Some z).
Proof.
  unfold discover.
  set (accepted := filter (fun f => isdir bd [f] && has_digit f) (map fst bd)).
  set (parse := fun f => match py_int f with
                         | Some z => Ok z
                         | None => Raise (ValueError f)
                         end).
  destruct (omap parse accepted) as [parsed| |] eqn:Ep; cbn [obind]; try discriminate.
  destruct parsed as [|z0 parsed]; [discriminate|].
  intros H.
  assert (E : ids = sort (z0 :: parsed)) by (injection H as <-; reflexivity).
  rewrite E. clear H E.
  split; [apply sort_sorted|]. split.
  - intros E. apply (f_equal (@List.length Z)) in E.
    rewrite <- (Permutation_length (sort_perm (z0 :: parsed))) in E. discriminate.
  - intros z. rewrite sort_In. split.
    + intros Hz. destruct (omap_In_inv parse accepted _ z Ep Hz) as (f & Hf & Hp).
      apply filter_In in Hf. destruct Hf as [Hf Hacc].
      apply andb_true_iff in Hacc. destruct Hacc as [Hd Hg].
      exists f. repeat (split; [assumption|]).
      unfold parse in Hp. destruct (py_int f); [now injection Hp as ->|discriminate].
    + intros (f & Hf & Hd & Hg & Hp).
      assert (Hacc : In f accepted).
      { apply filter_In. split; [assumption|]. now rewrite Hd, Hg. }
      destruct (omap_In parse accepted _ f Ep Hacc) as (z' & Hz' & Hin).
      unfold parse in Hz'. rewrite Hp in Hz'. now injection Hz' as <-.
Qed.




(* ================================================================== *)
(** * Selection with at least one criterion *)
(* ================================================================== *)

Lemma nth_and_combine (a b : list bool) : forall i,
  nth i (map (fun p => andb (fst p) (snd p)) (combine a b)) false
  = nth i a false && nth i b false.
Proof.
  revert b. induction a as [|x a IH]; intros b i; simpl.
  - now destruct i.
  - destruct b as [|y b]; simpl.
    + destruct i; simpl; now rewrite andb_false_r.
    + destruct i; simpl; [reflexivity|apply IH].
Qed.

Lemma nth_map_cells (g : pyobj -> bool) (col : list pyobj) : forall i,
  nth i (map g col) false
  = match nth_error col i with Some c => g c | None => false end.
Proof.
  induction col as [|c col IH]; intros [|i]; simpl; auto.
Qed.

Lemma and_true_mask (mask : list bool) :
  map (fun p => andb (fst p) (snd p)) (combine (repeat true (List.length mask)) mask)
  = mask.
Proof. induction mask as [|b mask IH]; simpl; [reflexivity|now rewrite IH]. Qed.

Lemma select_In index : forall mask eid,
  NoDup index ->
  (In eid (select index mask) <->
   exists i, index_pos eid index = Some i /\ nth i mask false = true).
Proof.
  induction index as [|e index IH]; intros mask eid Hnd; simpl.
  - split; [intros []|intros (i & H & _); discriminate].
  - inversion Hnd as [|? ? Hnotin Hnd']; subst.
    destruct mask as [|b mask].
    + split; [intros []|]. intros (i & _ & H). now destruct i.
    + destruct (Z.eq_dec eid e) as [->|Hne].
      * split.
        -- intros H. exists 0. split; [reflexivity|]. simpl.
           destruct b; [reflexivity|].
           apply (IH mask e Hnd') in H. destruct H as (i & Hi & _).
           exfalso. apply Hnotin. clear -Hi. revert i Hi.
           induction index as [|a index IH]; simpl; [discriminate|].
           intros i. destruct (Z.eq_dec e a) as [->|Hne]; [now left|].
           destruct (index_pos e index) as [j|] eqn:Ej; [|discriminate].
           intros _. right. now apply (IH j).
        -- intros (i & Hi & Hm). injection Hi as <-. simpl in Hm. subst b. now left.
      * assert (Hiff : In eid (select index mask) <->
                       exists i, index_pos eid (e :: index) = Some i /\
                                 nth i (b :: mask) false = true).
        { rewrite (IH mask eid Hnd'). simpl.
          destruct (Z.eq_dec eid e); [contradiction|]. split.
          - intros (i & Hi & Hm). exists (S i). rewrite Hi. auto.
          - intros (i & Hi & Hm).
            destruct (index_pos eid index) as [j|]; [|discriminate].
            injection Hi as <-. exists j. auto. }
        simpl in Hiff. destruct (Z.eq_dec eid e); [contradiction|].
        rewrite <- Hiff. destruct b; simpl; [|tauto].
        split; [intros [E|H]; [congruence|assumption]|auto].
Qed.

Lemma select_incl index : forall mask eid, In eid (select index mask) -> In eid index.
Proof.
  induction index as [|e index IH]; intros [|b mask] eid; simpl; try tauto.
  destruct b; simpl; [intros [H|H]; eauto|eauto].
Qed.

(** A selection keeps the order of the index. *)
Lemma select_sorted (R : Z -> Z -> Prop) index : forall mask,
  StronglySorted R index -> StronglySorted R (select index mask).
Proof.
  induction index as [|e index IH]; intros [|b mask] Hs; simpl; try constructor.
  inversion Hs as [|? ? Hs' Hall]; subst.
  destruct b; [|now apply IH].
  constructor; [now apply IH|].
  rewrite Forall_forall in *. intros y Hy. apply Hall. eapply select_incl; eauto.
Qed.

Section Selection.
Variable cell_eq : pyobj -> pyobj -> bool.
Variable df : DataFrame.

Lemma series_eq_scalar col v :
  is_scalar v = true -> series_eq cell_eq col v = Ok (map (fun c => cell_eq c v) col).
Proof. destruct v; simpl; try discriminate; reflexivity. Qed.

Lemma match_loop_mask criteria : forall mask,
  (forall k, In k (keys criteria) -> In k (columns df)) ->
  (forall k v, In (k, v) criteria -> is_scalar v = true) ->
  exists mask',
    match_loop cell_eq df criteria (IxMask mask) = Ok (IxMask mask') /\
    forall i, nth i mask' false = nth i mask false && row_meets cell_eq df criteria i.
Proof.
  induction criteria as [|[k v] criteria IH]; intros mask Hcols Hsc; simpl.
  - exists mask. split; [reflexivity|]. intros i. now rewrite andb_true_r.
  - unfold df_getcol.
    destruct (dict_get string_dec k (df_columns df)) as [col|] eqn:Ek.
    2:{ apply dict_get_None in Ek. exfalso. apply Ek, Hcols. now left. }
    simpl. rewrite (series_eq_scalar col v (Hsc k v (or_introl eq_refl))). simpl.
    destruct (IH (map (fun p => andb (fst p) (snd p))
                      (combine mask (map (fun c => cell_eq c v) col))))
      as (mask' & -> & Hmask').
    { intros k' Hk'. apply Hcols. now right. }
    { intros k' v' Hk'. apply (Hsc k' v'). now right. }
    exists mask'. split; [reflexivity|]. intros i.
    rewrite Hmask', nth_and_combine, nth_map_cells.
    now rewrite andb_assoc.
Qed.

Lemma match_loop_from_true criteria :
  criteria <> [] ->
  (forall k, In k (keys criteria) -> In k (columns df)) ->
  (forall k v, In (k, v) criteria -> is_scalar v = true) ->
  exists mask',
    match_loop cell_eq df criteria IxTrue = Ok (IxMask mask') /\
    forall i, nth i mask' false = row_meets cell_eq df criteria i.
Proof.
  destruct criteria as [|[k v] criteria]; [congruence|]. intros _ Hcols Hsc.
  destruct (match_loop_mask ((k, v) :: criteria)
              (repeat true (List.length
                 (match dict_get string_dec k (df_columns df) with
                  | Some col => map (fun c => cell_eq c v) col
                  | None => []
                  end))) Hcols Hsc) as (mask' & Hloop & Hmask').
  simpl in *. unfold df_getcol in *.
  destruct (dict_get string_dec k (df_columns df)) as [col|] eqn:Ek.
  2:{ apply dict_get_None in Ek. exfalso. apply Ek, Hcols. now left. }
  simpl in *. rewrite (series_eq_scalar col v (Hsc k v (or_introl eq_refl))) in *.
  simpl in *. rewrite and_true_mask in Hloop.
  exists mask'. split; [assumption|]. intros i. rewrite Hmask'.
  destruct (nth_error col i) as [c|] eqn:Ec; simpl.
  - assert (Hi : i < List.length (repeat true (List.length (map (fun c0 => cell_eq c0 v) col)))).
    { rewrite repeat_length, length_map. apply nth_error_Some. congruence. }
    rewrite (nth_indep _ false true Hi), nth_repeat. reflexivity.
  - now rewrite andb_false_r.
Qed.
End Selection.

(** With at least one criterion, each naming a column, [eid_match]
    returns an index of run ids: exactly the run ids whose row has, in
    every supplied column, a cell equal to the supplied value, in the
    order of the index. *)
Lemma eid_match_with_criteria cell_eq self criteria w :
  df_wf (cfg_df self) = true ->
  criteria <> [] ->
  smem "self" criteria = false ->
  (forall k, In k (keys criteria) -> In k (columns (cfg_df self))) ->
  (forall k v, In (k, v) criteria -> is_scalar v = true) ->
  exists labels,
    eid_match cell_eq self criteria w = (Ok (Index1D labels), w) /\
    (forall eid,
        In eid labels <->
        In eid (df_index (cfg_df self)) /\
        forall k v, In (k, v) criteria ->
                    exists c, cell self k eid = Some c /\ cell_eq c v = true) /\
    (forall R, StronglySorted R (df_index (cfg_df self)) -> StronglySorted R labels).
Proof.
  intros Hwf Hne Hself Hcols Hsc.
  destruct (match_loop_from_true cell_eq (cfg_df self) criteria Hne Hcols Hsc)
    as (mask & Hloop & Hmask).
  exists (select (df_index (cfg_df self)) mask).
  split; [unfold eid_match, bind, lift; now rewrite Hself, Hloop|].
  assert (Hnd : NoDup (df_index (cfg_df self))).
  { unfold df_wf in Hwf. rewrite !andb_true_iff in Hwf.
    destruct Hwf as [[_ H] _]. now apply distinct_NoDup in H. }
  split; [|intros R; apply select_sorted].
  intros eid. rewrite (select_In _ mask eid Hnd). split.
  - intros (i & Hi & Hm). split.
    + clear -Hi. revert i Hi. induction (df_index (cfg_df self)) as [|a l IH];
        simpl; [discriminate|].
      intros i. destruct (Z.eq_dec eid a) as [->|]; [now left|].
      destruct (index_pos eid l) as [j|]; [|discriminate].
      intros _. right. now apply (IH j).
    + intros k v Hkv. rewrite Hmask in Hm. unfold row_meets in Hm.
      rewrite forallb_forall in Hm. specialize (Hm (k, v) Hkv). simpl in Hm.
      unfold cell. rewrite Hi.
      destruct (dict_get string_dec k (df_columns (cfg_df self))); [|discriminate].
      destruct (nth_error l i) as [c|]; [eauto|discriminate].
  - intros (Hin & Hall).
    destruct (index_pos_In eid _ Hin) as (i & Hi & _).
    exists i. split; [assumption|]. rewrite Hmask. unfold row_meets.
    apply forallb_forall. intros [k v] Hkv. simpl.
    destruct (Hall k v Hkv) as (c & Hc & Heq). unfold cell in Hc. rewrite Hi in Hc.
    destruct (dict_get string_dec k (df_columns (cfg_df self))); [|discriminate].
    now rewrite Hc.
Qed.

(* ================================================================== *)
(** * What the operations keep *)
(* ================================================================== *)

Lemma NoDup_distinct {A : Type} (dec : forall a b : A, {a = b} + {a <> b}) l :
  NoDup l -> distinct dec l = true.
Proof.
  induction 1 as [|a l Hnotin Hnd IH]; simpl; [reflexivity|].
  destruct (in_dec dec a l); [contradiction|]. exact IH.
Qed.

(** [parser_wf] as a proposition. *)
Lemma parser_wf_iff self :
  parser_wf self = true <->
  NoDup (columns (cfg_df self)) /\ NoDup (df_index (cfg_df self)) /\
  (forall c, In c (df_columns (cfg_df self)) ->
             List.length (snd c) = List.length (df_index (cfg_df self))) /\
  df_index (cfg_df self) = eids self /\
  (forall a, In a (artifacts self) ->
             forall eid, In eid (eids self) -> In eid (keys (snd a))).
Proof.
  unfold parser_wf, df_wf. rewrite !andb_true_iff, !forallb_forall. split.
  - intros [[[[Hc Hi] Hlen] Heq] Harts].
    split; [now apply distinct_NoDup in Hc|].
    split; [now apply distinct_NoDup in Hi|].
    split; [intros c Hc'; now apply Nat.eqb_eq, Hlen|].
    split; [now destruct (list_eq_dec Z.eq_dec _ _)|].
    intros a Ha eid He. specialize (Harts a Ha). rewrite forallb_forall in Harts.
    now apply (dict_mem_keys Z.eq_dec), Harts.
  - intros (Hc & Hi & Hlen & Heq & Harts).
    split; [split; [split; [split|]|]|].
    + now apply NoDup_distinct.
    + now apply NoDup_distinct.
    + intros c Hc'. now apply Nat.eqb_eq, Hlen.
    + now destruct (list_eq_dec Z.eq_dec _ _).
    + intros a Ha. apply forallb_forall. intros eid He.
      now apply (dict_mem_keys Z.eq_dec), (Harts a Ha).
Qed.

Lemma add_artifact_inv self name f w self' w' :
  add_artifact self name f w = (Ok self', w') ->
  name <> "eid" /\ ~ In name (columns (cfg_df self)) /\
  cfg_df self' = cfg_df self /\ eids self' = eids self /\ w' = w /\
  exists per_run,
    odict_of_runs (run_callback self f) (eids self) [] = Ok per_run /\
    artifacts self' = dict_set string_dec name per_run (artifacts self).
Proof.
  unfold add_artifact.
  destruct (String.eqb name "eid") eqn:E1; [discriminate|].
  destruct (in_columns name (cfg_df self)) eqn:E2; [discriminate|].
  unfold bind.
  rewrite (dict_of_runs_pure (apply_callback self f) (run_callback self f)
             (apply_callback_pure self f)).
  destruct (odict_of_runs (run_callback self f) (eids self) []) as [per_run| |] eqn:E3;
    try discriminate.
  unfold ret. intros H. injection H as <- <-. simpl.
  split; [now apply String.eqb_neq|].
  split; [intros Hc; apply in_columns_true in Hc; congruence|].
  repeat (split; [reflexivity|]). exists per_run. auto.
Qed.

Lemma add_cfg_col_inv self name f w self' w' :
  add_cfg_col self name f w = (Ok self', w') ->
  name <> "eid" /\ ~ In name (keys (artifacts self)) /\
  artifacts self' = artifacts self /\ eids self' = eids self /\
  exists values,
    omap (run_callback self f) (eids self) = Ok values /\
    cfg_df self' = df_setcol name values (cfg_df self).
Proof.
  unfold add_cfg_col.
  destruct (String.eqb name "eid") eqn:E1; [discriminate|].
  destruct (dict_mem string_dec name (artifacts self)) eqn:E2; [discriminate|].
  unfold bind.
  destruct ((if in_columns name (cfg_df self) then warn overwrite_warning else ret tt) w)
    as [[[]| |] w1] eqn:Ew.
  2,3: destruct (in_columns name (cfg_df self)); discriminate.
  rewrite (mapM_pure (apply_callback self f) (run_callback self f)
             (apply_callback_pure self f)).
  destruct (omap (run_callback self f) (eids self)) as [values| |] eqn:E3;
    try discriminate.
  unfold ret. intros H. injection H as <- <-. simpl.
  split; [now apply String.eqb_neq|].
  split; [intros Ha; apply (dict_mem_keys string_dec) in Ha; congruence|].
  repeat (split; [reflexivity|]). exists values. auto.
Qed.

Lemma columns_setcol n name values df :
  In n (columns (df_setcol name values df)) <-> n = name \/ In n (columns df).
Proof. unfold columns, df_setcol. simpl. apply keys_dict_set. Qed.

(** Both operations keep the namespaces disjoint and free of "eid". *)
Lemma add_artifact_names_ok self name f w self' w' :
  names_ok self -> add_artifact self name f w = (Ok self', w') -> names_ok self'.
Proof.
  intros (Hdis & Hc & Ha) Hadd. unfold names_ok.
  destruct (add_artifact_inv _ _ _ _ _ _ Hadd)
    as (Hne & Hcol & -> & _ & _ & per_run & _ & ->).
  split; [|split; [assumption|]].
  - intros n Hn Hk. apply keys_dict_set in Hk. destruct Hk as [->|Hk].
    + contradiction.
    + now apply (Hdis n).
  - intros Hk. apply keys_dict_set in Hk. destruct Hk as [E|Hk]; [congruence|auto].
Qed.

Lemma add_cfg_col_names_ok self name f w self' w' :
  names_ok self -> add_cfg_col self name f w = (Ok self', w') -> names_ok self'.
Proof.
  intros (Hdis & Hc & Ha) Hadd. unfold names_ok.
  destruct (add_cfg_col_inv _ _ _ _ _ _ Hadd)
    as (Hne & Hart & -> & _ & values & _ & ->).
  split; [|split; [|assumption]].
  - intros n Hn Hk. apply columns_setcol in Hn. destruct Hn as [->|Hn].
    + contradiction.
    + now apply (Hdis n).
  - intros Hn. apply columns_setcol in Hn. destruct Hn as [E|Hn]; [congruence|auto].
Qed.

Lemma omap_length {A B : Type} (body : A -> outcome B) l bs :
  omap body l = Ok bs -> List.length bs = List.length l.
Proof.
  revert bs. induction l as [|a l IH]; intros bs; simpl.
  - intros H. now injection H as <-.
  - destruct (body a); simpl; try discriminate.
    destruct (omap body l) as [bs0| |]; simpl; try discriminate.
    intros H. injection H as <-. simpl. now rewrite (IH bs0).
Qed.

(** Both operations keep the parser well formed. *)
Lemma add_artifact_wf self name f w self' w' :
  parser_wf self = true -> add_artifact self name f w = (Ok self', w') ->
  parser_wf self' = true.
Proof.
  rewrite !parser_wf_iff. intros (Hc & Hi & Hlen & Heq & Harts) Hadd.
  destruct (add_artifact_inv _ _ _ _ _ _ Hadd)
    as (_ & _ & -> & -> & _ & per_run & Hruns & ->).
  repeat (split; [assumption|]).
  intros a Ha eid He. apply dict_set_In in Ha. destruct Ha as [->|Ha]; [|now apply Harts].
  simpl. apply (odict_of_runs_keys _ _ _ _ Hruns). now left.
Qed.

Lemma add_cfg_col_wf self name f w self' w' :
  parser_wf self = true -> add_cfg_col self name f w = (Ok self', w') ->
  parser_wf self' = true.
Proof.
  rewrite !parser_wf_iff. intros (Hc & Hi & Hlen & Heq & Harts) Hadd.
  destruct (add_cfg_col_inv _ _ _ _ _ _ Hadd)
    as (_ & _ & -> & -> & values & Hvals & ->).
  simpl. split; [now apply NoDup_dict_set|]. split; [assumption|].
  split; [|split; assumption].
  intros c Hc'. apply dict_set_In in Hc'. destruct Hc' as [->|Hc']; [|now apply Hlen].
  simpl. rewrite (omap_length _ _ _ Hvals). now rewrite Heq.
Qed.

(* ================================================================== *)
(** * What construction establishes *)
(* ================================================================== *)

Lemma mapM_length {A B : Type} (body : A -> M B) l : forall w bs w',
  mapM body l w = (Ok bs, w') -> List.length bs = List.length l.
Proof.
  induction l as [|a l IH]; intros w bs w'; simpl.
  - unfold ret. intros H. now injection H as <- _.
  - unfold bind. destruct (body a w) as [[b| |] w1]; try discriminate.
    destruct (mapM body l w1) as [[bs0| |] w2] eqn:E; try discriminate.
    unfold ret. intros H. injection H as <- _. simpl. now rewrite (IH _ _ _ E).
Qed.

Lemma _config_df_shape bd pd ids w df w' :
  _config_df bd pd ids w = (Ok df, w') ->
  df_index df = ids /\
  forall c, In c (df_columns df) -> List.length (snd c) = List.length ids.
Proof.
  unfold _config_df, bind.
  destruct (mapM (load_config bd pd) ids w) as [[cfgs| |] w1] eqn:E; try discriminate.
  unfold ret. intros H. injection H as <- _. simpl. split; [reflexivity|].
  intros c Hc. apply in_map_iff in Hc. destruct Hc as (c0 & <- & Hc0).
  apply in_map_iff in Hc0. destruct Hc0 as (n & <- & _). simpl.
  rewrite length_map. exact (mapM_length _ _ _ _ _ E).
Qed.

(** The collection [__init__] returns is indexed by its run ids, which
    are in ascending order; its columns have a cell for every run and
    its artifacts a value for every run. *)
Lemma init_shape bd pd w0 self w :
  init bd pd w0 = (Ok self, w) ->
  df_index (cfg_df self) = eids self /\
  StronglySorted Z.le (eids self) /\
  (forall c, In c (df_columns (cfg_df self)) ->
             List.length (snd c) = List.length (eids self)) /\
  (forall a, In a (artifacts self) ->
             forall eid, In eid (eids self) -> In eid (keys (snd a))).
Proof.
  intros Hinit.
  destruct (init_inv bd pd w0 self w Hinit)
    as (ids & df & w1 & fs & Hd & Hc & Hf & Hl & -> & ->).
  destruct (_config_df_shape _ _ _ _ _ _ Hc) as [Hidx Hlen].
  destruct (discover_returns bd _ Hd) as (Hsorted & _ & _).
  repeat (split; [assumption|]).
  exact (load_artifacts_complete bd pd _ fs [] w1 (artifacts self) w
           (fun a Ha => match Ha with end) Hl).
Qed.

(** With distinct run ids and distinct normalized column names, it is
    well formed. *)
Lemma init_wf bd pd w0 self w :
  init bd pd w0 = (Ok self, w) ->
  NoDup (eids self) -> NoDup (columns (cfg_df self)) ->
  parser_wf self = true.
Proof.
  intros Hinit Hids Hcols.
  destruct (init_shape bd pd w0 self w Hinit) as (Hidx & _ & Hlen & Harts).
  apply parser_wf_iff. rewrite Hidx. auto 10.
Qed.

(* ================================================================== *)
(** * flatten_json: the entries of the result, with or without collisions *)
(* ================================================================== *)

Section FlattenEntries.
Variable sep : string.

(** Whatever collides, a pass only ever writes nodes of the mapping it
    started from. *)
Lemma pass_items_nodes (x : sdict) d' x' :
  pass_items sep x true x = Ok (d', x') ->
  forall e, In e x' -> node sep x (fst e) (snd e).
Proof.
  intros Hpass.
  assert (Hinv : incl [] x /\ forall e, In e x' -> node sep x (fst e) (snd e)).
  { apply (pass_items_rule sep
             (fun rest x_out =>
                incl rest x /\ forall e, In e x_out -> node sep x (fst e) (snd e)))
      with (items := x) (done := true) (x_out := x) (d' := d').
    - intros k v rest x_out [Hincl Hn] _. split; [|assumption].
      intros e He. apply Hincl. now right.
    - intros k v rest x_out x1 [Hincl Hn] Hv Hdel. split.
      + intros e He. apply Hincl. now right.
      + intros e He. apply expand_dict_In in He.
        destruct He as [He|(kc & c & Hc & ->)].
        * apply Hn. exact (dict_del_In string_dec e k x_out x1 Hdel He).
        * simpl. apply (node_child sep x k v kc c); [|assumption].
          apply node_top, Hincl. now left.
    - split; [apply incl_refl|]. intros [k v] He. now apply node_top.
    - exact Hpass. }
  exact (proj2 Hinv).
Qed.

Lemma flatten_loop_nodes fuel : forall (x r : sdict),
  flatten_loop fuel sep x x = Ok r ->
  forall e, In e r -> node sep x (fst e) (snd e).
Proof.
  induction fuel as [|fuel IH]; intros x r Hloop; [discriminate|].
  simpl in Hloop.
  destruct (pass_items sep x true x) as [[d' x']| |] eqn:Hpass; try discriminate.
  pose proof (pass_items_nodes x d' x' Hpass) as Hnodes.
  destruct d'.
  - now injection Hloop as <-.
  - intros e He. apply (node_transfer sep x x' Hnodes). now apply (IH x' r).
Qed.
End FlattenEntries.

(* ================================================================== *)
(** * int and str on run ids *)
(* ================================================================== *)

Lemma parse_digits_uint d : forall acc,
  parse_digits acc true (list_ascii_of_string (NilEmpty.string_of_uint d))
  = Some (uint_value acc d).
Proof.
  induction d; intros acc; [reflexivity|..]; exact (IHd _).
Qed.

Lemma parse_digits_uint_start d : d <> Decimal.Nil ->
  parse_digits 0 false (list_ascii_of_string (NilEmpty.string_of_uint d))
  = Some (uint_value 0 d).
Proof.
  destruct d; [congruence|..]; intros _; exact (parse_digits_uint d _).
Qed.

Lemma uint_value_acc d : forall acc,
  uint_value (Z.pos acc) d = Z.pos (Pos.of_uint_acc d acc).
Proof.
  induction d; intros acc; cbn [uint_value Pos.of_uint_acc]; [reflexivity|..];
    rewrite <- IHd; f_equal; lia.
Qed.

Lemma uint_value_of_uint d : uint_value 0 d = Z.of_uint d.
Proof.
  unfold Z.of_uint.
  induction d; cbn [uint_value Pos.of_uint Z.of_N]; [reflexivity|exact IHd|..];
    exact (uint_value_acc d _).
Qed.

Lemma string_of_uint_digits d c :
  In c (list_ascii_of_string (NilEmpty.string_of_uint d)) -> is_digit c = true.
Proof.
  induction d; simpl; [tauto|..]; intros [<-|H]; auto.
Qed.

Lemma lstrip_id l : (forall c, In c l -> is_space c = false) -> lstrip l = l.
Proof.
  destruct l as [|c l]; [reflexivity|]. intros H. simpl.
  now rewrite (H c (or_introl eq_refl)).
Qed.

Lemma strip_id l : (forall c, In c l -> is_space c = false) -> strip l = l.
Proof.
  intros H. unfold strip. rewrite (lstrip_id l H), lstrip_id, rev_involutive; auto.
  intros c Hc. apply H. now apply in_rev.
Qed.

Lemma is_digit_not_space c : is_digit c = true -> is_space c = false.
Proof.
  unfold is_digit, is_space. intros H. apply andb_true_iff in H.
  destruct H as [H1 H2]. apply Nat.leb_le in H1, H2.
  apply orb_false_iff. split; apply andb_false_iff.
  - right. apply Nat.leb_gt. lia.
  - right. apply Nat.leb_gt. lia.
Qed.

Lemma py_int_digits d : d <> Decimal.Nil ->
  py_int (NilEmpty.string_of_uint d) = Some (Z.of_uint d).
Proof.
  intros Hd. unfold py_int. rewrite strip_id.
  2:{ intros c Hc. apply is_digit_not_space. eapply string_of_uint_digits; eauto. }
  rewrite <- uint_value_of_uint, <- (parse_digits_uint_start d Hd).
  destruct d; [congruence|reflexivity..].
Qed.

Lemma py_int_minus_digits d : d <> Decimal.Nil ->
  py_int (String "-" (NilEmpty.string_of_uint d)) = Some (- Z.of_uint d)%Z.
Proof.
  intros Hd. unfold py_int. rewrite strip_id.
  2:{ intros c Hc. simpl in Hc. destruct Hc as [<-|Hc]; [reflexivity|].
      apply is_digit_not_space. eapply string_of_uint_digits; eauto. }
  change (option_map Z.opp
            (parse_digits 0 false (list_ascii_of_string (NilEmpty.string_of_uint d)))
          = Some (- Z.of_uint d)%Z).
  now rewrite (parse_digits_uint_start d Hd), uint_value_of_uint.
Qed.

Lemma string_of_uint_nonnil d : d <> Decimal.Nil ->
  NilZero.string_of_uint d = NilEmpty.string_of_uint d.
Proof. destruct d; [congruence|reflexivity..]. Qed.

(** [int(str(z)) == z] *)
Lemma py_int_str_of_Z z : py_int (str_of_Z z) = Some z.
Proof.
  unfold str_of_Z. rewrite <- (DecimalZ.of_to z) at 2.
  destruct z as [|p|p]; cbn [Z.to_int NilZero.string_of_int Z.of_int].
  - reflexivity.
  - rewrite string_of_uint_nonnil by apply Unsigned.to_uint_nonnil.
    apply py_int_digits, Unsigned.to_uint_nonnil.
  - rewrite string_of_uint_nonnil by apply Unsigned.to_uint_nonnil.
    apply py_int_minus_digits, Unsigned.to_uint_nonnil.
Qed.

Lemma str_of_Z_inj z z' : str_of_Z z = str_of_Z z' -> z = z'.
Proof.
  intros H. apply (f_equal py_int) in H. rewrite !py_int_str_of_Z in H. congruence.
Qed.

Lemma str_of_Z_has_digit z : has_digit (str_of_Z z) = true.
Proof.
  assert (H : forall d, d <> Decimal.Nil -> has_digit (NilEmpty.string_of_uint d) = true)
    by (intros d Hd; destruct d; [congruence|reflexivity..]).
  unfold str_of_Z. destruct z as [|p|p]; cbn [Z.to_int NilZero.string_of_int].
  - reflexivity.
  - rewrite string_of_uint_nonnil by apply Unsigned.to_uint_nonnil.
    apply H, Unsigned.to_uint_nonnil.
  - rewrite string_of_uint_nonnil by apply Unsigned.to_uint_nonnil.
    cbn [has_digit]. rewrite H by apply Unsigned.to_uint_nonnil. apply orb_true_r.
Qed.

(* ================================================================== *)
(** * Column names *)
(* ================================================================== *)

Lemma normalize_char_name c : is_name_char (normalize_char c) = true.
Proof. destruct c as [[|] [|] [|] [|] [|] [|] [|] [|]]; reflexivity. Qed.

Lemma normalize_char_fixed c : is_name_char c = true -> normalize_char c = c.
Proof. destruct c as [[|] [|] [|] [|] [|] [|] [|] [|]]; try reflexivity; discriminate. Qed.

Lemma normalize_name_chars s c :
  In c (list_ascii_of_string (normalize_name s)) -> is_name_char c = true.
Proof.
  induction s as [|a s IH]; simpl; [tauto|].
  intros [<-|H]; [apply normalize_char_name|auto].
Qed.

Lemma normalize_name_fixed s :
  (forall c, In c (list_ascii_of_string s) -> is_name_char c = true) ->
  normalize_name s = s.
Proof.
  induction s as [|a s IH]; simpl; [reflexivity|]. intros H.
  rewrite normalize_char_fixed by (apply H; now left).
  rewrite IH; [reflexivity|]. intros c Hc. apply H. now right.
Qed.

Lemma normalize_name_idem s : normalize_name (normalize_name s) = normalize_name s.
Proof. apply normalize_name_fixed, normalize_name_chars. Qed.

Lemma _config_df_columns bd pd ids w df w' :
  _config_df bd pd ids w = (Ok df, w') ->
  forall name, In name (columns df) -> exists raw, name = normalize_name raw.
Proof.
  unfold _config_df, bind.
  destruct (mapM (load_config bd pd) ids w) as [[cfgs| |] w1]; try discriminate.
  unfold ret. intros H. injection H as <- _. intros name Hn.
  unfold columns, normalize_columns in Hn. simpl in Hn.
  rewrite map_map in Hn. apply in_map_iff in Hn. destruct Hn as (c & <- & _).
  simpl. eauto.
Qed.

(* ================================================================== *)
(** * What construction stores *)
(* ================================================================== *)

Lemma _load_file_value bd pd eid f w v w' :
  _load_file bd pd eid f w = (Ok v, w') ->
  v = load_value bd pd eid f /\
  (forall content,
      fs_walk bd (_eid_dir pd eid ++ [f]) = Some (RegFile content) ->
      In (snd (splitext f)) supported_extensions).
Proof.
  unfold _load_file, load_value.
  destruct (fs_walk bd (_eid_dir pd eid ++ [f])) as [[content|es]|].
  - destruct (existsb (String.eqb (snd (splitext f)))
                [".feather"; ".json"; ".pickle"; ".pkl"]) eqn:E.
    + unfold bind, log_open, ret. intros H. injection H as <- _.
      split; [reflexivity|]. intros _ _.
      apply existsb_exists in E. destruct E as (e & He & Heq).
      apply String.eqb_eq in Heq. now subst e.
    + unfold raise. discriminate.
  - unfold ret. intros H. injection H as <- _. split; [reflexivity|discriminate].
  - unfold ret. intros H. injection H as <- _. split; [reflexivity|discriminate].
Qed.

(** The per-run dict of one file name holds, for every run, what
    [_load_file] returns for it. *)
Lemma dict_of_runs_load bd pd f ids : forall acc w r w',
  dict_of_runs (fun eid => _load_file bd pd eid f) ids acc w = (Ok r, w') ->
  (forall eid,
      dict_get Z.eq_dec eid r
      = if in_dec Z.eq_dec eid ids then Some (load_value bd pd eid f)
        else dict_get Z.eq_dec eid acc) /\
  (forall eid content,
      In eid ids ->
      fs_walk bd (_eid_dir pd eid ++ [f]) = Some (RegFile content) ->
      In (snd (splitext f)) supported_extensions).
Proof.
  induction ids as [|e ids IH]; intros acc w r w'; cbn [dict_of_runs].
  - unfold ret. intros H. injection H as <- _. split; [reflexivity|intros ? ? []].
  - unfold bind. destruct (_load_file bd pd e f w) as [[v| |] w1] eqn:El;
      try discriminate.
    intros H. destruct (IH _ _ _ _ H) as [Hget Hext].
    destruct (_load_file_value _ _ _ _ _ _ _ El) as [-> Hext0].
    split.
    + intros eid. rewrite Hget, dict_get_set.
      destruct (in_dec Z.eq_dec eid ids) as [Hin|Hin];
        destruct (in_dec Z.eq_dec eid (e :: ids)) as [Hin'|Hin']; try reflexivity.
      * exfalso. apply Hin'. now right.
      * destruct Hin' as [->|Hin']; [|contradiction].
        now destruct (Z.eq_dec eid eid).
      * destruct (Z.eq_dec eid e) as [->|Hne]; [|reflexivity].
        exfalso. apply Hin'. now left.
    + intros eid content [<-|Hin] Hwalk; eauto.
Qed.

Lemma load_artifacts_keys bd pd ids fs : forall acc w arts w',
  load_artifacts bd pd ids fs acc w = (Ok arts, w') ->
  forall n, In n (keys arts) <->
            In n (keys acc) \/ exists f, In f fs /\ fst (splitext f) = n.
Proof.
  induction fs as [|f0 fs IH]; intros acc w arts w'; cbn [load_artifacts].
  - unfold ret. intros H. injection H as <- _. intros n.
    split; [intros Hn; now left|]. intros [Hn|(f & [] & _)]. exact Hn.
  - unfold bind.
    destruct (dict_of_runs (fun eid => _load_file bd pd eid f0) ids [] w)
      as [[per_run| |] w1]; try discriminate.
    intros H n. rewrite (IH _ _ _ _ H n), keys_dict_set. split.
    + intros [[->|Hn]|(f & Hf & Hs)].
      * right. exists f0. split; [now left|reflexivity].
      * now left.
      * right. exists f. split; [now right|assumption].
    + intros [Hn|(f & [->|Hf] & Hs)].
      * left. now right.
      * left. left. now symmetry.
      * right. exists f. auto.
Qed.

Lemma load_artifacts_extensions bd pd ids fs : forall acc w arts w',
  load_artifacts bd pd ids fs acc w = (Ok arts, w') ->
  forall f eid content,
    In f fs -> In eid ids ->
    fs_walk bd (_eid_dir pd eid ++ [f]) = Some (RegFile content) ->
    In (snd (splitext f)) supported_extensions.
Proof.
  induction fs as [|f0 fs IH]; intros acc w arts w'; cbn [load_artifacts];
    [intros _ f eid content []|].
  unfold bind.
  destruct (dict_of_runs (fun eid => _load_file bd pd eid f0) ids [] w)
    as [[per_run| |] w1] eqn:Er; try discriminate.
  intros H f eid content [->|Hf] He Hwalk.
  - exact (proj2 (dict_of_runs_load _ _ _ _ _ _ _ _ Er) eid content He Hwalk).
  - exact (IH _ _ _ _ H f eid content Hf He Hwalk).
Qed.

(** The artifact of a file name whose stem no other file name has holds,
    for every run, what [_load_file] returns for that file. *)
Lemma load_artifacts_value bd pd ids f fs : forall acc w arts w',
  load_artifacts bd pd ids fs acc w = (Ok arts, w') ->
  (forall f', In f' fs -> fst (splitext f') = fst (splitext f) -> f' = f) ->
  In f fs \/
  (exists pr, dict_get string_dec (fst (splitext f)) acc = Some pr /\
              forall eid, In eid ids ->
                          dict_get Z.eq_dec eid pr = Some (load_value bd pd eid f)) ->
  exists pr, dict_get string_dec (fst (splitext f)) arts = Some pr /\
             forall eid, In eid ids ->
                         dict_get Z.eq_dec eid pr = Some (load_value bd pd eid f).
Proof.
  induction fs as [|f0 fs IH]; intros acc w arts w'; cbn [load_artifacts].
  - unfold ret. intros H. injection H as <- _. intros _ [[]|H]. exact H.
  - unfold bind.
    destruct (dict_of_runs (fun eid => _load_file bd pd eid f0) ids [] w)
      as [[per_run| |] w1] eqn:Er; try discriminate.
    intros H Huniq Hor.
    apply (IH _ _ _ _ H); [intros f' Hf'; apply Huniq; now right|].
    destruct (string_dec (fst (splitext f0)) (fst (splitext f))) as [E|E].
    + assert (f0 = f) by (apply Huniq; [now left|assumption]). subst f0.
      right. exists per_run. rewrite dict_get_set.
      destruct (string_dec (fst (splitext f)) (fst (splitext f))); [|congruence].
      split; [reflexivity|]. intros eid He.
      rewrite (proj1 (dict_of_runs_load _ _ _ _ _ _ _ _ Er) eid).
      now destruct (in_dec Z.eq_dec eid ids).
    + destruct Hor as [[->|Hf]|(pr & Hpr & Hq)]; [congruence|now left|].
      right. exists pr. rewrite dict_get_set.
      destruct (string_dec (fst (splitext f)) (fst (splitext f0))); [congruence|].
      auto.
Qed.

(** Every artifact of the result that was not there before holds, for
    every run, what [_load_file] returns for one of the file names. *)
Lemma load_artifacts_source bd pd ids fs : forall acc w arts w',
  load_artifacts bd pd ids fs acc w = (Ok arts, w') ->
  forall n pr,
    dict_get string_dec n arts = Some pr ->
    dict_get string_dec n acc = Some pr \/
    exists f, In f fs /\ fst (splitext f) = n /\
              forall eid, In eid ids ->
                          dict_get Z.eq_dec eid pr = Some (load_value bd pd eid f).
Proof.
  induction fs as [|f0 fs IH]; intros acc w arts w'; cbn [load_artifacts].
  - unfold ret. intros H. injection H as <- _. intros n pr Hn. now left.
  - unfold bind.
    destruct (dict_of_runs (fun eid => _load_file bd pd eid f0) ids [] w)
      as [[per_run| |] w1] eqn:Er; try discriminate.
    intros H n pr Hn.
    destruct (IH _ _ _ _ H n pr Hn) as [Hacc|(f & Hf & Hs & Hv)].
    + rewrite dict_get_set in Hacc.
      destruct (string_dec n (fst (splitext f0))) as [->|Hne]; [|now left].
      injection Hacc as <-. right. exists f0.
      split; [now left|]. split; [reflexivity|].
      intros eid He. destruct (dict_of_runs_load _ _ _ _ _ _ _ _ Er) as [Hget _].
      rewrite Hget. now destruct (in_dec Z.eq_dec eid ids).
    + right. exists f. split; [now right|]. auto.
Qed.

(** Asking [_kwargs] for one artifact that is not shadowed returns its
    stored value and has no effect. *)
Lemma kwargs_artifact self name eid v w :
  name <> "eid" -> ~ In name (columns (cfg_df self)) ->
  artifact_value self name eid = Some v ->
  _kwargs self [name] eid w = (Ok [(name, v)], w).
Proof.
  intros Hne Hcol Hav. unfold _kwargs, lift. f_equal. cbn [kwargs_loop].
  unfold artifact_value in Hav.
  destruct (dict_get string_dec name (artifacts self)) as [pr|] eqn:Eg; [|discriminate].
  destruct (in_dec string_dec name (_argnames self)) as [_|Hn].
  2:{ exfalso. apply Hn. unfold _argnames. right. apply in_or_app. right.
      apply dict_get_In in Eg. now apply (in_map fst) in Eg. }
  unfold kwargs_value. apply String.eqb_neq in Hne. rewrite Hne.
  destruct (in_columns name (cfg_df self)) eqn:E.
  { apply in_columns_true in E. contradiction. }
  rewrite Eg, Hav. reflexivity.
Qed.

Lemma artifact_filenames_In bd pd ids fs :
  artifact_filenames bd pd ids = Ok fs ->
  forall f, In f fs <->
            exists eid fs_e, In eid ids /\ run_filenames bd pd eid = Ok fs_e /\ In f fs_e.
Proof.
  unfold artifact_filenames.
  destruct (omap (run_filenames bd pd) ids) as [fss| |] eqn:E; try discriminate.
  simpl. intros H. injection H as <-. intros f. rewrite dedup_In, in_concat. split.
  - intros [(fs_e & Hfss & Hf) _].
    destruct (omap_In_inv _ _ _ fs_e E Hfss) as (eid & He & Hr). eauto.
  - intros (eid & fs_e & He & Hr & Hf). split; [|tauto].
    destruct (omap_In _ _ _ eid E He) as (fs0 & Hr0 & Hfss).
    rewrite Hr in Hr0. injection Hr0 as <-. eauto.
Qed.

Lemma mapM_In {A B : Type} (body : A -> M B) l : forall w bs w',
  mapM body l w = (Ok bs, w') ->
  forall a, In a l -> exists w1 b w2, body a w1 = (Ok b, w2).
Proof.
  induction l as [|a0 l IH]; intros w bs w'; cbn [mapM]; [intros _ ? []|].
  unfold bind. destruct (body a0 w) as [[b0| |] w1] eqn:E0; try discriminate.
  destruct (mapM body l w1) as [[bs0| |] w2] eqn:E1; try discriminate.
  intros _ a [<-|Ha]; [eauto|]. exact (IH _ _ _ E1 a Ha).
Qed.

Lemma load_config_inv bd pd eid w cfg' w' :
  load_config bd pd eid w = (Ok cfg', w') ->
  exists cfg,
    fs_walk bd (_eid_dir pd eid ++ ["config.json"]) = Some (RegFile (PDict cfg)) /\
    (pd = None -> smem "eid" cfg = false) /\
    exists flat, flatten cfg = Ok flat /\ cfg' = sset "eid" (PInt eid) flat.
Proof.
  unfold load_config.
  destruct (fs_walk bd (_eid_dir pd eid ++ ["config.json"])) as [[content|es]|];
    try (unfold raise; discriminate).
  unfold bind, log_open, lift, ret, raise.
  destruct content as [| | | | |items|items|cells|id];
    try (destruct pd; simpl; try discriminate;
         match goal with
         | |- context [if ?b then _ else _] => destruct b; discriminate
         end).
  destruct pd as [d|]; simpl.
  - destruct (flatten items) as [flat| |] eqn:Ef; try discriminate.
    intros H. injection H as <- _.
    exists items. split; [reflexivity|]. split; [discriminate|].
    exists flat. auto.
  - destruct (smem "eid" items) eqn:E; [discriminate|].
    destruct (flatten items) as [flat| |] eqn:Ef; try discriminate.
    intros H. injection H as <- _.
    exists items. split; [reflexivity|]. split; [intros _; exact E|].
    exists flat. auto.
Qed.

(* ================================================================== *)
(** * Selection, resolution and derived entries: further facts *)
(* ================================================================== *)

Lemma match_loop_unknown cell_eq df c1 k v c2 :
  (forall k', In k' (keys c1) -> In k' (columns df)) ->
  (forall k' v', In (k', v') c1 -> is_scalar v' = true) ->
  ~ In k (columns df) ->
  forall ix, match_loop cell_eq df (c1 ++ (k, v) :: c2) ix = Raise (KeyError k).
Proof.
  intros Hc1 Hsc Hk. induction c1 as [|[k1 v1] c1 IH]; intros ix; simpl.
  - unfold df_getcol.
    destruct (dict_get string_dec k (df_columns df)) as [col|] eqn:E; [|reflexivity].
    exfalso. apply Hk. apply dict_get_In in E. now apply (in_map fst) in E.
  - unfold df_getcol.
    destruct (dict_get string_dec k1 (df_columns df)) as [col|] eqn:E.
    + simpl. rewrite (series_eq_scalar cell_eq col v1 (Hsc k1 v1 (or_introl eq_refl))).
      simpl. apply IH.
      * intros k' Hk'. apply Hc1. now right.
      * intros k' v' Hk'. apply (Hsc k' v'). now right.
    + exfalso. apply dict_get_None in E. apply E, Hc1. now left.
Qed.

Lemma omap_nth {A B : Type} (body : A -> outcome B) l : forall bs,
  omap body l = Ok bs ->
  forall i a, nth_error l i = Some a ->
              exists b, nth_error bs i = Some b /\ body a = Ok b.
Proof.
  induction l as [|a0 l IH]; intros bs; simpl.
  - intros _ [|i] a; discriminate.
  - destruct (body a0) as [b0| |] eqn:E0; simpl; try discriminate.
    destruct (omap body l) as [bs0| |]; simpl; try discriminate.
    intros H. injection H as <-. intros [|i] a; simpl.
    + intros H. injection H as <-. eauto.
    + now apply IH.
Qed.

(** After [add_cfg_col], the new column holds the function's value at
    every run, and that is what resolution returns for its name. *)
Lemma add_cfg_col_cell self name f w self' w' :
  parser_wf self = true ->
  add_cfg_col self name f w = (Ok self', w') ->
  forall eid, In eid (eids self) ->
    exists v, run_callback self f eid = Ok v /\
              cell self' name eid = Some v /\
              kwargs_value self' name eid = Ok v.
Proof.
  intros Hwf Hadd eid He.
  destruct (add_cfg_col_inv _ _ _ _ _ _ Hadd) as (Hne & _ & _ & _ & values & Hvals & Hdf).
  pose proof (wf_index self Hwf) as Hidx.
  destruct (index_pos_In eid (df_index (cfg_df self))) as (i & Hi & _);
    [now rewrite Hidx|].
  pose proof (index_pos_nth _ _ _ Hi) as Hnth. rewrite Hidx in Hnth.
  destruct (omap_nth _ _ _ Hvals i eid Hnth) as (v & Hv & Hrun).
  exists v. split; [assumption|].
  assert (Hcell : cell self' name eid = Some v).
  { unfold cell. rewrite Hdf. unfold df_setcol. simpl. rewrite dict_get_set.
    destruct (string_dec name name); [|congruence]. now rewrite Hi. }
  split; [assumption|]. unfold kwargs_value.
  apply String.eqb_neq in Hne. rewrite Hne.
  assert (Hin : In name (columns (cfg_df self'))).
  { rewrite Hdf. apply columns_setcol. now left. }
  pose proof (add_cfg_col_wf self name f w self' w' Hwf Hadd) as Hwf'.
  assert (He' : In eid (eids self')).
  { destruct (add_cfg_col_inv _ _ _ _ _ _ Hadd) as (_ & _ & _ & -> & _). exact He. }
  destruct (wf_cell self' Hwf' name eid Hin He')
    as (col & j & v' & _ & _ & _ & Hget & Hloc & Hcell').
  apply in_columns_true in Hin. rewrite Hin, Hget. simpl. rewrite Hloc. congruence.
Qed.

Lemma add_cfg_col_other self name f w self' w' c eid :
  add_cfg_col self name f w = (Ok self', w') ->
  c <> name -> cell self' c eid = cell self c eid.
Proof.
  intros Hadd Hc.
  destruct (add_cfg_col_inv _ _ _ _ _ _ Hadd) as (_ & _ & _ & _ & values & _ & Hdf).
  unfold cell. rewrite Hdf. unfold df_setcol. simpl. rewrite dict_get_set.
  now destruct (string_dec c name).
Qed.

(** After [add_artifact], the artifact holds the function's value at
    every run, and that is what resolution returns for its name. *)
Lemma add_artifact_value self name f w self' w' :
  add_artifact self name f w = (Ok self', w') ->
  forall eid, In eid (eids self) ->
    exists v, run_callback self f eid = Ok v /\
              artifact_value self' name eid = Some v /\
              kwargs_value self' name eid = Ok v.
Proof.
  intros Hadd eid He.
  destruct (add_artifact_inv _ _ _ _ _ _ Hadd)
    as (Hne & Hcol & Hdf & _ & _ & per_run & Hruns & Harts).
  pose proof (odict_of_runs_get _ _ _ _ Hruns eid) as Hget.
  destruct (in_dec Z.eq_dec eid (eids self)); [|contradiction].
  destruct (run_callback self f eid) as [v| |] eqn:Ev.
  2,3: exfalso;
       assert (Hk : In eid (keys per_run))
         by (apply (odict_of_runs_keys _ _ _ _ Hruns); now left);
       apply (dict_mem_keys Z.eq_dec) in Hk; unfold dict_mem in Hk;
       rewrite Hget in Hk; discriminate.
  exists v. split; [reflexivity|].
  assert (Hav : artifact_value self' name eid = Some v).
  { unfold artifact_value. rewrite Harts, dict_get_set.
    now destruct (string_dec name name). }
  split; [assumption|]. unfold kwargs_value.
  apply String.eqb_neq in Hne. rewrite Hne.
  destruct (in_columns name (cfg_df self')) eqn:E.
  { apply in_columns_true in E. rewrite Hdf in E. contradiction. }
  unfold artifact_value in Hav.
  destruct (dict_get string_dec name (artifacts self')) as [pr|]; [|discriminate].
  now rewrite Hav.
Qed.

Lemma resolve_spec_unknown self arg eid :
  ~ In arg (_argnames self) -> resolve_spec self arg eid = None.
Proof.
  unfold _argnames, resolve_spec. simpl. intros H.
  destruct (string_dec arg "eid") as [->|Hne]; [exfalso; auto|].
  destruct (in_dec string_dec arg (columns (cfg_df self)));
    [exfalso; apply H; right; apply in_or_app; auto|].
  destruct (in_dec string_dec arg (keys (artifacts self)));
    [exfalso; apply H; right; apply in_or_app; auto|reflexivity].
Qed.

Lemma dict_get_app {K V : Type} (dec : forall a b : K, {a = b} + {a <> b})
  (k : K) (a b : dict K V) :
  dict_get dec k (a ++ b)
  = match dict_get dec k a with Some v => Some v | None => dict_get dec k b end.
Proof.
  induction a as [|[k0 v0] a IH]; simpl; [reflexivity|].
  now destruct (dec k k0).
Qed.

(** The arguments [do_for_eid] calls the function with: the supplied
    keyword values first, the resolution of the other declared names
    after; no name twice. *)
Lemma do_for_eid_args self eid f extra w :
  parser_wf self = true -> In eid (eids self) ->
  rebinds ["self"; "eid"; "f"] extra = false ->
  exists kw,
    kwargs_loop self (free_argnames f extra) eid [] = Ok kw /\
    do_for_eid self eid f extra w = (call f (kw ++ extra), w) /\
    forall k,
      sget k (kw ++ extra)
      = match sget k extra with
        | Some v => Some v
        | None => if in_dec string_dec k (argnames f)
                  then resolve_spec self k eid else None
        end.
Proof.
  intros Hwf He Hre.
  destruct (kwargs_loop_get self Hwf eid He (free_argnames f extra) [])
    as (kw & Hkw & Hin & Hout).
  assert (Hget : forall k, sget k kw
                           = if in_dec string_dec k (free_argnames f extra)
                             then resolve_spec self k eid else None).
  { intros k. destruct (in_dec string_dec k (free_argnames f extra)) as [Hf|Hf].
    - destruct (in_dec string_dec k (_argnames self)) as [Ha|Ha]; [now apply Hin|].
      rewrite Hout by tauto. symmetry. now apply resolve_spec_unknown.
    - rewrite Hout by tauto. reflexivity. }
  assert (Hfree : forall k, In k (free_argnames f extra) <->
                            In k (argnames f) /\ sget k extra = None).
  { intros k. unfold free_argnames. rewrite filter_In, negb_true_iff.
    unfold dict_mem. destruct (sget k extra); intuition discriminate. }
  exists kw. split; [assumption|]. split.
  - unfold do_for_eid, _kwargs, bind, lift. rewrite Hre, Hkw. unfold call_with.
    destruct (existsb (fun k => smem k kw) (keys extra)) eqn:E; [|reflexivity].
    exfalso. apply existsb_exists in E. destruct E as (k & Hk & Hm).
    unfold dict_mem in Hm. rewrite Hget in Hm.
    destruct (in_dec string_dec k (free_argnames f extra)) as [Hf|Hf]; [|discriminate].
    apply Hfree in Hf. destruct Hf as [_ Hf].
    apply (dict_mem_keys string_dec) in Hk. unfold dict_mem in Hk.
    rewrite Hf in Hk. discriminate.
  - intros k. rewrite dict_get_app, Hget.
    destruct (sget k extra) as [v|] eqn:Ex.
    + destruct (in_dec string_dec k (free_argnames f extra)) as [Hf|Hf]; [|reflexivity].
      apply Hfree in Hf. destruct Hf as [_ Hf]. congruence.
    + destruct (in_dec string_dec k (free_argnames f extra)) as [Hf|Hf];
        destruct (in_dec string_dec k (argnames f)) as [Ha|Ha]; try reflexivity.
      * now destruct (resolve_spec self k eid).
      * apply Hfree in Hf. tauto.
      * exfalso. apply Hf, Hfree. auto.
Qed.

Lemma do_for_eid_pure self eid f extra w :
  rebinds ["self"; "eid"; "f"] extra = false ->
  do_for_eid self eid f extra w
  = (obind (kwargs_loop self (free_argnames f extra) eid [])
           (fun kw => call_with f kw extra), w).
Proof.
  intros Hre. unfold do_for_eid, _kwargs, bind, lift. rewrite Hre.
  now destruct (kwargs_loop self (free_argnames f extra) eid []).
Qed.

Lemma do_for_eid_rebinds self eid f extra w :
  rebinds ["self"; "eid"; "f"] extra = true ->
  do_for_eid self eid f extra w
  = (Raise (TypeError "do_for_eid() got multiple values for argument"), w).
Proof. intros Hre. unfold do_for_eid. now rewrite Hre. Qed.

Lemma rebinds_split extra :
  rebinds ["self"; "eid"; "f"] extra
  = rebinds ["self"; "f"] extra || smem "eid" extra.
Proof.
  unfold rebinds. simpl.
  destruct (smem "self" extra), (smem "eid" extra), (smem "f" extra); reflexivity.
Qed.

Lemma mapM_nth {A B : Type} (body : A -> M B) (pure : A -> outcome B) :
  (forall a w, body a w = (pure a, w)) ->
  forall l w bs w',
    mapM body l w = (Ok bs, w') ->
    w' = w /\ List.length bs = List.length l /\
    forall i a, nth_error l i = Some a ->
                exists b, nth_error bs i = Some b /\ body a w = (Ok b, w).
Proof.
  intros Hb l w bs w' H. rewrite (mapM_pure body pure Hb) in H.
  injection H as H <-. split; [reflexivity|]. split; [exact (omap_length _ _ _ H)|].
  intros i a Hi. destruct (omap_nth _ _ _ H i a Hi) as (b & Hbs & Hp).
  exists b. split; [assumption|]. now rewrite Hb, Hp.
Qed.

(** Resolution raises nothing but the [KeyError] of the run id. *)
Lemma kwargs_value_cases self arg eid :
  (exists v, kwargs_value self arg eid = Ok v) \/
  kwargs_value self arg eid = Raise (KeyError (str_of_Z eid)).
Proof.
  unfold kwargs_value.
  destruct (String.eqb arg "eid"); [eauto|].
  destruct (in_columns arg (cfg_df self)) eqn:Ec.
  - apply in_columns_true in Ec. unfold df_getitem.
    pose proof (filter_label_present arg (df_columns (cfg_df self)) Ec) as Hne.
    destruct (filter (fun c => String.eqb (fst c) arg) (df_columns (cfg_df self)))
      as [|c [|c' cs]]; simpl; [congruence| |now right].
    unfold series_loc.
    destruct (map snd (filter (fun r => Z.eqb (fst r) eid)
                              (combine (df_index (cfg_df self)) (snd c))))
      as [|v [|v' vs]]; eauto.
  - destruct (dict_get string_dec arg (artifacts self)) as [pr|]; [|eauto].
    destruct (dict_get Z.eq_dec eid pr); eauto.
Qed.

Lemma kwargs_loop_cases self eid names : forall acc,
  (exists kw, kwargs_loop self names eid acc = Ok kw /\
              forall arg, In arg names -> In arg (_argnames self) ->
                          exists v, kwargs_value self arg eid = Ok v) \/
  kwargs_loop self names eid acc = Raise (KeyError (str_of_Z eid)).
Proof.
  induction names as [|a names IH]; intros acc; cbn [kwargs_loop].
  - left. exists acc. split; [reflexivity|intros ? []].
  - destruct (in_dec string_dec a (_argnames self)) as [Ha|Ha].
    + destruct (kwargs_value_cases self a eid) as [[v Hv]|Hv]; rewrite Hv; cbn [obind];
        [|now right].
      destruct (IH (sset a v acc)) as [(kw & Hkw & Hall)|Hr]; [|now right].
      left. exists kw. split; [assumption|].
      intros arg [<-|Hin] Harg; eauto.
    + destruct (IH acc) as [(kw & Hkw & Hall)|Hr]; [|now right].
      left. exists kw. split; [assumption|].
      intros arg [<-|Hin] Harg; [contradiction|eauto].
Qed.

Lemma two_runs_init :
  init two_runs_basedir None no_effects = (Ok two_runs_parser, two_runs_effects).
Proof. reflexivity. Qed.

Lemma keys_set_new {K V : Type} (dec : forall a b : K, {a = b} + {a <> b})
  (k : K) (v : V) (d : dict K V) :
  ~ In k (keys d) -> keys (dict_set dec k v d) = keys d ++ [k].
Proof.
  induction d as [|[k0 v0] d IH]; simpl; [reflexivity|]. intros H.
  destruct (dec k k0) as [->|Hne]; [exfalso; auto|].
  simpl. f_equal. apply IH. tauto.
Qed.

(** A collection the code built is well formed as soon as its run ids
    and its column labels are pairwise distinct. *)
Lemma built_wf self :
  built self -> NoDup (eids self) -> NoDup (columns (cfg_df self)) ->
  parser_wf self = true.
Proof.
  induction 1 as [bd pd w0 self w Hinit
                 |self name f w self' w' Hb IH Hadd
                 |self name f w self' w' Hb IH Hadd]; intros Hids Hcols.
  - exact (init_wf bd pd w0 self w Hinit Hids Hcols).
  - destruct (add_artifact_inv _ _ _ _ _ _ Hadd) as (_ & _ & Hdf & He & _).
    rewrite Hdf in Hcols. rewrite He in Hids.
    exact (add_artifact_wf self name f w self' w' (IH Hids Hcols) Hadd).
  - destruct (add_cfg_col_inv _ _ _ _ _ _ Hadd) as (_ & _ & _ & He & values & _ & Hdf).
    rewrite He in Hids. rewrite Hdf in Hcols.
    apply (add_cfg_col_wf self name f w self' w'); [|exact Hadd].
    apply IH; [exact Hids|].
    change (NoDup (keys (dict_set string_dec name values (df_columns (cfg_df self)))))
      in Hcols.
    change (NoDup (keys (df_columns (cfg_df self)))).
    destruct (in_dec string_dec name (keys (df_columns (cfg_df self)))) as [Hin|Hin].
    + rewrite (keys_set_existing string_dec name values _ Hin) in Hcols. exact Hcols.
    + rewrite (keys_set_new string_dec name values _ Hin) in Hcols.
      exact (NoDup_app_remove_r _ _ Hcols).
Qed.

(* ================================================================== *)
(** * The claims about flatten_json *)
(* ================================================================== *)

Ltac solve_nodup := apply (distinct_NoDup string_dec); reflexivity.

(** C6, as stated, fails: in [{"a": {"b": 1}, "a__b": {"c": 2}}] the
    path a.b ends at the leaf 1, the first pass writes it under the key
    "a__b", and the same pass then deletes that key when it expands the
    original entry "a__b".  The result has the single key "a__b__c". *)
Lemma flatten_json_drops_path :
  ~ (forall x : sdict, NoDup (keys x) -> keeps_every_path default_sep x).
Proof.
  intros H.
  assert (Hnd : NoDup (keys shadowed_example)) by (unfold shadowed_example; solve_nodup).
  specialize (H shadowed_example Hnd 3 [("a__b__c", PInt 2)] eq_refl
                ["a"; "b"] (PInt 1)).
  assert (Hfalse : smem (path_key default_sep ["a"; "b"]) [("a__b__c", PInt 2)] = false)
    by reflexivity.
  rewrite H in Hfalse; [discriminate|discriminate|reflexivity|reflexivity].
Qed.

(** C6, amended: for every mapping in which no dict or list sits under a
    composite key that another path also has, flatten_json returns a
    mapping without dict or list values, in which the composite key
    k1<sep>k2<sep>...<sep>kn of every path that ends at a leaf is a key,
    and of which every entry is a leaf of the input under its composite
    key.  The two examples of the specification hold as written. *)
Theorem flatten_json_paths :
  (forall (sep : string) (x : sdict),
      NoDup (keys x) -> collision_free sep x = true ->
      exists r,
        (forall fuel, dict_depth x < fuel -> flatten_json fuel x sep = Ok r) /\
        is_flat r = true /\
        (forall p s,
            p <> [] -> lookup_path (PDict x) p = Some s -> is_nested s = false ->
            smem (path_key sep p) r = true) /\
        (forall k s, In (k, s) r -> In (k, s) (leaves sep x))) /\
  flatten [("a", PDict [("b", PInt 1); ("c", PInt 2)])]
  = Ok [("a__b", PInt 1); ("a__c", PInt 2)] /\
  flatten [("a", PList [PInt 10; PInt 20])]
  = Ok [("a__0", PInt 10); ("a__1", PInt 20)].
Proof.
  split; [|split; reflexivity].
  intros sep x Hnd Hcf.
  destruct (flatten_loop_terminates sep (S (dict_depth x)) x Hnd) as [r Hr]; [lia|].
  pose proof (flatten_loop_flat sep _ x r Hr) as Hflat.
  destruct (flatten_loop_paths sep _ x r
              (collision_free_no_nested_collision sep x Hcf) Hr) as [Hmem Hnodes].
  exists r. split; [|split; [assumption|split]].
  - intros fuel Hfuel. unfold flatten_json.
    apply (flatten_loop_fuel_mono sep (S (dict_depth x))); [assumption|lia].
  - intros p s Hp Hlook Hs. apply Hmem.
    now apply (lookup_path_leaf_key sep x p s).
  - intros k s Hin. apply filter_In. split.
    + apply node_all_nodes. exact (Hnodes (k, s) Hin).
    + pose proof (is_flat_In r (k, s) Hflat Hin) as Hs. simpl in *. now rewrite Hs.
Qed.

Lemma flatten_json_paths_witness :
  NoDup (keys nested_example) /\ collision_free default_sep nested_example = true /\
  exists r,
    (forall fuel, dict_depth nested_example < fuel ->
                  flatten_json fuel nested_example default_sep = Ok r) /\
    is_flat r = true /\
    (forall p s,
        p <> [] -> lookup_path (PDict nested_example) p = Some s ->
        is_nested s = false -> smem (path_key default_sep p) r = true) /\
    (forall k s, In (k, s) r -> In (k, s) (leaves default_sep nested_example)).
Proof.
  assert (Hnd : NoDup (keys nested_example)) by (unfold nested_example; solve_nodup).
  split; [exact Hnd|]. split; [reflexivity|].
  exact (proj1 flatten_json_paths default_sep nested_example Hnd eq_refl).
Defined.

(** C7: flatten_json is idempotent.  For every mapping [x], flattening
    returns some [r], and flattening [r] returns [r] itself. *)
Theorem flatten_json_idempotent (sep : string) (x : sdict) :
  NoDup (keys x) ->
  exists r,
    (forall fuel, dict_depth x < fuel -> flatten_json fuel x sep = Ok r) /\
    (forall fuel, 0 < fuel -> flatten_json fuel r sep = Ok r).
Proof.
  intros Hnd.
  destruct (flatten_loop_terminates sep (S (dict_depth x)) x Hnd) as [r Hr]; [lia|].
  exists r. split.
  - intros fuel Hfuel. unfold flatten_json.
    apply (flatten_loop_fuel_mono sep (S (dict_depth x))); [assumption|lia].
  - intros [|fuel] Hfuel; [lia|]. unfold flatten_json.
    apply flatten_loop_of_flat. exact (flatten_loop_flat sep _ x r Hr).
Qed.

Lemma flatten_json_idempotent_witness :
  NoDup (keys nested_example) /\
  exists r,
    (forall fuel, dict_depth nested_example < fuel ->
                  flatten_json fuel nested_example default_sep = Ok r) /\
    (forall fuel, 0 < fuel -> flatten_json fuel r default_sep = Ok r).
Proof.
  assert (Hnd : NoDup (keys nested_example)) by (unfold nested_example; solve_nodup).
  split; [exact Hnd|].
  exact (flatten_json_idempotent default_sep nested_example Hnd).
Defined.

(** C8: flatten_json terminates.  A pass over a mapping returns, and when
    it expanded something the mapping it leaves is strictly less deep;
    so the loop ends within depth + 1 passes, whatever fuel above that
    it is given. *)
Theorem flatten_json_terminates (sep : string) (x : sdict) :
  NoDup (keys x) ->
  (exists d' x',
      pass_items sep x true x = Ok (d', x') /\ NoDup (keys x') /\
      (d' = false -> dict_depth x' < dict_depth x)) /\
  (exists r, forall fuel, dict_depth x < fuel -> flatten_json fuel x sep = Ok r).
Proof.
  intros Hnd. split.
  - destruct (pass_items_decreases sep x Hnd) as (d' & x' & Hpass & Hnd' & _ & Hdec).
    exists d', x'. auto.
  - destruct (flatten_loop_terminates sep (S (dict_depth x)) x Hnd) as [r Hr]; [lia|].
    exists r. intros fuel Hfuel. unfold flatten_json.
    apply (flatten_loop_fuel_mono sep (S (dict_depth x))); [assumption|lia].
Qed.

Lemma flatten_json_terminates_witness :
  NoDup (keys nested_example) /\
  (exists d' x',
      pass_items default_sep nested_example true nested_example = Ok (d', x') /\
      NoDup (keys x') /\
      (d' = false -> dict_depth x' < dict_depth nested_example)) /\
  (exists r, forall fuel, dict_depth nested_example < fuel ->
                          flatten_json fuel nested_example default_sep = Ok r).
Proof.
  assert (Hnd : NoDup (keys nested_example)) by (unfold nested_example; solve_nodup).
  split; [exact Hnd|].
  exact (flatten_json_terminates default_sep nested_example Hnd).
Defined.

(* ================================================================== *)
(** * The claims about name resolution and derived entries *)
(* ================================================================== *)

(** C5, as stated, fails on collections the constructor returns.  For a
    configuration with the keys "A" and "a" the table has two columns
    labelled "a"; [self.cfg_df["a"]] is then a frame and its lookup by
    the run id raises [KeyError].  For the directories "1" and "01" the
    run id 1 labels two rows, and the lookup returns the series of both
    cells instead of that run's value. *)
Lemma kwargs_fails_on_shared_labels :
  ~ resolves_every_name /\
  (exists self w,
      init shared_label_basedir None no_effects = (Ok self, w) /\
      In 1%Z (eids self) /\ In "a" (columns (cfg_df self)) /\
      _kwargs self ["a"] 1%Z w = (Raise (KeyError "1"), w)) /\
  (exists self w,
      init shared_id_basedir None no_effects = (Ok self, w) /\
      In 1%Z (eids self) /\ In "lr" (columns (cfg_df self)) /\
      _kwargs self ["lr"] 1%Z w = (Ok [("lr", PSeries [PInt 1; PInt 1])], w)).
Proof.
  split; [|split].
  - intros H.
    destruct (H shared_label_basedir None _ _ eq_refl ["a"] 1%Z (or_introl eq_refl))
      as (kw & Hkw & _).
    discriminate Hkw.
  - eexists. eexists. split; [reflexivity|]. simpl. auto.
  - eexists. eexists. split; [reflexivity|]. simpl. auto.
Qed.

(** C5, amended: in a collection that the constructor, [add_artifact]
    and [add_cfg_col] built and whose run ids are pairwise distinct and
    whose column labels are pairwise distinct, for a run of the
    collection and any list of argument names [_kwargs] returns a
    mapping, without raising and without effect, in which "eid" is the
    run id, any other name that is a config column is the cell of that
    column in the row of that run, any other name that is an artifact is
    that run's artifact value, and every other name is absent: the
    mapping is the precedence of section 4.6 restricted to the names
    asked for. *)
Theorem kwargs_resolution
  (self : FileStorageParser) (names : list string) (eid : Z) (w : effects) :
  built self -> NoDup (eids self) -> NoDup (columns (cfg_df self)) ->
  In eid (eids self) ->
  exists kw,
    _kwargs self names eid w = (Ok kw, w) /\
    (forall arg, sget arg kw
                 = if in_dec string_dec arg names
                   then resolve_spec self arg eid else None) /\
    (In "eid" names -> sget "eid" kw = Some (PInt eid)) /\
    (forall arg, In arg names -> arg <> "eid" ->
                 In arg (columns (cfg_df self)) ->
                 exists col i v,
                   In (arg, col) (df_columns (cfg_df self)) /\
                   nth_error (df_index (cfg_df self)) i = Some eid /\
                   nth_error col i = Some v /\
                   cell self arg eid = Some v /\ sget arg kw = Some v) /\
    (forall arg, In arg names -> arg <> "eid" ->
                 ~ In arg (columns (cfg_df self)) ->
                 In arg (keys (artifacts self)) ->
                 exists v, artifact_value self arg eid = Some v /\
                           sget arg kw = Some v) /\
    (forall arg, arg <> "eid" ->
                 ~ In arg (columns (cfg_df self)) ->
                 ~ In arg (keys (artifacts self)) ->
                 sget arg kw = None).
Proof.
  intros Hbuilt Hids Hcols He.
  pose proof (built_wf self Hbuilt Hids Hcols) as Hwf.
  destruct (kwargs_loop_get self Hwf eid He names []) as (kw & Hkw & Hin & Hout).
  assert (Hspec : forall arg,
             sget arg kw = if in_dec string_dec arg names
                           then resolve_spec self arg eid else None).
  { intros arg. destruct (in_dec string_dec arg names) as [Hn|Hn].
    - destruct (in_dec string_dec arg (_argnames self)) as [Ha|Ha]; [now apply Hin|].
      rewrite Hout by tauto. unfold resolve_spec, _argnames in *. simpl in Ha.
      destruct (string_dec arg "eid") as [->|Hne]; [exfalso; auto|].
      destruct (in_dec string_dec arg (columns (cfg_df self)));
        [exfalso; apply Ha; right; apply in_or_app; auto|].
      destruct (in_dec string_dec arg (keys (artifacts self)));
        [exfalso; apply Ha; right; apply in_or_app; auto|reflexivity].
    - rewrite Hout by tauto. reflexivity. }
  exists kw. split; [unfold _kwargs, lift; now rewrite Hkw|].
  split; [exact Hspec|]. split; [|split; [|split]].
  - intros Hn. rewrite Hspec. destruct (in_dec string_dec "eid" names); [|contradiction].
    reflexivity.
  - intros arg Hn Hne Hc. rewrite Hspec.
    destruct (in_dec string_dec arg names) as [_|]; [|contradiction].
    unfold resolve_spec.
    destruct (string_dec arg "eid") as [|_]; [contradiction|].
    destruct (in_dec string_dec arg (columns (cfg_df self))) as [_|]; [|contradiction].
    destruct (wf_cell self Hwf arg eid Hc He)
      as (col & i & v & Hcol & Hi & Hv & _ & _ & Hcell).
    exists col, i, v. rewrite Hcell. auto.
  - intros arg Hn Hne Hc Ha. rewrite Hspec.
    destruct (in_dec string_dec arg names); [|contradiction].
    unfold resolve_spec.
    destruct (string_dec arg "eid"); [contradiction|].
    destruct (in_dec string_dec arg (columns (cfg_df self))); [contradiction|].
    destruct (in_dec string_dec arg (keys (artifacts self))); [|contradiction].
    destruct (wf_artifact self Hwf arg eid Ha He) as (per_run & v & _ & _ & Hav).
    exists v. rewrite Hav. auto.
  - intros arg Hne Hc Ha. rewrite Hspec.
    destruct (in_dec string_dec arg names); [|reflexivity].
    unfold resolve_spec.
    destruct (string_dec arg "eid"); [contradiction|].
    destruct (in_dec string_dec arg (columns (cfg_df self))); [contradiction|].
    destruct (in_dec string_dec arg (keys (artifacts self))); [contradiction|].
    reflexivity.
Qed.

Lemma kwargs_resolution_witness :
  built two_runs_parser /\ NoDup (eids two_runs_parser) /\
  NoDup (columns (cfg_df two_runs_parser)) /\ In 2%Z (eids two_runs_parser) /\
  exists kw,
    _kwargs two_runs_parser ["lr"; "eid"; "hist"; "unknown"] 2%Z no_effects
    = (Ok kw, no_effects) /\
    sget "eid" kw = Some (PInt 2) /\ sget "lr" kw = Some (PInt 3) /\
    sget "hist" kw = Some (PList [PInt 7]) /\ sget "net_depth" kw = None /\
    sget "unknown" kw = None.
Proof.
  assert (Hb : built two_runs_parser).
  { apply (built_init two_runs_basedir None no_effects two_runs_parser two_runs_effects).
    reflexivity. }
  assert (Hids : NoDup (eids two_runs_parser))
    by (apply (distinct_NoDup Z.eq_dec); reflexivity).
  assert (Hcols : NoDup (columns (cfg_df two_runs_parser)))
    by (apply (distinct_NoDup string_dec); reflexivity).
  assert (He : In 2%Z (eids two_runs_parser)) by (simpl; auto).
  split; [exact Hb|]. split; [exact Hids|]. split; [exact Hcols|]. split; [exact He|].
  destruct (kwargs_resolution two_runs_parser ["lr"; "eid"; "hist"; "unknown"]
              2%Z no_effects Hb Hids Hcols He)
    as (kw & Hkw & Hspec & _).
  exists kw. split; [exact Hkw|].
  rewrite !Hspec. repeat split; reflexivity.
Defined.

(** C9: [add_artifact] raises the reserved-name exception for "eid" and
    the collision exception for the name of a config column;
    [add_cfg_col] raises the reserved-name exception for "eid", the
    collision exception for the name of an artifact, and for the name of
    an existing config column (the user function returning for every
    run) it issues the warning, raises nothing and replaces the column
    in place. *)
Theorem add_name_errors :
  (forall self f w,
      add_artifact self "eid" f w = (Raise ExcCannotUseEid, w)) /\
  (forall self name f w,
      name <> "eid" -> In name (columns (cfg_df self)) ->
      add_artifact self name f w = (Raise (ExcAlreadyConfigName name), w)) /\
  (forall self f w,
      add_cfg_col self "eid" f w = (Raise ExcCannotUseEid, w)) /\
  (forall self name f w,
      name <> "eid" -> In name (keys (artifacts self)) ->
      add_cfg_col self name f w = (Raise (ExcAlreadyArtifactName name), w)) /\
  (forall self name f w,
      name <> "eid" -> ~ In name (keys (artifacts self)) ->
      In name (columns (cfg_df self)) ->
      (forall eid, In eid (eids self) -> exists v, run_callback self f eid = Ok v) ->
      exists values self',
        omap (run_callback self f) (eids self) = Ok values /\
        add_cfg_col self name f w
        = (Ok self', {| opened := opened w;
                        warned := warned w ++ [overwrite_warning] |}) /\
        columns (cfg_df self') = columns (cfg_df self) /\
        df_getcol name (cfg_df self') = Ok values /\
        artifacts self' = artifacts self).
Proof.
  split; [exact add_artifact_eid|].
  split; [exact add_artifact_column|].
  split; [exact add_cfg_col_eid|].
  split; [exact add_cfg_col_artifact|].
  exact add_cfg_col_overwrite.
Qed.

Lemma example_callback_returns :
  forall eid, In eid (eids example_parser) ->
              exists v, run_callback example_parser example_callback eid = Ok v.
Proof.
  intros eid [<-|[<-|[]]]; eexists; reflexivity.
Defined.

Lemma add_name_errors_witness :
  "lr" <> "eid" /\ ~ In "lr" (keys (artifacts example_parser)) /\
  In "lr" (columns (cfg_df example_parser)) /\
  exists values self',
    omap (run_callback example_parser example_callback) (eids example_parser)
    = Ok values /\
    add_cfg_col example_parser "lr" example_callback no_effects
    = (Ok self', {| opened := []; warned := [overwrite_warning] |}) /\
    columns (cfg_df self') = columns (cfg_df example_parser) /\
    df_getcol "lr" (cfg_df self') = Ok values /\
    artifacts self' = artifacts example_parser.
Proof.
  assert (H1 : "lr" <> "eid") by discriminate.
  assert (H2 : ~ In "lr" (keys (artifacts example_parser)))
    by (simpl; intuition discriminate).
  assert (H3 : In "lr" (columns (cfg_df example_parser))) by (simpl; auto).
  split; [exact H1|]. split; [exact H2|]. split; [exact H3|].
  exact (proj2 (proj2 (proj2 (proj2 add_name_errors)))
           example_parser "lr" example_callback no_effects
           H1 H2 H3 example_callback_returns).
Defined.

(** C10: for a name that is already an artifact name, is not "eid" and
    is not a config column (the user function returning for every run),
    [add_artifact] returns without error and without warning, and the
    artifact's per-run mapping is the fresh one: the function's value at
    every run and nothing else; every other artifact and the table are
    as before.  [add_cfg_col] on an existing column, in contrast, adds
    a warning. *)
Theorem add_artifact_replaces_silently :
  (forall self name f w,
      name <> "eid" -> ~ In name (columns (cfg_df self)) ->
      In name (keys (artifacts self)) ->
      (forall eid, In eid (eids self) -> exists v, run_callback self f eid = Ok v) ->
      exists per_run self',
        add_artifact self name f w = (Ok self', w) /\
        keys (artifacts self') = keys (artifacts self) /\
        dict_get string_dec name (artifacts self') = Some per_run /\
        (forall n, n <> name ->
                   dict_get string_dec n (artifacts self')
                   = dict_get string_dec n (artifacts self)) /\
        (forall eid, In eid (eids self) ->
                     exists v, run_callback self f eid = Ok v /\
                               dict_get Z.eq_dec eid per_run = Some v) /\
        (forall eid, ~ In eid (eids self) -> dict_get Z.eq_dec eid per_run = None) /\
        cfg_df self' = cfg_df self) /\
  (forall self name f w,
      name <> "eid" -> ~ In name (keys (artifacts self)) ->
      In name (columns (cfg_df self)) ->
      (forall eid, In eid (eids self) -> exists v, run_callback self f eid = Ok v) ->
      exists self',
        add_cfg_col self name f w
        = (Ok self', {| opened := opened w;
                        warned := warned w ++ [overwrite_warning] |})).
Proof.
  split; [exact add_artifact_overwrite|].
  intros self name f w Hne Ha Hc Hf.
  destruct (add_cfg_col_overwrite self name f w Hne Ha Hc Hf)
    as (values & self' & _ & Hadd & _).
  exists self'. exact Hadd.
Qed.

Lemma add_artifact_replaces_silently_witness :
  "hist" <> "eid" /\ ~ In "hist" (columns (cfg_df example_parser)) /\
  In "hist" (keys (artifacts example_parser)) /\
  exists per_run self',
    add_artifact example_parser "hist" example_callback no_effects
    = (Ok self', no_effects) /\
    dict_get string_dec "hist" (artifacts self') = Some per_run /\
    dict_get Z.eq_dec 1%Z per_run = Some (PList [PInt 1]).
Proof.
  assert (H1 : "hist" <> "eid") by discriminate.
  assert (H2 : ~ In "hist" (columns (cfg_df example_parser)))
    by (simpl; intuition discriminate).
  assert (H3 : In "hist" (keys (artifacts example_parser))) by (simpl; auto).
  split; [exact H1|]. split; [exact H2|]. split; [exact H3|].
  destruct (proj1 add_artifact_replaces_silently
              example_parser "hist" example_callback no_effects
              H1 H2 H3 example_callback_returns)
    as (per_run & self' & Hadd & _ & Hget & _ & Hruns & _).
  exists per_run, self'. split; [exact Hadd|]. split; [exact Hget|].
  destruct (Hruns 1%Z (or_introl eq_refl)) as (v & Hv & Hg).
  rewrite Hg. f_equal.
  assert (E : run_callback example_parser example_callback 1%Z = Ok (PList [PInt 1]))
    by reflexivity.
  rewrite E in Hv. now injection Hv.
Defined.

(* ================================================================== *)
(** * The claims about construction: discovery, loading, namespaces *)
(* ================================================================== *)

(** C3, as stated, fails: [__init__] calls [_artifacts], whose dict
    comprehension calls [_load_file] for every file name and every run.
    Constructing the collection over one run with the artifact file
    hist.json opens that file. *)
Lemma init_loads_eagerly : ~ loads_lazily.
Proof.
  intros H.
  specialize (H one_run_basedir None
                {| basedir := one_run_basedir; processed_dirname := None;
                   eids := [1%Z];
                   cfg_df := {| df_index := [1%Z];
                                df_columns := [("lr", [PInt 1])] |};
                   artifacts := [("hist", [(1%Z, PList [PInt 5; PInt 6])])] |}
                {| opened := [["1"; "config.json"]; ["1"; "hist.json"]];
                   warned := [] |}
                eq_refl).
  discriminate H.
Qed.

(** C3, amended: every artifact file of every run is opened while the
    collection is constructed; every artifact of the collection is the
    content of a file found in the run directories, of which the
    artifact's name is the stem: for every run the stored value is what
    that run's file of that name holds, [None] when the run has no such
    file; an access through [_kwargs] returns that content and opens no
    file, however often it is repeated; and a file whose stem no other
    artifact file shares is the file its artifact holds. *)
Theorem artifacts_loaded_at_construction
  (bd : direntries) (pd : option string) (w0 : effects)
  (self : FileStorageParser) (w : effects) :
  init bd pd w0 = (Ok self, w) ->
  (forall eid fs f,
      In eid (eids self) -> run_filenames bd pd eid = Ok fs -> In f fs ->
      In (_eid_dir pd eid ++ [f]) (opened w)) /\
  (forall name,
      In name (keys (artifacts self)) ->
      exists eid0 fs0 f,
        In eid0 (eids self) /\ run_filenames bd pd eid0 = Ok fs0 /\ In f fs0 /\
        fst (splitext f) = name /\
        forall eid,
          In eid (eids self) ->
          artifact_value self name eid = Some (load_value bd pd eid f) /\
          (name <> "eid" -> ~ In name (columns (cfg_df self)) ->
           forall w1,
             _kwargs self [name] eid w1
             = (Ok [(name, load_value bd pd eid f)], w1))) /\
  (forall eid0 fs0 f,
      In eid0 (eids self) -> run_filenames bd pd eid0 = Ok fs0 -> In f fs0 ->
      (forall eid' fs' f',
          In eid' (eids self) -> run_filenames bd pd eid' = Ok fs' -> In f' fs' ->
          fst (splitext f') = fst (splitext f) -> f' = f) ->
      forall eid,
        In eid (eids self) ->
        artifact_value self (fst (splitext f)) eid = Some (load_value bd pd eid f)) /\
  (forall names eid w1,
      opened (snd (_kwargs self names eid w1)) = opened w1).
Proof.
  intros Hinit.
  destruct (init_inv bd pd w0 self w Hinit)
    as (ids & df & w1 & fs' & Hd & Hc & Hf & Hl & He & Hdf).
  split; [|split; [|split; [|reflexivity]]].
  3:{ intros eid0 fs0 f He0 Hr0 Hf0 Huniq eid Heid. rewrite He in *.
      destruct (load_artifacts_value bd pd ids f fs' _ _ _ _ Hl) as (pr & Hpr & Hq).
      - intros f' Hf' Hs. apply (artifact_filenames_In bd pd ids fs' Hf) in Hf'.
        destruct Hf' as (eid' & fs1 & He' & Hr' & Hin'). eauto.
      - left. apply (artifact_filenames_In bd pd ids fs' Hf). eauto.
      - unfold artifact_value. rewrite Hpr. now apply Hq. }
  - intros eid fs f Heid Hfs Hin. rewrite He in Heid.
    destruct (run_filenames_isfile bd pd eid fs f Hfs Hin) as [content Hwalk].
    apply (load_artifacts_opens bd pd ids _ _ _ _ _ Hl f eid content); auto.
    apply (artifact_filenames_In bd pd ids fs' Hf). eauto.
  - intros name Hn.
    destruct (dict_get string_dec name (artifacts self)) as [pr|] eqn:Eg.
    2:{ apply dict_get_None in Eg. contradiction. }
    destruct (load_artifacts_source bd pd ids fs' [] w1 (artifacts self) w Hl name pr Eg)
      as [Hacc|(f & Hfin & Hstem & Hval)]; [discriminate Hacc|].
    apply (artifact_filenames_In bd pd ids fs' Hf) in Hfin.
    destruct Hfin as (eid0 & fs0 & He0 & Hr0 & Hin0).
    exists eid0, fs0, f. rewrite He.
    split; [exact He0|]. split; [exact Hr0|]. split; [exact Hin0|].
    split; [exact Hstem|].
    intros eid Heid.
    assert (Hav : artifact_value self name eid = Some (load_value bd pd eid f)).
    { unfold artifact_value. rewrite Eg. now apply Hval. }
    split; [exact Hav|].
    intros Hne Hcol w2. exact (kwargs_artifact self name eid _ w2 Hne Hcol Hav).
Qed.

Lemma artifacts_loaded_at_construction_witness :
  exists self w,
    init one_run_basedir None no_effects = (Ok self, w) /\
    In (_eid_dir None 1%Z ++ ["hist.json"]) (opened w) /\
    artifact_value self "hist" 1%Z = Some (PList [PInt 5; PInt 6]) /\
    exists f,
      fst (splitext f) = "hist" /\
      artifact_value self "hist" 1%Z = Some (load_value one_run_basedir None 1%Z f) /\
      forall w1,
        _kwargs self ["hist"] 1%Z w1
        = (Ok [("hist", load_value one_run_basedir None 1%Z f)], w1).
Proof.
  eexists. eexists. split; [reflexivity|].
  match goal with
  | |- In _ (opened ?w) /\ artifact_value ?self _ _ = _ /\ _ =>
      destruct (artifacts_loaded_at_construction
                  one_run_basedir None no_effects self w eq_refl)
        as (Hopen & Hstored & _ & _)
  end.
  split; [apply (Hopen 1%Z ["hist.json"] "hist.json"); [now left|reflexivity|now left]|].
  split; [reflexivity|].
  destruct (Hstored "hist" (or_introl eq_refl)) as (eid0 & fs0 & f & _ & _ & _ & Hstem & Hall).
  destruct (Hall 1%Z (or_introl eq_refl)) as [Hav Hkw].
  exists f. split; [exact Hstem|]. split; [exact Hav|].
  apply Hkw; [discriminate|]. intros [H|[]]. discriminate H.
Defined.

(** C4: the collection that [__init__] returns for a run directory
    holding config.json with the key "lr" and the files lr.json and
    eid.json has the artifact names "lr", which is also a column, and
    "eid": [_artifacts] makes none of the checks [add_artifact] makes.
    The collection it returns for a configuration with the key "EID"
    has the column "eid": the assertion of [_config_df] runs before the
    column names are lowercased. *)
Theorem init_admits_name_collision :
  (exists self w,
      init colliding_basedir None no_effects = (Ok self, w) /\
      In "lr" (columns (cfg_df self)) /\
      In "lr" (keys (artifacts self)) /\
      In "eid" (keys (artifacts self)) /\
      ~ names_ok self) /\
  (exists self w,
      init uppercase_basedir None no_effects = (Ok self, w) /\
      In "eid" (columns (cfg_df self)) /\
      ~ names_ok self).
Proof.
  split.
  - eexists. eexists. split; [reflexivity|]. simpl.
    split; [auto|]. split; [auto|]. split; [auto|].
    intros (_ & _ & H). apply H. simpl. auto.
  - eexists. eexists. split; [reflexivity|]. simpl.
    split; [auto|]. intros (_ & H & _). apply H. simpl. auto.
Qed.

(** C2: on a base directory with the subdirectories "1" and "run2",
    discovery accepts "run2" (its name contains a digit) and then raises
    [ValueError] from [int("run2")]; so does the constructor. *)
Theorem discover_raises_on_nonliteral :
  discover misnamed_basedir = Raise (ValueError "run2") /\
  init misnamed_basedir None no_effects = (Raise (ValueError "run2"), no_effects).
Proof. split; reflexivity. Qed.

(** C1: without criteria, [eid_match] indexes the run ids with the
    Python scalar [True], which is not a mask: the result is the 1 x n
    array holding the index as its single row, not an index of the run
    ids. *)
Theorem eid_match_without_criteria
  (cell_eq : pyobj -> pyobj -> bool) (self : FileStorageParser) (w : effects) :
  eid_match cell_eq self [] w = (Ok (Array2D [df_index (cfg_df self)]), w) /\
  forall labels, eid_match cell_eq self [] w <> (Ok (Index1D labels), w).
Proof. split; [reflexivity|discriminate]. Qed.

(* ================================================================== *)
(** * Further properties of flatten_json *)
(* ================================================================== *)

(** X1: whatever the keys of the input, also when composite keys
    collide, a result of flatten_json has no dict or list value and
    every one of its entries is a leaf of the input under that leaf's
    composite key: flattening invents neither a key nor a value. *)
Theorem flatten_json_entries_are_leaves (sep : string) (x : sdict) (fuel : nat) (r : sdict) :
  flatten_json fuel x sep = Ok r ->
  is_flat r = true /\ forall k s, In (k, s) r -> In (k, s) (leaves sep x).
Proof.
  intros Hr. pose proof (flatten_loop_flat sep fuel x r Hr) as Hflat.
  split; [assumption|]. intros k s Hin. apply filter_In. split.
  - apply node_all_nodes. exact (flatten_loop_nodes sep fuel x r Hr (k, s) Hin).
  - pose proof (is_flat_In r (k, s) Hflat Hin) as Hs. simpl in *. now rewrite Hs.
Qed.

Lemma flatten_json_entries_are_leaves_witness :
  flatten_json 3 shadowed_example default_sep = Ok [("a__b__c", PInt 2)] /\
  is_flat [("a__b__c", PInt 2)] = true /\
  forall k s, In (k, s) [("a__b__c", PInt 2)] ->
              In (k, s) (leaves default_sep shadowed_example).
Proof.
  split; [reflexivity|].
  exact (flatten_json_entries_are_leaves default_sep shadowed_example 3
           [("a__b__c", PInt 2)] eq_refl).
Defined.

(** X2: a mapping that holds no leaf, only empty dicts and lists however
    nested, flattens to the empty mapping: empty containers leave no
    key behind. *)
Theorem flatten_json_without_leaves (sep : string) (x : sdict) :
  NoDup (keys x) -> leaves sep x = [] ->
  forall fuel, dict_depth x < fuel -> flatten_json fuel x sep = Ok [].
Proof.
  intros Hnd Hleaves fuel Hfuel.
  destruct (flatten_loop_terminates sep fuel x Hnd Hfuel) as [r Hr].
  unfold flatten_json. rewrite Hr. f_equal.
  destruct r as [|[k s] r]; [reflexivity|]. exfalso.
  assert (Hin : In (k, s) (leaves sep x)).
  { apply filter_In. split.
    - apply node_all_nodes. exact (flatten_loop_nodes sep fuel x _ Hr (k, s) (or_introl eq_refl)).
    - pose proof (is_flat_In _ (k, s) (flatten_loop_flat sep fuel x _ Hr)
                    (or_introl eq_refl)) as Hs.
      simpl in *. now rewrite Hs. }
  rewrite Hleaves in Hin. destruct Hin.
Qed.

Lemma flatten_json_without_leaves_witness :
  NoDup (keys hollow_example) /\ leaves default_sep hollow_example = [] /\
  forall fuel, dict_depth hollow_example < fuel ->
               flatten_json fuel hollow_example default_sep = Ok [].
Proof.
  assert (Hnd : NoDup (keys hollow_example)) by (apply (distinct_NoDup string_dec); reflexivity).
  split; [exact Hnd|]. split; [reflexivity|].
  exact (flatten_json_without_leaves default_sep hollow_example Hnd eq_refl).
Defined.

(** X3: when all composite keys of the input are distinct, the result
    binds the composite key of every path that ends at a leaf to that
    leaf's value. *)
Theorem flatten_json_binds_leaf_values (sep : string) (x : sdict) (fuel : nat) (r : sdict) :
  NoDup (map fst (all_nodes sep x)) ->
  flatten_json fuel x sep = Ok r ->
  forall p s,
    p <> [] -> lookup_path (PDict x) p = Some s -> is_nested s = false ->
    sget (path_key sep p) r = Some s.
Proof. exact (flatten_json_values sep x fuel r). Qed.

Lemma flatten_json_binds_leaf_values_witness :
  NoDup (map fst (all_nodes default_sep nested_example)) /\
  flatten_json 3 nested_example default_sep
  = Ok [("d", PInt 4); ("a__b", PInt 1); ("a__c__0", PInt 2); ("a__c__1", PInt 3)] /\
  sget "a__c__1" [("d", PInt 4); ("a__b", PInt 1); ("a__c__0", PInt 2); ("a__c__1", PInt 3)]
  = Some (PInt 3).
Proof.
  assert (Hnd : NoDup (map fst (all_nodes default_sep nested_example)))
    by (apply (distinct_NoDup string_dec); reflexivity).
  split; [exact Hnd|]. split; [reflexivity|].
  apply (flatten_json_binds_leaf_values default_sep nested_example 3 _ Hnd eq_refl
           ["a"; "c"; "1"] (PInt 3)); [discriminate|reflexivity|reflexivity].
Defined.

(** X4: a mapping without dict or list values is returned as it is,
    keys, values and order, by the first pass; and the first pass ends
    the loop only for such a mapping. *)
Theorem flatten_json_first_pass (sep : string) (x r : sdict) :
  flatten_json 1 x sep = Ok r <-> is_flat x = true /\ r = x.
Proof.
  unfold flatten_json. simpl. split.
  - destruct (pass_items sep x true x) as [[[|] x']| |] eqn:Hpass; try discriminate.
    intros H. injection H as <-.
    pose proof (pass_items_done sep _ _ _ _ _ Hpass) as Hd. simpl in Hd.
    symmetry in Hd. split; [assumption|].
    rewrite (pass_items_flat sep x true x Hd) in Hpass. now injection Hpass.
  - intros [Hflat ->]. now rewrite (pass_items_flat sep x true x Hflat).
Qed.

Lemma flatten_json_first_pass_witness :
  is_flat [("d", PInt 4); ("e", PNone)] = true /\
  flatten_json 1 [("d", PInt 4); ("e", PNone)] default_sep
  = Ok [("d", PInt 4); ("e", PNone)] /\
  forall r, flatten_json 1 nested_example default_sep <> Ok r.
Proof.
  split; [reflexivity|]. split.
  - apply (proj2 (flatten_json_first_pass default_sep
                    [("d", PInt 4); ("e", PNone)] [("d", PInt 4); ("e", PNone)])).
    split; reflexivity.
  - intros r H.
    destruct (proj1 (flatten_json_first_pass default_sep nested_example r) H) as [Hflat _].
    discriminate Hflat.
Defined.

(* ================================================================== *)
(** * Further properties of discovery and construction *)
(* ================================================================== *)

(** X5: when discovery returns, the run ids are in ascending order,
    there is at least one, and they are exactly the integers [int]
    parses from the names of the subdirectories that contain a digit. *)
Theorem discovery_returns_sorted_ids (bd : direntries) (ids : list Z) :
  discover bd = Ok ids ->
  StronglySorted Z.le ids /\ ids <> [] /\
  (forall z, In z ids <->
             exists f, In f (map fst bd) /\ isdir bd [f] = true /\
                       has_digit f = true /\ py_int f = Some z).
Proof. exact (discover_returns bd ids). Qed.

Lemma discovery_returns_sorted_ids_witness :
  discover two_runs_basedir = Ok [1%Z; 2%Z] /\
  StronglySorted Z.le [1%Z; 2%Z] /\ [1%Z; 2%Z] <> [] /\
  (forall z, In z [1%Z; 2%Z] <->
             exists f, In f (map fst two_runs_basedir) /\
                       isdir two_runs_basedir [f] = true /\
                       has_digit f = true /\ py_int f = Some z).
Proof.
  split; [reflexivity|].
  exact (discovery_returns_sorted_ids two_runs_basedir [1%Z; 2%Z] eq_refl).
Defined.



(** X7: [int(str(z)) == z] for every integer, [str(z)] has a digit, and
    distinct integers print differently: a directory named [str(z)] is
    accepted by discovery as run [z], and the directories [_eid_dir]
    names for distinct runs are distinct. *)
Theorem run_id_str_int_round_trip :
  (forall z, py_int (str_of_Z z) = Some z /\ has_digit (str_of_Z z) = true) /\
  (forall pd z z', _eid_dir pd z = _eid_dir pd z' -> z = z').
Proof.
  split.
  - intros z. split; [apply py_int_str_of_Z|apply str_of_Z_has_digit].
  - intros pd z z' H. apply str_of_Z_inj.
    destruct pd; simpl in H; now injection H.
Qed.

Lemma run_id_str_int_round_trip_witness :
  py_int (str_of_Z (-12)) = Some (-12)%Z /\ has_digit (str_of_Z (-12)) = true /\
  (_eid_dir (Some "processed") 7%Z = _eid_dir (Some "processed") 7%Z -> 7%Z = 7%Z).
Proof.
  split; [exact (proj1 (proj1 run_id_str_int_round_trip (-12)%Z))|].
  split; [exact (proj2 (proj1 run_id_str_int_round_trip (-12)%Z))|].
  exact (proj2 run_id_str_int_round_trip (Some "processed") 7%Z 7%Z).
Defined.

(** X8: the collection [__init__] returns is indexed by its run ids, the
    run ids are in ascending order, every column has one cell for every
    run and every artifact one value for every run. *)
Theorem init_collection_shape
  (bd : direntries) (pd : option string) (w0 : effects)
  (self : FileStorageParser) (w : effects) :
  init bd pd w0 = (Ok self, w) ->
  df_index (cfg_df self) = eids self /\
  StronglySorted Z.le (eids self) /\
  (forall c, In c (df_columns (cfg_df self)) ->
             List.length (snd c) = List.length (eids self)) /\
  (forall a, In a (artifacts self) ->
             forall eid, In eid (eids self) -> In eid (keys (snd a))).
Proof. exact (init_shape bd pd w0 self w). Qed.

Lemma init_collection_shape_witness :
  init two_runs_basedir None no_effects = (Ok two_runs_parser, two_runs_effects) /\
  df_index (cfg_df two_runs_parser) = eids two_runs_parser /\
  StronglySorted Z.le (eids two_runs_parser) /\
  (forall c, In c (df_columns (cfg_df two_runs_parser)) ->
             List.length (snd c) = List.length (eids two_runs_parser)) /\
  (forall a, In a (artifacts two_runs_parser) ->
             forall eid, In eid (eids two_runs_parser) -> In eid (keys (snd a))).
Proof.
  split; [reflexivity|].
  exact (init_collection_shape two_runs_basedir None no_effects
           two_runs_parser two_runs_effects eq_refl).
Defined.

(** X9: every column name of a constructed collection consists of
    characters of [a-z0-9_] only, and normalizing it again leaves it as
    it is. *)
Theorem init_column_names
  (bd : direntries) (pd : option string) (w0 : effects)
  (self : FileStorageParser) (w : effects) :
  init bd pd w0 = (Ok self, w) ->
  forall name, In name (columns (cfg_df self)) ->
    (forall c, In c (list_ascii_of_string name) -> is_name_char c = true) /\
    normalize_name name = name.
Proof.
  intros Hinit name Hn.
  destruct (init_inv bd pd w0 self w Hinit)
    as (ids & df & w1 & fs & _ & Hc & _ & _ & _ & Hdf).
  rewrite Hdf in Hn.
  destruct (_config_df_columns _ _ _ _ _ _ Hc name Hn) as [raw ->].
  split; [intros c; apply normalize_name_chars|apply normalize_name_idem].
Qed.

Lemma init_column_names_witness :
  init two_runs_basedir None no_effects = (Ok two_runs_parser, two_runs_effects) /\
  In "net_depth" (columns (cfg_df two_runs_parser)) /\
  (forall c, In c (list_ascii_of_string "net_depth") -> is_name_char c = true) /\
  normalize_name "net_depth" = "net_depth".
Proof.
  assert (Hin : In "net_depth" (columns (cfg_df two_runs_parser))) by (simpl; auto).
  split; [reflexivity|]. split; [exact Hin|].
  exact (init_column_names two_runs_basedir None no_effects
           two_runs_parser two_runs_effects eq_refl "net_depth" Hin).
Defined.

(** X10: construction succeeds only if every regular file of every run
    directory, the four reserved names apart, has one of the extensions
    .feather, .json, .pickle, .pkl: any other file makes [__init__]
    raise. *)
Theorem init_supported_extensions
  (bd : direntries) (pd : option string) (w0 : effects)
  (self : FileStorageParser) (w : effects) :
  init bd pd w0 = (Ok self, w) ->
  forall eid fs f,
    In eid (eids self) -> run_filenames bd pd eid = Ok fs -> In f fs ->
    In (snd (splitext f)) supported_extensions.
Proof.
  intros Hinit eid fs f He Hfs Hf.
  destruct (init_inv bd pd w0 self w Hinit)
    as (ids & df & w1 & fs' & _ & _ & Hnames & Hl & Hids & _).
  rewrite Hids in He.
  destruct (run_filenames_isfile bd pd eid fs f Hfs Hf) as [content Hwalk].
  apply (load_artifacts_extensions bd pd ids fs' _ _ _ _ Hl f eid content);
    [|assumption|assumption].
  apply (artifact_filenames_In bd pd ids fs' Hnames). eauto.
Qed.

Lemma init_supported_extensions_witness :
  init two_runs_basedir None no_effects = (Ok two_runs_parser, two_runs_effects) /\
  In 1%Z (eids two_runs_parser) /\
  run_filenames two_runs_basedir None 1%Z = Ok ["hist.json"; "model.pkl"] /\
  In "model.pkl" ["hist.json"; "model.pkl"] /\
  In (snd (splitext "model.pkl")) supported_extensions.
Proof.
  assert (H1 : In 1%Z (eids two_runs_parser)) by (simpl; auto).
  assert (H2 : In "model.pkl" ["hist.json"; "model.pkl"]) by (simpl; auto).
  split; [reflexivity|]. split; [exact H1|]. split; [reflexivity|]. split; [exact H2|].
  exact (init_supported_extensions two_runs_basedir None no_effects
           two_runs_parser two_runs_effects eq_refl
           1%Z ["hist.json"; "model.pkl"] "model.pkl" H1 eq_refl H2).
Defined.

(** X11: the artifact names of a constructed collection are exactly the
    stems of the regular files, reserved names apart, found in the run
    directories. *)
Theorem init_artifact_names
  (bd : direntries) (pd : option string) (w0 : effects)
  (self : FileStorageParser) (w : effects) :
  init bd pd w0 = (Ok self, w) ->
  forall n,
    In n (keys (artifacts self)) <->
    exists eid fs f,
      In eid (eids self) /\ run_filenames bd pd eid = Ok fs /\ In f fs /\
      fst (splitext f) = n.
Proof.
  intros Hinit n.
  destruct (init_inv bd pd w0 self w Hinit)
    as (ids & df & w1 & fs' & _ & _ & Hnames & Hl & -> & _).
  rewrite (load_artifacts_keys bd pd ids fs' _ _ _ _ Hl n). simpl. split.
  - intros [[]|(f & Hf & Hs)].
    apply (artifact_filenames_In bd pd ids fs' Hnames) in Hf.
    destruct Hf as (eid & fs & He & Hr & Hin). exists eid, fs, f. auto.
  - intros (eid & fs & f & He & Hr & Hin & Hs). right. exists f. split; [|assumption].
    apply (artifact_filenames_In bd pd ids fs' Hnames). eauto.
Qed.

Lemma init_artifact_names_witness :
  init two_runs_basedir None no_effects = (Ok two_runs_parser, two_runs_effects) /\
  (In "model" (keys (artifacts two_runs_parser)) <->
   exists eid fs f,
     In eid (eids two_runs_parser) /\
     run_filenames two_runs_basedir None eid = Ok fs /\ In f fs /\
     fst (splitext f) = "model").
Proof.
  split; [reflexivity|].
  exact (init_artifact_names two_runs_basedir None no_effects
           two_runs_parser two_runs_effects eq_refl "model").
Defined.

(** X12: for a file found in some run directory whose stem no other
    artifact file has, the artifact of that stem holds, for each run,
    the content of the run's file of that name, and [None] for a run
    that has no such file. *)
Theorem init_artifact_values
  (bd : direntries) (pd : option string) (w0 : effects)
  (self : FileStorageParser) (w : effects) :
  init bd pd w0 = (Ok self, w) ->
  forall eid0 fs0 f,
    In eid0 (eids self) -> run_filenames bd pd eid0 = Ok fs0 -> In f fs0 ->
    (forall eid' fs' f',
        In eid' (eids self) -> run_filenames bd pd eid' = Ok fs' -> In f' fs' ->
        fst (splitext f') = fst (splitext f) -> f' = f) ->
    forall eid, In eid (eids self) ->
      artifact_value self (fst (splitext f)) eid = Some (load_value bd pd eid f).
Proof.
  intros Hinit eid0 fs0 f He0 Hr0 Hf0 Huniq eid He.
  destruct (init_inv bd pd w0 self w Hinit)
    as (ids & df & w1 & fs' & _ & _ & Hnames & Hl & Hids & _).
  rewrite Hids in *.
  destruct (load_artifacts_value bd pd ids f fs' _ _ _ _ Hl) as (pr & Hpr & Hq).
  - intros f' Hf' Hs. apply (artifact_filenames_In bd pd ids fs' Hnames) in Hf'.
    destruct Hf' as (eid' & fs1 & He' & Hr' & Hin'). eauto.
  - left. apply (artifact_filenames_In bd pd ids fs' Hnames). eauto.
  - unfold artifact_value. rewrite Hpr. now apply Hq.
Qed.

Lemma init_artifact_values_witness :
  init two_runs_basedir None no_effects = (Ok two_runs_parser, two_runs_effects) /\
  artifact_value two_runs_parser "model" 1%Z = Some (PObject 0) /\
  artifact_value two_runs_parser "model" 2%Z = Some PNone.
Proof.
  split; [reflexivity|].
  assert (H : forall eid, In eid (eids two_runs_parser) ->
                artifact_value two_runs_parser (fst (splitext "model.pkl")) eid
                = Some (load_value two_runs_basedir None eid "model.pkl")).
  { apply (init_artifact_values two_runs_basedir None no_effects
             two_runs_parser two_runs_effects eq_refl
             1%Z ["hist.json"; "model.pkl"] "model.pkl");
      [simpl; auto|reflexivity|simpl; auto|].
    intros eid' fs' f' [<-|[<-|[]]] Hr Hin Hs;
      injection Hr as <-; simpl in Hin;
      destruct Hin as [<-|Hin]; try discriminate Hs;
      try (destruct Hin as [<-|[]]; try discriminate Hs); try reflexivity;
      try (destruct Hin). }
  split; [exact (H 1%Z (or_introl eq_refl))|exact (H 2%Z (or_intror (or_introl eq_refl)))].
Defined.

(** X13: a collection is constructed only from run directories that each
    hold a config.json with a JSON object; when no processed
    subdirectory is given, none of these objects has the key "eid". *)
Theorem init_config_files
  (bd : direntries) (pd : option string) (w0 : effects)
  (self : FileStorageParser) (w : effects) :
  init bd pd w0 = (Ok self, w) ->
  forall eid, In eid (eids self) ->
    exists cfg,
      fs_walk bd (_eid_dir pd eid ++ ["config.json"]) = Some (RegFile (PDict cfg)) /\
      (pd = None -> smem "eid" cfg = false).
Proof.
  intros Hinit eid He.
  destruct (init_inv bd pd w0 self w Hinit)
    as (ids & df & w1 & fs' & _ & Hc & _ & _ & Hids & _).
  rewrite Hids in He. unfold _config_df, bind in Hc.
  destruct (mapM (load_config bd pd) ids w0) as [[cfgs| |] w2] eqn:Em; try discriminate.
  destruct (mapM_In _ _ _ _ _ Em eid He) as (wa & cfg' & wb & Hload).
  destruct (load_config_inv _ _ _ _ _ _ Hload) as (cfg & Hwalk & Heid & _).
  exists cfg. auto.
Qed.

Lemma init_config_files_witness :
  init two_runs_basedir None no_effects = (Ok two_runs_parser, two_runs_effects) /\
  In 2%Z (eids two_runs_parser) /\
  exists cfg,
    fs_walk two_runs_basedir (_eid_dir None 2%Z ++ ["config.json"])
    = Some (RegFile (PDict cfg)) /\
    (@None string = None -> smem "eid" cfg = false).
Proof.
  assert (H : In 2%Z (eids two_runs_parser)) by (simpl; auto).
  split; [reflexivity|]. split; [exact H|].
  exact (init_config_files two_runs_basedir None no_effects
           two_runs_parser two_runs_effects eq_refl 2%Z H).
Defined.

(* ================================================================== *)
(** * Further properties of selection, resolution and derived entries *)
(* ================================================================== *)

(** X14: called with at least one criterion, none named "self", each
    naming a column of a table whose labels are distinct and each giving
    a scalar, [eid_match] returns an index of run ids: exactly the run
    ids whose row has, in every supplied column, a cell that [==] the
    supplied value, in the order of the index; nothing is opened and no
    warning issued. *)
Theorem eid_match_selects_matching_runs
  (cell_eq : pyobj -> pyobj -> bool) (self : FileStorageParser)
  (criteria : sdict) (w : effects) :
  df_wf (cfg_df self) = true ->
  criteria <> [] ->
  smem "self" criteria = false ->
  (forall k, In k (keys criteria) -> In k (columns (cfg_df self))) ->
  (forall k v, In (k, v) criteria -> is_scalar v = true) ->
  exists labels,
    eid_match cell_eq self criteria w = (Ok (Index1D labels), w) /\
    (forall eid,
        In eid labels <->
        In eid (df_index (cfg_df self)) /\
        forall k v, In (k, v) criteria ->
                    exists c, cell self k eid = Some c /\ cell_eq c v = true) /\
    (forall R, StronglySorted R (df_index (cfg_df self)) -> StronglySorted R labels).
Proof. exact (eid_match_with_criteria cell_eq self criteria w). Qed.

Lemma eid_match_selects_matching_runs_witness :
  df_wf (cfg_df example_parser) = true /\
  [("seed", PInt 7); ("lr", PInt 3)] <> [] /\
  smem "self" [("seed", PInt 7); ("lr", PInt 3)] = false /\
  (forall k, In k (keys [("seed", PInt 7); ("lr", PInt 3)]) ->
             In k (columns (cfg_df example_parser))) /\
  (forall k v, In (k, v) [("seed", PInt 7); ("lr", PInt 3)] -> is_scalar v = true) /\
  eid_match (fun a b => match a, b with
                          | PInt x, PInt y => Z.eqb x y
                          | _, _ => false
                          end)
            example_parser [("seed", PInt 7); ("lr", PInt 3)] no_effects
  = (Ok (Index1D [2%Z]), no_effects) /\
  exists labels,
    eid_match (fun a b => match a, b with
                          | PInt x, PInt y => Z.eqb x y
                          | _, _ => false
                          end)
              example_parser [("seed", PInt 7); ("lr", PInt 3)] no_effects
    = (Ok (Index1D labels), no_effects) /\
    (In 2%Z labels <-> In 2%Z (df_index (cfg_df example_parser)) /\
       forall k v, In (k, v) [("seed", PInt 7); ("lr", PInt 3)] ->
                   exists c, cell example_parser k 2%Z = Some c /\
                             match c, v with
                             | PInt x, PInt y => Z.eqb x y
                             | _, _ => false
                             end = true).
Proof.
  assert (H1 : df_wf (cfg_df example_parser) = true) by reflexivity.
  assert (H2 : [("seed", PInt 7); ("lr", PInt 3)] <> []) by discriminate.
  assert (H3 : forall k, In k (keys [("seed", PInt 7); ("lr", PInt 3)]) ->
                         In k (columns (cfg_df example_parser)))
    by (intros k [<-|[<-|[]]]; simpl; auto).
  assert (H4 : forall k v, In (k, v) [("seed", PInt 7); ("lr", PInt 3)] ->
                           is_scalar v = true).
  { intros k v [E|[E|[]]]; injection E as _ <-; reflexivity. }
  split; [exact H1|]. split; [exact H2|]. split; [reflexivity|].
  split; [exact H3|]. split; [exact H4|]. split; [reflexivity|].
  destruct (eid_match_selects_matching_runs
              (fun a b => match a, b with
                          | PInt x, PInt y => Z.eqb x y
                          | _, _ => false
                          end)
              example_parser [("seed", PInt 7); ("lr", PInt 3)] no_effects
              H1 H2 eq_refl H3 H4)
    as (labels & Hm & Hiff & _).
  exists labels. split; [exact Hm|exact (Hiff 2%Z)].
Defined.

(** X15: on a table whose labels are distinct, [eid_match] raises
    [KeyError] of the first criterion that names no column, when no
    criterion is named "self" and the criteria before it name columns
    and give scalars; the criteria after it are not looked at. *)
Theorem eid_match_unknown_column
  (cell_eq : pyobj -> pyobj -> bool) (self : FileStorageParser)
  (before after : sdict) (k : string) (v : pyobj) (w : effects) :
  df_wf (cfg_df self) = true ->
  smem "self" (before ++ (k, v) :: after) = false ->
  (forall k', In k' (keys before) -> In k' (columns (cfg_df self))) ->
  (forall k' v', In (k', v') before -> is_scalar v' = true) ->
  ~ In k (columns (cfg_df self)) ->
  eid_match cell_eq self (before ++ (k, v) :: after) w = (Raise (KeyError k), w).
Proof.
  intros _ Hself Hb Hsc Hk. unfold eid_match, bind, lift. rewrite Hself.
  now rewrite (match_loop_unknown cell_eq (cfg_df self) before k v after Hb Hsc Hk).
Qed.

Lemma eid_match_unknown_column_witness :
  df_wf (cfg_df example_parser) = true /\
  smem "self" ([("lr", PInt 1)] ++ ("momentum", PInt 0) :: [("seed", PList [])]) = false /\
  (forall k', In k' (keys [("lr", PInt 1)]) -> In k' (columns (cfg_df example_parser))) /\
  (forall k' v', In (k', v') [("lr", PInt 1)] -> is_scalar v' = true) /\
  ~ In "momentum" (columns (cfg_df example_parser)) /\
  eid_match (fun _ _ => true) example_parser
            ([("lr", PInt 1)] ++ ("momentum", PInt 0) :: [("seed", PList [])]) no_effects
  = (Raise (KeyError "momentum"), no_effects).
Proof.
  assert (H1 : forall k', In k' (keys [("lr", PInt 1)]) ->
                          In k' (columns (cfg_df example_parser)))
    by (intros k' [<-|[]]; simpl; auto).
  assert (H2 : forall k' v', In (k', v') [("lr", PInt 1)] -> is_scalar v' = true).
  { intros k' v' [E|[]]. injection E as _ <-. reflexivity. }
  assert (H3 : ~ In "momentum" (columns (cfg_df example_parser))).
  { intros [H|[H|[]]]; discriminate H. }
  split; [reflexivity|].
  split; [reflexivity|]. split; [exact H1|]. split; [exact H2|]. split; [exact H3|].
  exact (eid_match_unknown_column (fun _ _ => true) example_parser
           [("lr", PInt 1)] [("seed", PList [])] "momentum" (PInt 0) no_effects
           eq_refl eq_refl H1 H2 H3).
Defined.

(** X16: [add_artifact] and [add_cfg_col] keep the two namespaces
    disjoint and free of "eid": from a collection in which no column
    name is an artifact name and neither kind has the name "eid", a call
    that returns leaves such a collection. *)
Theorem add_keeps_namespaces_disjoint
  (self : FileStorageParser) (name : string) (f : callback) (w : effects)
  (self' : FileStorageParser) (w' : effects) :
  names_ok self ->
  add_artifact self name f w = (Ok self', w') \/
  add_cfg_col self name f w = (Ok self', w') ->
  names_ok self'.
Proof.
  intros Hok [H|H].
  - exact (add_artifact_names_ok self name f w self' w' Hok H).
  - exact (add_cfg_col_names_ok self name f w self' w' Hok H).
Qed.

Lemma example_names_ok : names_ok example_parser.
Proof.
  unfold names_ok. simpl. split; [|split].
  - intros n [<-|[<-|[]]] [H|[]]; discriminate H.
  - intros [H|[H|[]]]; discriminate H.
  - intros [H|[]]; discriminate H.
Defined.

Lemma add_keeps_namespaces_disjoint_witness :
  names_ok example_parser /\
  exists self',
    add_cfg_col example_parser "ratio" example_callback no_effects
    = (Ok self', no_effects) /\
    names_ok self'.
Proof.
  split; [exact example_names_ok|].
  eexists. split; [reflexivity|].
  apply (add_keeps_namespaces_disjoint example_parser "ratio" example_callback
           no_effects _ no_effects example_names_ok).
  right. reflexivity.
Defined.

(** X17: [add_artifact] and [add_cfg_col] keep the collection well
    formed: distinct column names and run ids, a cell in every column
    and a value in every artifact for every run. *)
Theorem add_keeps_collection_well_formed
  (self : FileStorageParser) (name : string) (f : callback) (w : effects)
  (self' : FileStorageParser) (w' : effects) :
  parser_wf self = true ->
  add_artifact self name f w = (Ok self', w') \/
  add_cfg_col self name f w = (Ok self', w') ->
  parser_wf self' = true.
Proof.
  intros Hwf [H|H].
  - exact (add_artifact_wf self name f w self' w' Hwf H).
  - exact (add_cfg_col_wf self name f w self' w' Hwf H).
Qed.

Lemma add_keeps_collection_well_formed_witness :
  parser_wf example_parser = true /\
  exists self',
    add_artifact example_parser "summary" example_callback no_effects
    = (Ok self', no_effects) /\
    parser_wf self' = true.
Proof.
  split; [reflexivity|].
  eexists. split; [reflexivity|].
  apply (add_keeps_collection_well_formed example_parser "summary" example_callback
           no_effects _ no_effects eq_refl).
  left. reflexivity.
Defined.

(** X18: what an add operation stores is what resolution returns.
    After [add_artifact(name, f)] the artifact [name] holds, for every
    run, the value [f] returned for that run, and [_kwargs] resolves
    [name] to it.  After [add_cfg_col(name, f)] on a well-formed
    collection the cells of the other columns are as before; and when
    the values [f] returned are of one kind that pandas stores as
    assigned (integers of 64 bits, floats, booleans, or lists and
    dicts), the cell of column [name] is, for every run, the value [f]
    returned for that run, and [_kwargs] resolves [name] to it. *)
Theorem added_entry_is_resolved :
  (forall self name f w self' w',
      parser_wf self = true ->
      add_cfg_col self name f w = (Ok self', w') ->
      (forall c eid, c <> name -> cell self' c eid = cell self c eid) /\
      exists values,
        omap (run_callback self f) (eids self) = Ok values /\
        (stored_as_assigned values = true ->
         forall eid, In eid (eids self) ->
           exists v, run_callback self f eid = Ok v /\
                     cell self' name eid = Some v /\
                     kwargs_value self' name eid = Ok v)) /\
  (forall self name f w self' w',
      add_artifact self name f w = (Ok self', w') ->
      forall eid, In eid (eids self) ->
        exists v, run_callback self f eid = Ok v /\
                  artifact_value self' name eid = Some v /\
                  kwargs_value self' name eid = Ok v).
Proof.
  split.
  - intros self name f w self' w' Hwf Hadd. split.
    + intros c eid Hc. exact (add_cfg_col_other self name f w self' w' c eid Hadd Hc).
    + destruct (add_cfg_col_inv _ _ _ _ _ _ Hadd) as (_ & _ & _ & _ & values & Hvals & _).
      exists values. split; [exact Hvals|]. intros _.
      exact (add_cfg_col_cell self name f w self' w' Hwf Hadd).
  - exact add_artifact_value.
Qed.

Lemma added_entry_is_resolved_witness :
  parser_wf example_parser = true /\
  exists self',
    add_cfg_col example_parser "ratio" example_callback no_effects
    = (Ok self', no_effects) /\
    In 2%Z (eids example_parser) /\
    exists values,
      omap (run_callback example_parser example_callback) (eids example_parser)
      = Ok values /\
      stored_as_assigned values = true /\
      exists v, run_callback example_parser example_callback 2%Z = Ok v /\
                cell self' "ratio" 2%Z = Some v /\
                kwargs_value self' "ratio" 2%Z = Ok v.
Proof.
  split; [reflexivity|].
  eexists. split; [reflexivity|].
  assert (He : In 2%Z (eids example_parser)) by (simpl; auto).
  split; [exact He|].
  destruct (proj2 (proj1 added_entry_is_resolved example_parser "ratio" example_callback
                     no_effects _ no_effects eq_refl eq_refl))
    as (values & Hvals & Hcells).
  assert (E : values = [PList [PInt 1]; PList [PInt 3]]).
  { assert (Hc : omap (run_callback example_parser example_callback)
                      (eids example_parser)
                 = Ok [PList [PInt 1]; PList [PInt 3]]) by reflexivity.
    rewrite Hc in Hvals. now injection Hvals. }
  exists values. split; [exact Hvals|].
  assert (Hs : stored_as_assigned values = true) by (rewrite E; reflexivity).
  split; [exact Hs|]. exact (Hcells Hs 2%Z He).
Defined.

(** X19: [add_cfg_col] under a name that is neither "eid", nor an
    artifact, nor a column (the user function returning for every run)
    returns without warning and without any other effect; the new label
    is the last one and the artifacts are as before.  When the values
    the function returned are of one kind that pandas stores as assigned
    (integers of 64 bits, floats, booleans, or lists and dicts), the new
    column holds them in the order of the runs. *)
Theorem add_cfg_col_new_column
  (self : FileStorageParser) (name : string) (f : callback) (w : effects) :
  name <> "eid" -> ~ In name (keys (artifacts self)) ->
  ~ In name (columns (cfg_df self)) ->
  (forall eid, In eid (eids self) -> exists v, run_callback self f eid = Ok v) ->
  exists values self',
    omap (run_callback self f) (eids self) = Ok values /\
    add_cfg_col self name f w = (Ok self', w) /\
    columns (cfg_df self') = columns (cfg_df self) ++ [name] /\
    artifacts self' = artifacts self /\
    (stored_as_assigned values = true ->
     df_getcol name (cfg_df self') = Ok values).
Proof.
  intros Hne Ha Hc Hf.
  destruct (omap_total (run_callback self f) (eids self) Hf) as (values & Hvals & _).
  rewrite (add_cfg_col_ok self name f w values Hne Ha Hvals).
  destruct (in_columns name (cfg_df self)) eqn:E.
  { apply in_columns_true in E. contradiction. }
  exists values. eexists. split; [exact Hvals|].
  split; [destruct w; reflexivity|]. simpl.
  split; [|split; [reflexivity|]].
  - unfold columns, df_setcol. simpl.
    now apply (keys_set_new string_dec name values (df_columns (cfg_df self))).
  - intros _. unfold df_getcol, df_setcol. simpl. rewrite dict_get_set.
    now destruct (string_dec name name).
Qed.

Lemma add_cfg_col_new_column_witness :
  "ratio" <> "eid" /\ ~ In "ratio" (keys (artifacts example_parser)) /\
  ~ In "ratio" (columns (cfg_df example_parser)) /\
  exists values self',
    omap (run_callback example_parser example_callback) (eids example_parser)
    = Ok values /\
    add_cfg_col example_parser "ratio" example_callback no_effects
    = (Ok self', no_effects) /\
    columns (cfg_df self') = columns (cfg_df example_parser) ++ ["ratio"] /\
    artifacts self' = artifacts example_parser /\
    (stored_as_assigned values = true ->
     df_getcol "ratio" (cfg_df self') = Ok values).
Proof.
  assert (H1 : "ratio" <> "eid") by discriminate.
  assert (H2 : ~ In "ratio" (keys (artifacts example_parser))).
  { intros [H|[]]. discriminate H. }
  assert (H3 : ~ In "ratio" (columns (cfg_df example_parser))).
  { intros [H|[H|[]]]; discriminate H. }
  split; [exact H1|]. split; [exact H2|]. split; [exact H3|].
  exact (add_cfg_col_new_column example_parser "ratio" example_callback no_effects
           H1 H2 H3 example_callback_returns).
Defined.

(* ================================================================== *)
(** * Properties of do_for_eid and do_along_eids *)
(* ================================================================== *)

(** X20: a call of [do_for_eid] that gives one of the method's own
    parameters, "self", "eid" or "f", again as a keyword raises
    [TypeError] and does not call [f].  Any other call, on a well-formed
    collection and one of its runs, is one call of [f], never the error
    of an argument given twice, and has no other effect; in the
    arguments of that call a keyword the caller supplied has the
    caller's value, even when it is the name of a column or an artifact,
    every other parameter of [f] is resolved from the collection, and a
    name that is neither is not passed. *)
Theorem do_for_eid_arguments
  (self : FileStorageParser) (eid : Z) (f : callback) (extra : sdict) (w : effects) :
  (rebinds ["self"; "eid"; "f"] extra = true ->
   exists msg, do_for_eid self eid f extra w = (Raise (TypeError msg), w)) /\
  (rebinds ["self"; "eid"; "f"] extra = false ->
   parser_wf self = true -> In eid (eids self) ->
   exists kw,
     do_for_eid self eid f extra w = (call f (kw ++ extra), w) /\
     forall k,
       sget k (kw ++ extra)
       = match sget k extra with
         | Some v => Some v
         | None => if in_dec string_dec k (argnames f)
                   then resolve_spec self k eid else None
         end).
Proof.
  split.
  - intros Hre. eexists. exact (do_for_eid_rebinds self eid f extra w Hre).
  - intros Hre Hwf He.
    destruct (do_for_eid_args self eid f extra w Hwf He Hre) as (kw & _ & Hcall & Hget).
    exists kw. split; assumption.
Qed.

Lemma do_for_eid_arguments_witness :
  rebinds ["self"; "eid"; "f"] [("eid", PInt 5)] = true /\
  (exists msg, do_for_eid example_parser 2%Z scaled_callback [("eid", PInt 5)] no_effects
               = (Raise (TypeError msg), no_effects)) /\
  rebinds ["self"; "eid"; "f"] [("scale", PInt 2)] = false /\
  parser_wf example_parser = true /\ In 2%Z (eids example_parser) /\
  do_for_eid example_parser 2%Z scaled_callback [("lr", PInt 10); ("scale", PInt 2)]
             no_effects
  = (Ok (PList [PInt 10; PInt 2]), no_effects) /\
  do_for_eid example_parser 2%Z scaled_callback [("scale", PInt 2)] no_effects
  = (Ok (PList [PInt 3; PInt 2]), no_effects) /\
  exists kw,
    do_for_eid example_parser 2%Z scaled_callback [("scale", PInt 2)] no_effects
    = (call scaled_callback (kw ++ [("scale", PInt 2)]), no_effects) /\
    sget "eid" (kw ++ [("scale", PInt 2)]) = Some (PInt 2) /\
    sget "lr" (kw ++ [("scale", PInt 2)]) = Some (PInt 3) /\
    sget "scale" (kw ++ [("scale", PInt 2)]) = Some (PInt 2).
Proof.
  assert (He : In 2%Z (eids example_parser)) by (simpl; auto).
  split; [reflexivity|].
  split; [exact (proj1 (do_for_eid_arguments example_parser 2%Z scaled_callback
                          [("eid", PInt 5)] no_effects) eq_refl)|].
  split; [reflexivity|]. split; [reflexivity|]. split; [exact He|].
  split; [reflexivity|]. split; [reflexivity|].
  destruct (proj2 (do_for_eid_arguments example_parser 2%Z scaled_callback
                     [("scale", PInt 2)] no_effects) eq_refl eq_refl He)
    as (kw & Hcall & Hget).
  exists kw. split; [exact Hcall|].
  split; [exact (Hget "eid")|]. split; [exact (Hget "lr")|exact (Hget "scale")].
Defined.

(** X21: for keyword arguments that do not name "eid", in a collection
    that has a run, [do_along_eids(f, kwargs)] returns exactly when
    [do_for_eid(eid, f, kwargs)] returns for every run of the
    collection; the list it returns has one entry per run, the entry at
    each position being what [do_for_eid] returns for the run at that
    position, and nothing else is done.  (A keyword "eid" makes
    [do_for_eid] raise, while [do_along_eids] hands it to [f].) *)
Theorem do_along_eids_is_do_for_eid_per_run
  (self : FileStorageParser) (f : callback) (extra : sdict) (w : effects) :
  smem "eid" extra = false ->
  (forall results w',
      do_along_eids self f extra w = (Ok results, w') ->
      w' = w /\ List.length results = List.length (eids self) /\
      forall i eid, nth_error (eids self) i = Some eid ->
                    exists v, nth_error results i = Some v /\
                              do_for_eid self eid f extra w = (Ok v, w)) /\
  (eids self <> [] ->
   (forall eid, In eid (eids self) ->
                exists v, do_for_eid self eid f extra w = (Ok v, w)) ->
   exists results, do_along_eids self f extra w = (Ok results, w)).
Proof.
  intros Heid.
  pose proof (rebinds_split extra) as Hsplit. rewrite Heid, orb_false_r in Hsplit.
  destruct (rebinds ["self"; "f"] extra) eqn:Hre.
  - split.
    + intros results w' H. unfold do_along_eids in H. rewrite Hre in H. discriminate H.
    + intros Hne Hall. exfalso. destruct (eids self) as [|eid ids]; [congruence|].
      destruct (Hall eid (or_introl eq_refl)) as [v Hv].
      rewrite (do_for_eid_rebinds self eid f extra w Hsplit) in Hv. discriminate Hv.
  - assert (Hpure : forall eid w0,
               do_for_eid self eid f extra w0
               = (obind (kwargs_loop self (free_argnames f extra) eid [])
                        (fun kw => call_with f kw extra), w0)).
    { intros eid w0. exact (do_for_eid_pure self eid f extra w0 Hsplit). }
    assert (Hbody : forall eid w0,
               (kw <- _kwargs self (free_argnames f extra) eid ;;
                lift (call_with f kw extra)) w0
               = (obind (kwargs_loop self (free_argnames f extra) eid [])
                        (fun kw => call_with f kw extra), w0)).
    { intros eid w0. rewrite <- Hpure. unfold do_for_eid. now rewrite Hsplit. }
    split.
    + intros results w' H. unfold do_along_eids in H. rewrite Hre in H.
      destruct (mapM_nth _ _ Hbody (eids self) w results w' H) as (Hw & Hlen & Hnth).
      split; [exact Hw|]. split; [exact Hlen|].
      intros i eid Hi. destruct (Hnth i eid Hi) as (v & Hv & Hb).
      exists v. split; [exact Hv|]. rewrite Hpure. rewrite Hbody in Hb. exact Hb.
    + intros _ Hall. unfold do_along_eids. rewrite Hre.
      rewrite (mapM_pure _ _ Hbody).
      destruct (omap_total
                  (fun eid => obind (kwargs_loop self (free_argnames f extra) eid [])
                                    (fun kw => call_with f kw extra))
                  (eids self)) as (bs & Hbs & _).
      * intros eid He. destruct (Hall eid He) as [v Hv].
        rewrite Hpure in Hv. exists v. now injection Hv.
      * exists bs. now rewrite Hbs.
Qed.

Lemma do_along_eids_is_do_for_eid_per_run_witness :
  smem "eid" [("scale", PInt 2)] = false /\
  do_along_eids example_parser scaled_callback [("scale", PInt 2)] no_effects
  = (Ok [PList [PInt 1; PInt 2]; PList [PInt 3; PInt 2]], no_effects) /\
  List.length [PList [PInt 1; PInt 2]; PList [PInt 3; PInt 2]]
  = List.length (eids example_parser) /\
  exists v, nth_error [PList [PInt 1; PInt 2]; PList [PInt 3; PInt 2]] 1 = Some v /\
            do_for_eid example_parser 2%Z scaled_callback [("scale", PInt 2)] no_effects
            = (Ok v, no_effects).
Proof.
  split; [reflexivity|]. split; [reflexivity|].
  destruct (proj1 (do_along_eids_is_do_for_eid_per_run example_parser scaled_callback
                     [("scale", PInt 2)] no_effects eq_refl) _ no_effects eq_refl)
    as (_ & Hlen & Hnth).
  split; [exact Hlen|]. exact (Hnth 1%nat 2%Z eq_refl).
Defined.

(** X22: [_kwargs] raises only [KeyError] of the run id, and does so
    whenever the run id is not in the index of the table and one of the
    requested names, other than "eid", is a column: a user function of a
    column cannot be applied to a run the collection does not have. *)
Theorem kwargs_unknown_run
  (self : FileStorageParser) (names : list string) (eid : Z) (w : effects) :
  (forall e, _kwargs self names eid w = (Raise e, w) -> e = KeyError (str_of_Z eid)) /\
  (forall arg,
      In arg names -> arg <> "eid" -> In arg (columns (cfg_df self)) ->
      ~ In eid (df_index (cfg_df self)) ->
      _kwargs self names eid w = (Raise (KeyError (str_of_Z eid)), w)).
Proof.
  unfold _kwargs, lift. split.
  - intros e H.
    destruct (kwargs_loop_cases self eid names []) as [(kw & Hkw & _)|Hr].
    + rewrite Hkw in H. discriminate.
    + rewrite Hr in H. injection H as <-. reflexivity.
  - intros arg Hin Hne Hcol Hidx.
    destruct (kwargs_loop_cases self eid names []) as [(kw & Hkw & Hall)|Hr];
      [|now rewrite Hr].
    exfalso.
    assert (Ha : In arg (_argnames self)).
    { unfold _argnames. right. apply in_or_app. left. exact Hcol. }
    destruct (Hall arg Hin Ha) as [v Hv].
    unfold kwargs_value in Hv.
    destruct (String.eqb arg "eid") eqn:E; [apply String.eqb_eq in E; contradiction|].
    apply in_columns_true in Hcol. rewrite Hcol in Hv.
    destruct (df_getitem arg (cfg_df self)) as [[col|cols]| |]; simpl in Hv;
      try discriminate Hv.
    rewrite (series_loc_absent _ col eid Hidx) in Hv. discriminate Hv.
Qed.

Lemma kwargs_unknown_run_witness :
  In "lr" ["eid"; "lr"] /\ "lr" <> "eid" /\ In "lr" (columns (cfg_df example_parser)) /\
  ~ In 9%Z (df_index (cfg_df example_parser)) /\
  _kwargs example_parser ["eid"; "lr"] 9%Z no_effects
  = (Raise (KeyError (str_of_Z 9)), no_effects).
Proof.
  assert (H1 : In "lr" ["eid"; "lr"]) by (simpl; auto).
  assert (H2 : "lr" <> "eid") by discriminate.
  assert (H3 : In "lr" (columns (cfg_df example_parser))) by (simpl; auto).
  assert (H4 : ~ In 9%Z (df_index (cfg_df example_parser)))
    by (intros [H|[H|[]]]; discriminate H).
  split; [exact H1|]. split; [exact H2|]. split; [exact H3|]. split; [exact H4|].
  exact (proj2 (kwargs_unknown_run example_parser ["eid"; "lr"] 9%Z no_effects)
               "lr" H1 H2 H3 H4).
Defined.
